(** * Checkpoint management of GNU tar (src/checkpoint.c)

    A shallow embedding of the checkpoint engine: the compiler of action
    specifications, the template interpreter [format_checkpoint_string],
    the executor [run_checkpoint_actions] with its tick gate
    [checkpoint_run], and the shutdown pass [checkpoint_finish].

    The C globals are gathered in the record [State]; functions of other
    translation units and of the C library are fields of the record [Env];
    every output and every process-level side effect is appended to the
    [log] of the state.  The target is an LP64 platform: [size_t],
    [intmax_t], [long] and [time_t] have 64 bits, [int] has 32. *)

From Stdlib Require Import ZArith List String Ascii Lia Bool DecimalString.
Import ListNotations.

Local Open Scope string_scope.
Local Open Scope list_scope.
Local Open Scope Z_scope.

(** ** Machine integers *)

Definition INTMAX_MAX : Z := 2 ^ 63 - 1.
Definition TIME_T_MAX : Z := 2 ^ 63 - 1.

(** A value stored in a [size_t]. *)
Definition to_size_t (z : Z) : Z := z mod 2 ^ 64.

(** The conversion [size_t -> int] done by [return len]. *)
Definition to_int (z : Z) : Z :=
  let r := z mod 2 ^ 32 in if r <? 2 ^ 31 then r else r - 2 ^ 32.

(** The conversion to [unsigned int] done by the call of [sleep]. *)
Definition to_unsigned_int (z : Z) : Z := z mod 2 ^ 32.

(** ** Strings as the C code sees them *)

Definition NUL : ascii := "000"%char.
Definition CR : ascii := "013"%char.
Definition BEL : ascii := "007"%char.
Definition LF : ascii := "010"%char.

Definition strlen (s : string) : Z := Z.of_nat (String.length s).

(** [s + n] for a pointer [s] to a string of at least [n] characters. *)
Definition str_plus (s : string) (n : nat) : string :=
  substring n (String.length s - n) s.

(** [strncmp (s, p, strlen p) == 0]. *)
Definition strncmp0 (s p : string) : bool := prefix p s.

(** [*(s + i)]: the character at offset [i], the terminating NUL at offset
    [strlen s], and nothing beyond it. *)
Definition deref (s : string) (i : nat) : option ascii :=
  match String.get i s with
  | Some c => Some c
  | None => if Nat.eqb i (String.length s) then Some NUL else None
  end.

Fixpoint strchr_from (s : string) (c : ascii) (i : nat) : option nat :=
  match s with
  | EmptyString => None
  | String a s' => if Ascii.eqb a c then Some i else strchr_from s' c (S i)
  end.

(** [strchr (s + from, c)], as an offset into [s]. *)
Definition strchr (s : string) (from : nat) (c : ascii) : option nat :=
  strchr_from (str_plus s from) c from.

(** [fprintf (fp, "%jd", z)]. *)
Definition decimal (z : Z) : string := NilZero.string_of_int (Z.to_int z).

(** ** Data model *)

Inductive checkpoint_opcode : Type :=
| cop_dot
| cop_bell
| cop_echo
| cop_ttyout
| cop_sleep
| cop_exec
| cop_totals
| cop_wait.

(** The union [v] of an action.  [xzalloc] clears it: [v_zero] is read as
    a null [command]. *)
Inductive payload : Type :=
| v_zero
| v_time (t : Z)
| v_command (s : string)
| v_signal (n : Z).

Record checkpoint_action_t : Type := mkAction {
  opcode : checkpoint_opcode;
  v : payload
}.

Definition v_command_of (p : payload) : option string :=
  match p with v_command s => Some s | _ => None end.

Definition v_time_of (p : payload) : Z :=
  match p with v_time t => t | _ => 0 end.

Inductive chkp_state : Type := CHKP_INIT | CHKP_COMPILE | CHKP_RUN.

Inductive stream : Type := stdlis | stderr | tty_dev.

(** [sigset_t], as the list of its members. *)
Definition sigset : Type := list Z.

Definition sigismember (s : sigset) (n : Z) : bool :=
  existsb (Z.eqb n) s.

Definition sigaddset (s : sigset) (n : Z) : sigset :=
  if sigismember s n then s else s ++ [n].

Definition sigunion (a b : sigset) : sigset := fold_left sigaddset b a.

Inductive event : Type :=
| EvPutc (fp : stream) (c : ascii)
| EvPuts (fp : stream) (s : string)
| EvFlush (fp : stream)
| EvFopenTty (ok : bool)
| EvFclose (fp : stream)
| EvSleep (seconds : Z)
| EvExec (command : option string) (archive : string) (cpn : Z)
| EvComputeDuration
| EvPrintTotalStats
| EvSigprocmaskBlock (set : sigset)
| EvSigwait (set : sigset)
| EvPaxerror (fmt : string) (args : list string)
| EvPaxfatal (fmt arg : string).

(** Broken-down time, as [localtime] returns it. *)
Record tm : Type := mkTm {
  tm_sec : Z; tm_min : Z; tm_hour : Z; tm_mday : Z; tm_mon : Z; tm_year : Z
}.

(** What the file takes from the rest of tar, from gnulib and from the
    system.  [stoint arg minval maxval] returns the value and the offset of
    [*arglim] from [arg]; the file always passes a null [overflow]. *)
Record Env : Type := mkEnv {
  program_name : string;
  archive_name : string;
  DEFAULT_CHECKPOINT : Z;
  gettext : string -> string;
  unquote_string : string -> string;
  stoint : string -> Z -> Z -> Z * nat;
  decode_signal : string -> Z;
  wordsplit : string -> string + list string;
  format_total_stats : list (option string) -> string;
  ioctl_ws_col : stream -> option Z;
  getenv_COLUMNS : option string;
  fopen_tty : bool;
  current_timespec : Z * Z;
  localtime : Z -> option tm;
  fprintftime : string -> tm -> Z -> string;
  duration_text : string
}.

(** The globals of the file, [checkpoint_option] of common.h, the signal
    mask of the process and the trace of effects. *)
Record State : Type := mkState {
  checkpoint : Z;
  checkpoint_option : Z;
  checkpoint_action : list checkpoint_action_t;
  checkpoint_state : chkp_state;
  sigs : sigset;
  tty : bool;
  tty_cleanup : bool;
  sigmask : sigset;
  log : list event
}.

Definition set_checkpoint (x : Z) (st : State) : State :=
  mkState x (checkpoint_option st) (checkpoint_action st)
    (checkpoint_state st) (sigs st) (tty st) (tty_cleanup st) (sigmask st)
    (log st).

Definition set_checkpoint_option (x : Z) (st : State) : State :=
  mkState (checkpoint st) x (checkpoint_action st) (checkpoint_state st)
    (sigs st) (tty st) (tty_cleanup st) (sigmask st) (log st).

Definition set_checkpoint_action (x : list checkpoint_action_t) (st : State)
  : State :=
  mkState (checkpoint st) (checkpoint_option st) x (checkpoint_state st)
    (sigs st) (tty st) (tty_cleanup st) (sigmask st) (log st).

Definition set_checkpoint_state (x : chkp_state) (st : State) : State :=
  mkState (checkpoint st) (checkpoint_option st) (checkpoint_action st) x
    (sigs st) (tty st) (tty_cleanup st) (sigmask st) (log st).

Definition set_sigs (x : sigset) (st : State) : State :=
  mkState (checkpoint st) (checkpoint_option st) (checkpoint_action st)
    (checkpoint_state st) x (tty st) (tty_cleanup st) (sigmask st) (log st).

Definition set_tty (x : bool) (st : State) : State :=
  mkState (checkpoint st) (checkpoint_option st) (checkpoint_action st)
    (checkpoint_state st) (sigs st) x (tty_cleanup st) (sigmask st) (log st).

Definition set_tty_cleanup (x : bool) (st : State) : State :=
  mkState (checkpoint st) (checkpoint_option st) (checkpoint_action st)
    (checkpoint_state st) (sigs st) (tty st) x (sigmask st) (log st).

Definition set_sigmask (x : sigset) (st : State) : State :=
  mkState (checkpoint st) (checkpoint_option st) (checkpoint_action st)
    (checkpoint_state st) (sigs st) (tty st) (tty_cleanup st) x (log st).

Definition set_log (x : list event) (st : State) : State :=
  mkState (checkpoint st) (checkpoint_option st) (checkpoint_action st)
    (checkpoint_state st) (sigs st) (tty st) (tty_cleanup st) (sigmask st) x.

(** The statics as the loader leaves them; [checkpoint_option] and the
    signal mask come from the command line and from the parent process. *)
Definition initial_state (option : Z) (mask : sigset) : State :=
  mkState 0 option [] CHKP_INIT [] false false mask [].

(** ** The monad of the embedding *)

(** Why a computation stopped: [paxfatal] ended the process, a read went
    past the terminating NUL of a string (undefined behaviour), or the
    recursion budget of the model ran out. *)
Inductive stop : Type :=
| Fatal (fmt arg : string)
| Overrun
| NoFuel.

Inductive outcome (A : Type) : Type :=
| Ok (a : A) (st : State)
| Stop (why : stop) (st : State).

Arguments Ok {A} a st.
Arguments Stop {A} why st.

Definition M (A : Type) : Type := State -> outcome A.

Definition ret {A} (a : A) : M A := fun st => Ok a st.

Definition bind {A B} (m : M A) (k : A -> M B) : M B :=
  fun st =>
    match m st with
    | Ok a st' => k a st'
    | Stop why st' => Stop why st'
    end.

Declare Scope chk_scope.
Delimit Scope chk_scope with chk.
Notation "x <- m ;; k" := (bind m (fun x => k))
  (at level 100, m at next level, right associativity) : chk_scope.
Notation "m ;; k" := (bind m (fun _ => k))
  (at level 100, right associativity) : chk_scope.
Local Open Scope chk_scope.

Definition final {A} (o : outcome A) : State :=
  match o with Ok _ st => st | Stop _ st => st end.

Definition get {A} (f : State -> A) : M A := fun st => Ok (f st) st.

Definition modify (f : State -> State) : M unit := fun st => Ok tt (f st).

Definition emit (e : event) : M unit :=
  modify (fun st => set_log (log st ++ [e]) st).

Definition stop_with {A} (why : stop) : M A := fun st => Stop why st.

Definition fputc (c : ascii) (fp : stream) : M unit := emit (EvPutc fp c).
Definition fputs (s : string) (fp : stream) : M unit := emit (EvPuts fp s).
Definition fflush (fp : stream) : M unit := emit (EvFlush fp).

(** [paxerror]: reports and returns. *)
Definition paxerror (fmt : string) (args : list string) : M unit :=
  emit (EvPaxerror fmt args).

(** [paxfatal]: reports and exits. *)
Definition paxfatal {A} (fmt arg : string) : M A :=
  emit (EvPaxfatal fmt arg) ;; stop_with (Fatal fmt arg).

Definition deref_m (s : string) (i : nat) : M ascii :=
  match deref s i with
  | Some c => ret c
  | None => stop_with Overrun
  end.

(** ** The action compiler *)

Definition DQUOTE : ascii := "034"%char.
Definition SQUOTE : ascii := "039"%char.

(** [alloc_action]: a cleared record is linked at the tail of the list. *)
Definition alloc_action (op : checkpoint_opcode) : M unit :=
  modify (fun st =>
    set_checkpoint_action (checkpoint_action st ++ [mkAction op v_zero]) st).

Fixpoint set_last_v (x : payload) (l : list checkpoint_action_t)
  : list checkpoint_action_t :=
  match l with
  | [] => []
  | [a] => [mkAction (opcode a) x]
  | a :: l' => a :: set_last_v x l'
  end.

(** [act->v = x] for the record [act] that [alloc_action] just returned. *)
Definition set_act_v (x : payload) : M unit :=
  modify (fun st =>
    set_checkpoint_action (set_last_v x (checkpoint_action st)) st).

(** The first half of [copy_string_unquote]: the [memmove] that drops a
    wrapping pair of quotes. *)
Definition strip_quote_pair (output : string) : string :=
  let len := String.length output in
  match String.get 0 output with
  | Some c0 =>
      if (Ascii.eqb c0 DQUOTE || Ascii.eqb c0 SQUOTE)
         && Nat.ltb 1 len
         && match String.get (len - 1) output with
            | Some c1 => Ascii.eqb c1 c0
            | None => false
            end
      then substring 1 (len - 2) output
      else output
  | None => output
  end.

Definition copy_string_unquote (env : Env) (str : string) : string :=
  unquote_string env (strip_quote_pair str).

(** The first statement of [checkpoint_compile_action]: the first call
    clears the signal set and enters the compiling state. *)
Definition enter_compile : M unit :=
  s <- get checkpoint_state ;;
  match s with
  | CHKP_INIT =>
      modify (fun st => set_checkpoint_state CHKP_COMPILE (set_sigs [] st))
  | _ => ret tt
  end.

(** The chain of comparisons that follows it. *)
Definition compile_spec (env : Env) (str : string) : M unit :=
  if String.eqb str "." || String.eqb str "dot" then alloc_action cop_dot
  else if String.eqb str "bell" then alloc_action cop_bell
  else if String.eqb str "echo" then alloc_action cop_echo
  else if strncmp0 str "echo=" then
    alloc_action cop_echo ;;
    set_act_v (v_command (copy_string_unquote env (str_plus str 5)))
  else if strncmp0 str "exec=" then
    alloc_action cop_exec ;;
    set_act_v (v_command (copy_string_unquote env (str_plus str 5)))
  else if strncmp0 str "ttyout=" then
    alloc_action cop_ttyout ;;
    set_act_v (v_command (copy_string_unquote env (str_plus str 7)))
  else if strncmp0 str "sleep=" then
    let arg := str_plus str 6 in
    alloc_action cop_sleep ;;
    let '(t, p) := stoint env arg 0 TIME_T_MAX in
    set_act_v (v_time t) ;;
    c <- deref_m arg p ;;
    if Nat.eqb p 0 || negb (Ascii.eqb c NUL)
    then paxfatal (gettext env "%s: not a valid timeout") str
    else ret tt
  else if String.eqb str "totals" then alloc_action cop_totals
  else if strncmp0 str "wait=" then
    alloc_action cop_wait ;;
    let signo := decode_signal env (str_plus str 5) in
    set_act_v (v_signal signo) ;;
    modify (fun st => set_sigs (sigaddset (sigs st) signo) st)
  else paxfatal (gettext env "%s: unknown checkpoint action") str.

Definition checkpoint_compile_action (env : Env) (str : string) : M unit :=
  enter_compile ;; compile_spec env str.

(** [sigprocmask (SIG_BLOCK, &sigs, NULL)]. *)
Definition sigprocmask_block : M unit :=
  set <- get sigs ;;
  emit (EvSigprocmaskBlock set) ;;
  modify (fun st => set_sigmask (sigunion (sigmask st) set) st).

Definition checkpoint_finish_compile (env : Env) : M unit :=
  st0 <- get (fun st => st) ;;
  (if match checkpoint_state st0 with CHKP_INIT => true | _ => false end
      && negb (checkpoint_option st0 =? 0)
      && match checkpoint_action st0 with [] => true | _ => false end
   then checkpoint_compile_action env "echo"
   else ret tt) ;;
  s <- get checkpoint_state ;;
  match s with
  | CHKP_COMPILE =>
      sigprocmask_block ;;
      o <- get checkpoint_option ;;
      (if o =? 0
       then modify (set_checkpoint_option (DEFAULT_CHECKPOINT env))
       else ret tt) ;;
      modify (set_checkpoint_state CHKP_RUN)
  | _ => ret tt
  end.

(** ** The template interpreter *)

Definition checkpoint_total_format : list (option string) :=
  [Some "R"; Some "W"; Some "D"].

(** The part of [getwidth] after the window-size probe: [COLUMNS]. *)
Definition getwidth_columns (env : Env) : M Z :=
  match getenv_COLUMNS env with
  | Some columns =>
      let '(col, e) := stoint env columns 0 INTMAX_MAX in
      c <- deref_m columns e ;;
      if negb (negb (Ascii.eqb c NUL) || (col =? 0))
      then ret col
      else ret 80
  | None => ret 80
  end.

Definition getwidth (env : Env) (fp : stream) : M Z :=
  match ioctl_ws_col env fp with
  | Some ws_col => if 0 <? ws_col then ret ws_col else getwidth_columns env
  | None => getwidth_columns env
  end.

Definition def_format : string :=
  "%{%Y-%m-%d %H:%M:%S}t: %ds, %{read,wrote}T%*" ++ String CR "".

(** [for (; 0 < n; n--) fputc (' ', fp)]. *)
Fixpoint put_spaces (n : nat) (fp : stream) : M unit :=
  match n with
  | O => ret tt
  | S k => fputc " " fp ;; put_spaces k fp
  end.

(** The labels handed to [format_total_stats] when the words of the
    argument were accepted: the words, then null pointers. *)
Definition fmtbuf (words : list string) : list (option string) :=
  map Some words ++ repeat None (3 - List.length words).

Section Interpreter.

Variable env : Env.

(** The function itself, for the recursive call of [%c]. *)
Variable self : stream -> Z -> option string -> bool -> Z -> M Z.

Variable fp : stream.
Variable input : string.
Variable do_write : bool.
Variable cpn : Z.
Variable opstr : string.

(** [getarg (input + ip, &ip, ...)]: the text between the brace at [ip]
    and the next closing brace, and the offset just after that brace.
    The static buffer that holds the copy is not modelled. *)
Definition getarg (ip : nat) : option (string * nat) :=
  match deref input ip with
  | Some c =>
      if Ascii.eqb c "{" then
        match strchr input (S ip) "}" with
        | Some p => Some (substring (S ip) (p - ip - 1) input, S p)
        | None => None
        end
      else None
  | None => None
  end.

(** The labels of [%T]. *)
Definition total_labels (arg : option string) : M (list (option string)) :=
  match arg with
  | None => ret checkpoint_total_format
  | Some a =>
      match wordsplit env a with
      | inl err =>
          paxerror (gettext env "cannot split string '%s': %s") [a; err] ;;
          ret checkpoint_total_format
      | inr words =>
          if Nat.ltb 3 (List.length words) then
            paxerror (gettext env "too many words in '%s'") [a] ;;
            ret checkpoint_total_format
          else ret (fmtbuf words)
      end
  end.

(** The width of [%*]. *)
Definition pad_width (arg : option string) : M Z :=
  match arg with
  | None => getwidth env fp
  | Some a =>
      let '(w, e) := stoint env a 0 INTMAX_MAX in
      c <- deref_m a e ;;
      if Nat.eqb e 0 || negb (Ascii.eqb c NUL) then ret 80 else ret w
  end.

(** The [switch] on the directive letter [d]; the result is the new
    [len]. *)
Definition directive (d : ascii) (arg : option string) (len : Z) : M Z :=
  if Ascii.eqb d "c" then
    r <- self fp len (Some def_format) do_write cpn ;;
    ret (to_size_t (len + r))
  else if Ascii.eqb d "u" then
    fputs (decimal cpn) fp ;;
    ret (to_size_t (len + strlen (decimal cpn)))
  else if Ascii.eqb d "s" then
    fputs opstr fp ;;
    ret (to_size_t (len + strlen opstr))
  else if Ascii.eqb d "d" then
    emit EvComputeDuration ;;
    fputs (duration_text env) fp ;;
    ret (to_size_t (len + strlen (duration_text env)))
  else if Ascii.eqb d "T" then
    emit EvComputeDuration ;;
    fmt <- total_labels arg ;;
    fputs (format_total_stats env fmt) fp ;;
    ret (to_size_t (len + strlen (format_total_stats env fmt)))
  else if Ascii.eqb d "t" then
    let '(sec, nsec) := current_timespec env in
    let fmt := match arg with Some a => a | None => "%c" end in
    let text := match localtime env sec with
                | Some t => fprintftime env fmt t nsec
                | None => "????-??-?? ??:??:??"
                end in
    fputs text fp ;;
    ret (to_size_t (len + strlen text))
  else if Ascii.eqb d "*" then
    w <- pad_width arg ;;
    put_spaces (Z.to_nat (to_size_t w - len)) fp ;;
    ret (if to_size_t w >? len then to_size_t w else len)
  else
    fputc "%" fp ;;
    fputc d fp ;;
    ret (to_size_t (len + 2)).

(** The loop [for (ip = input; *ip; ip++)], started at offset [ip] with
    the column count [len].  Every round moves [ip] forward, so [n]
    rounds are enough for a string of [n] characters. *)
Fixpoint format_loop (n : nat) (ip : nat) (len : Z) : M Z :=
  c <- deref_m input ip ;;
  if Ascii.eqb c NUL then ret len
  else
    match n with
    | O => stop_with NoFuel
    | S n' =>
        if Ascii.eqb c "%" then
          c1 <- deref_m input (S ip) ;;
          if Ascii.eqb c1 "{" then
            match getarg (S ip) with
            | None =>
                fputc "%" fp ;;
                fputc c1 fp ;;
                format_loop n' (S (S ip)) (to_size_t (len + 2))
            | Some (arg, ip') =>
                d <- deref_m input ip' ;;
                len' <- directive d (Some arg) len ;;
                format_loop n' (S ip') len'
            end
          else
            len' <- directive c1 None len ;;
            format_loop n' (S (S ip)) len'
        else
          fputc c fp ;;
          if Ascii.eqb c CR then
            modify (set_tty_cleanup true) ;;
            format_loop n' (S ip) 0
          else format_loop n' (S ip) (to_size_t (len + 1))
    end.

End Interpreter.

(** [depth] bounds the nesting of the recursive calls. *)
Fixpoint format_checkpoint_string (depth : nat) (env : Env) (fp : stream)
    (len : Z) (input : option string) (do_write : bool) (cpn : Z) : M Z :=
  match depth with
  | O => stop_with NoFuel
  | S depth' =>
      let opstr := if do_write then gettext env "write"
                   else gettext env "read" in
      let input := match input with
                   | Some s => s
                   | None => if do_write
                             then gettext env "Write checkpoint %u"
                             else gettext env "Read checkpoint %u"
                   end in
      len' <- format_loop env (format_checkpoint_string depth' env) fp input
                do_write cpn opstr (String.length input) 0 len ;;
      fflush fp ;;
      ret (to_int len')
  end.

(** ** The executor *)

(** [if (!tty) tty = fopen ("/dev/tty", "w")]. *)
Definition open_tty (env : Env) : M unit :=
  t <- get tty ;;
  if t then ret tt
  else emit (EvFopenTty (fopen_tty env)) ;; modify (set_tty (fopen_tty env)).

Definition run_action (depth : nat) (env : Env) (do_write : bool)
    (p : checkpoint_action_t) : M unit :=
  match opcode p with
  | cop_dot => fputc "." stdlis ;; fflush stdlis
  | cop_bell =>
      open_tty env ;;
      t <- get tty ;;
      if t then fputc BEL tty_dev ;; fflush tty_dev else ret tt
  | cop_echo =>
      let prefix := (program_name env ++ ": ")%string in
      fputs prefix stderr ;;
      cpn <- get checkpoint ;;
      format_checkpoint_string depth env stderr (to_size_t (strlen prefix))
        (v_command_of (v p)) do_write cpn ;;
      fputc LF stderr
  | cop_ttyout =>
      open_tty env ;;
      t <- get tty ;;
      if t then
        cpn <- get checkpoint ;;
        format_checkpoint_string depth env tty_dev 0 (v_command_of (v p))
          do_write cpn ;;
        ret tt
      else ret tt
  | cop_sleep => emit (EvSleep (to_unsigned_int (v_time_of (v p))))
  | cop_exec =>
      cpn <- get checkpoint ;;
      emit (EvExec (v_command_of (v p)) (archive_name env) cpn)
  | cop_totals => emit EvComputeDuration ;; emit EvPrintTotalStats
  | cop_wait => set <- get sigs ;; emit (EvSigwait set)
  end.

(** [for (p = checkpoint_action; p; p = p->next)]. *)
Fixpoint walk_actions (depth : nat) (env : Env) (do_write : bool)
    (p : list checkpoint_action_t) : M unit :=
  match p with
  | [] => ret tt
  | a :: next => run_action depth env do_write a ;;
                 walk_actions depth env do_write next
  end.

Definition run_checkpoint_actions (depth : nat) (env : Env)
    (do_write : bool) : M unit :=
  p <- get checkpoint_action ;;
  walk_actions depth env do_write p.

(** [++checkpoint % checkpoint_option] on [intmax_t]: the remainder of C
    truncates towards zero.  The increment is not wrapped: the counter
    starts at zero and an overflow would take [2 ^ 63] calls. *)
Definition checkpoint_run (depth : nat) (env : Env) (do_write : bool)
  : M unit :=
  o <- get checkpoint_option ;;
  if o =? 0 then ret tt
  else
    modify (fun st => set_checkpoint (checkpoint st + 1) st) ;;
    c <- get checkpoint ;;
    if Z.rem c o =? 0 then run_checkpoint_actions depth env do_write
    else ret tt.

(** ** Shutdown *)

Definition flush_action (env : Env) (p : checkpoint_action_t) : M unit :=
  match opcode p with
  | cop_ttyout =>
      t <- get tty ;;
      d <- get tty_cleanup ;;
      if t && d then
        w <- getwidth env tty_dev ;;
        put_spaces (Z.to_nat w) tty_dev ;;
        fputc CR tty_dev ;;
        fflush tty_dev
      else ret tt
  | _ => ret tt
  end.

Fixpoint flush_walk (env : Env) (p : list checkpoint_action_t) : M unit :=
  match p with
  | [] => ret tt
  | a :: next => flush_action env a ;; flush_walk env next
  end.

Definition checkpoint_flush_actions (env : Env) : M unit :=
  p <- get checkpoint_action ;;
  flush_walk env p.

Definition checkpoint_finish (env : Env) : M unit :=
  o <- get checkpoint_option ;;
  if o =? 0 then ret tt
  else
    checkpoint_flush_actions env ;;
    t <- get tty ;;
    if t then emit (EvFclose tty_dev) else ret tt.

(** ** The call sequence of the host *)

(** [checkpoint_compile_action] once for every action of the command
    line, in order. *)
Fixpoint compile_all (env : Env) (specs : list string) : M unit :=
  match specs with
  | [] => ret tt
  | str :: rest => checkpoint_compile_action env str ;; compile_all env rest
  end.

(** [checkpoint_run] once for every block, [ticks] giving [do_write]. *)
Fixpoint run_ticks (depth : nat) (env : Env) (ticks : list bool) : M unit :=
  match ticks with
  | [] => ret tt
  | do_write :: rest =>
      checkpoint_run depth env do_write ;; run_ticks depth env rest
  end.

Definition session (depth : nat) (env : Env) (specs : list string)
    (ticks : list bool) : M unit :=
  compile_all env specs ;;
  checkpoint_finish_compile env ;;
  run_ticks depth env ticks.

(** ** A reference environment *)

Definition is_digit (c : ascii) : bool :=
  let n := nat_of_ascii c in Nat.leb 48 n && Nat.leb n 57.

Definition digit_value (c : ascii) : Z := Z.of_nat (nat_of_ascii c) - 48.

Fixpoint digits_prefix (s : string) (acc : Z) : Z * nat :=
  match s with
  | EmptyString => (acc, O)
  | String c s' =>
      if is_digit c then
        let '(x, n) := digits_prefix s' (acc * 10 + digit_value c) in
        (x, S n)
      else (acc, O)
  end.

(** Modelled from the spec: [stoint] is defined in misc.c, which is not
    among the sources at hand.  "N parsed as a non-negative integer": the
    longest prefix of decimal digits is converted, [*arglim] is left just
    after it, and, as no [overflow] flag is asked for by the callers of
    this file, a value above [maxval] is returned as [maxval].  Only
    [minval = 0] is used. *)
Definition stoint_digits (arg : string) (minval maxval : Z) : Z * nat :=
  let '(x, n) := digits_prefix arg 0 in (Z.min x maxval, n).

Fixpoint split_on (sep : ascii) (s : string) (cur : string) : list string :=
  match s with
  | EmptyString => [cur]
  | String c s' =>
      if Ascii.eqb c sep then cur :: split_on sep s' ""
      else split_on sep s' (cur ++ String c "")%string
  end.

(** Modelled from the spec: [wordsplit] is a library of its own; for
    [%T] the argument "is split on commas".  Quoting inside the words is
    left out. *)
Definition wordsplit_commas (arg : string) : string + list string :=
  match arg with
  | EmptyString => inr []
  | _ => inr (split_on "," arg "")
  end.

Definition label_text (l : option string) : string :=
  match l with
  | Some s => (s ++ ": 0")%string
  | None => "0"
  end.

Definition ref_env : Env := {|
  program_name := "tar";
  archive_name := "archive.tar";
  DEFAULT_CHECKPOINT := 10;
  gettext := fun s => s;
  unquote_string := fun s => s;
  stoint := stoint_digits;
  decode_signal := fun s => if String.eqb s "SIGUSR1" then 10 else 12;
  wordsplit := wordsplit_commas;
  format_total_stats := fun l => String.concat "," (map label_text l);
  ioctl_ws_col := fun _ => Some 132;
  getenv_COLUMNS := None;
  fopen_tty := true;
  current_timespec := (0, 0);
  localtime := fun _ => Some (mkTm 0 0 0 1 0 70);
  fprintftime := fun _ _ _ => "1970-01-01 00:00:00";
  duration_text := "0"
|}.

(** ** Predicates of the statements *)

(** The contract of [stoint] that the callers rely on: with [minval = 0]
    the value lies between zero and [maxval], and the converted prefix lies
    inside the string. *)
Definition stoint_sane (env : Env) : Prop :=
  forall arg maxval,
    0 <= maxval ->
    0 <= fst (stoint env arg 0 maxval) <= maxval /\
    (snd (stoint env arg 0 maxval) <= String.length arg)%nat.

(** [ws_col] is an [unsigned short]. *)
Definition winsize_sane (env : Env) : Prop :=
  forall fp col, ioctl_ws_col env fp = Some col -> col < 2 ^ 16.

Definition sane (env : Env) : Prop := stoint_sane env /\ winsize_sane env.

(** What the executor may add to the trace when the signal set is [set]:
    no [sigprocmask], no fatal error, and waits for [set] only. *)
Definition run_event (set : sigset) (e : event) : Prop :=
  match e with
  | EvSigprocmaskBlock _ => False
  | EvPaxfatal _ _ => False
  | EvSigwait s => s = set
  | _ => True
  end.

(** [st'] comes from [st] by effects of the executor: the compiled
    program, the counter, the lifecycle and the signal sets are as before,
    the terminal stays open and dirty once it is, and the trace grew by
    events of the executor. *)
Definition steps (st st' : State) : Prop :=
  checkpoint st' = checkpoint st /\
  checkpoint_option st' = checkpoint_option st /\
  checkpoint_action st' = checkpoint_action st /\
  checkpoint_state st' = checkpoint_state st /\
  sigs st' = sigs st /\
  sigmask st' = sigmask st /\
  (tty st = true -> tty st' = true) /\
  (tty_cleanup st = true -> tty_cleanup st' = true) /\
  exists evs, log st' = log st ++ evs /\ Forall (run_event (sigs st)) evs.

Definition sound {A} (m : M A) : Prop :=
  forall st, steps st (final (m st)).

(** The state after the increment of [checkpoint_run]. *)
Definition bump (st : State) : State := set_checkpoint (checkpoint st + 1) st.

(** The state after [enter_compile]. *)
Definition entered (st : State) : State :=
  match checkpoint_state st with
  | CHKP_INIT => set_checkpoint_state CHKP_COMPILE (set_sigs [] st)
  | _ => st
  end.

(** The state after an action [a] was linked and, for a wait, its signal
    was added to the set. *)
Definition push_action (a : checkpoint_action_t) (st : State) : State :=
  let st' := set_checkpoint_action (checkpoint_action st ++ [a]) st in
  match opcode a, v a with
  | cop_wait, v_signal n => set_sigs (sigaddset (sigs st') n) st'
  | _, _ => st'
  end.

(** The record that a specification compiles to, read off the compiler
    itself; [None] when the specification is refused. *)
Definition compiled (env : Env) (str : string) : option checkpoint_action_t :=
  match checkpoint_compile_action env str (initial_state 0 []) with
  | Ok _ st => Some (last (checkpoint_action st) (mkAction cop_dot v_zero))
  | Stop _ _ => None
  end.

Definition is_quote (c : ascii) : bool :=
  Ascii.eqb c DQUOTE || Ascii.eqb c SQUOTE.

(** [s] is some text between two equal quote characters. *)
Definition wrapped (s : string) : Prop :=
  exists q body, is_quote q = true /\ s = String q (body ++ String q "")%string.

(** The forms of the table of accepted specifications. *)
Definition recognized (str : string) : bool :=
  String.eqb str "." || String.eqb str "dot" || String.eqb str "bell"
  || String.eqb str "echo" || strncmp0 str "echo=" || strncmp0 str "exec="
  || strncmp0 str "ttyout=" || strncmp0 str "sleep="
  || String.eqb str "totals" || strncmp0 str "wait=".

(** What [checkpoint_compile_action] tests after [stoint]: nothing was
    converted, or the conversion stopped at a character that is not the
    terminator. *)
Definition payload_refused (env : Env) (arg : string) : bool :=
  let p := snd (stoint env arg 0 TIME_T_MAX) in
  match deref arg p with
  | Some c => Nat.eqb p 0 || negb (Ascii.eqb c NUL)
  | None => false
  end.

Definition is_fatal {A} (o : outcome A) (arg : string) : Prop :=
  exists fmt st', o = Stop (Fatal fmt arg) st'.

Fixpoint all_digits (s : string) : bool :=
  match s with
  | EmptyString => true
  | String c s' => is_digit c && all_digits s'
  end.

(** The payload is the decimal writing of a duration that fits [time_t]. *)
Definition denotes_duration (arg : string) : bool :=
  negb (String.eqb arg "") && all_digits arg
  && (fst (digits_prefix arg 0) <=? TIME_T_MAX).

(** The sentence of the specification about fatal errors, read literally:
    fatal exactly for an unknown specification and for a sleep whose
    payload is invalid or out of range. *)
Definition fatal_as_specified (env : Env) : Prop :=
  forall str st,
    is_fatal (checkpoint_compile_action env str st) str <->
    (recognized str = false \/
     (strncmp0 str "sleep=" = true /\
      denotes_duration (str_plus str 6) = false)).

(** The state after [sigprocmask (SIG_BLOCK, &sigs, NULL)]. *)
Definition blocked (st : State) : State :=
  let st' := set_log (log st ++ [EvSigprocmaskBlock (sigs st)]) st in
  set_sigmask (sigunion (sigmask st') (sigs st')) st'.

(** The state after the transition from compiling to running. *)
Definition to_running (env : Env) (st : State) : State :=
  let st1 := blocked st in
  let st2 := if checkpoint_option st1 =? 0
             then set_checkpoint_option (DEFAULT_CHECKPOINT env) st1
             else st1 in
  set_checkpoint_state CHKP_RUN st2.

Definition plain_echo : checkpoint_action_t := mkAction cop_echo v_zero.

(** [steps] without the clause on the counter: what a sequence of ticks
    does to the state. *)
Definition ticked (st st' : State) : Prop :=
  checkpoint_option st' = checkpoint_option st /\
  checkpoint_action st' = checkpoint_action st /\
  checkpoint_state st' = checkpoint_state st /\
  sigs st' = sigs st /\
  sigmask st' = sigmask st /\
  exists evs, log st' = log st ++ evs /\ Forall (run_event (sigs st)) evs.

(** How often the trace blocks signals. *)
Fixpoint count_blocks (lg : list event) : nat :=
  match lg with
  | [] => O
  | EvSigprocmaskBlock _ :: rest => S (count_blocks rest)
  | _ :: rest => count_blocks rest
  end.

(** Every [sigwait] of the trace comes after a [sigprocmask] that blocked
    the very set it waits for. *)
Definition waits_follow_block (lg : list event) : Prop :=
  forall before set after,
    lg = before ++ EvSigwait set :: after ->
    In (EvSigprocmaskBlock set) before.

(** The sentence of the specification on the signal set, read literally:
    whenever the compiler accepted the specifications, the trace of the
    session blocks exactly once, and before every wait. *)
Definition blocked_once_as_specified : Prop :=
  forall depth env option mask specs ticks st,
    compile_all env specs (initial_state option mask) = Ok tt st ->
    let lg := log (final (session depth env specs ticks
                            (initial_state option mask))) in
    count_blocks lg = 1%nat /\ waits_follow_block lg.

(** *** The template as the loop reads it

    One round of the loop of [format_checkpoint_string] consumes one
    [item]: a literal character, the two characters of a percent sign and
    an opening brace that is never closed, or a directive with its
    argument.  [scan] lists the items in order and tells how the loop
    ends. *)
Inductive item : Type :=
| Literal (c : ascii)
| OpenBrace
| Directive (d : ascii) (arg : option string).

Inductive ending : Type :=
| AtTerminator      (* the loop test read the terminating NUL *)
| PastTerminator    (* a read went beyond the terminating NUL *)
| OutOfRounds.      (* the round budget of the model ran out *)

Fixpoint scan (input : string) (n : nat) (ip : nat) : list item * ending :=
  match deref input ip with
  | None => ([], PastTerminator)
  | Some c =>
      if Ascii.eqb c NUL then ([], AtTerminator)
      else
        match n with
        | O => ([], OutOfRounds)
        | S n' =>
            if Ascii.eqb c "%" then
              match deref input (S ip) with
              | None => ([], PastTerminator)
              | Some c1 =>
                  if Ascii.eqb c1 "{" then
                    match getarg input (S ip) with
                    | None =>
                        let '(its, e) := scan input n' (S (S ip)) in
                        (OpenBrace :: its, e)
                    | Some (arg, ip') =>
                        match deref input ip' with
                        | None => ([], PastTerminator)
                        | Some d =>
                            let '(its, e) := scan input n' (S ip') in
                            (Directive d (Some arg) :: its, e)
                        end
                    end
                  else
                    let '(its, e) := scan input n' (S (S ip)) in
                    (Directive c1 None :: its, e)
              end
            else
              let '(its, e) := scan input n' (S ip) in
              (Literal c :: its, e)
        end
  end.

(** The items of a whole template. *)
Definition items (input : string) : list item :=
  fst (scan input (String.length input) 0).

Definition template_end (input : string) : ending :=
  snd (scan input (String.length input) 0).

Section Items.

Variable env : Env.
Variable self : stream -> Z -> option string -> bool -> Z -> M Z.
Variable fp : stream.
Variable do_write : bool.
Variable cpn : Z.
Variable opstr : string.

(** What one round does with its item; the result is the new [len]. *)
Definition run_item (it : item) (len : Z) : M Z :=
  match it with
  | Literal c =>
      fputc c fp ;;
      if Ascii.eqb c CR
      then modify (set_tty_cleanup true) ;; ret 0
      else ret (to_size_t (len + 1))
  | OpenBrace =>
      fputc "%" fp ;; fputc "{" fp ;; ret (to_size_t (len + 2))
  | Directive d arg => directive env self fp do_write cpn opstr d arg len
  end.

Fixpoint run_items (its : list item) (len : Z) : M Z :=
  match its with
  | [] => ret len
  | it :: rest => len' <- run_item it len ;; run_items rest len'
  end.

Definition run_ending (e : ending) (len : Z) : M Z :=
  match e with
  | AtTerminator => ret len
  | PastTerminator => stop_with Overrun
  | OutOfRounds => stop_with NoFuel
  end.

End Items.

(** A computation that never exhausts the budget of the model. *)
Definition fuel_free {A} (m : M A) : Prop :=
  forall st st', m st <> Stop NoFuel st'.

Definition is_c_directive (it : item) : bool :=
  match it with
  | Directive d _ => Ascii.eqb d "c"
  | _ => false
  end.

(** *** Widths *)

(** The width that [getwidth] returns when [COLUMNS] decides. *)
Definition columns_width (env : Env) : Z :=
  match getenv_COLUMNS env with
  | Some columns =>
      let '(col, e) := stoint env columns 0 INTMAX_MAX in
      match deref columns e with
      | Some c => if Ascii.eqb c NUL && negb (col =? 0) then col else 80
      | None => 80
      end
  | None => 80
  end.

(** The live terminal width: the window-size probe, then [COLUMNS], then
    80. *)
Definition terminal_width (env : Env) (fp : stream) : Z :=
  match ioctl_ws_col env fp with
  | Some ws_col => if 0 <? ws_col then ws_col else columns_width env
  | None => columns_width env
  end.

(** Whether [stoint] took the whole of a non-empty argument. *)
Definition width_argument (env : Env) (a : string) : option Z :=
  let '(w, e) := stoint env a 0 INTMAX_MAX in
  match deref a e with
  | Some c => if Nat.eqb e 0 || negb (Ascii.eqb c NUL) then None else Some w
  | None => None
  end.

(** The column that [%*] pads to, as the code has it: the terminal width
    without an argument, the argument when it is a number, and 80 when it
    is not. *)
Definition pad_target (env : Env) (fp : stream) (arg : option string) : Z :=
  match arg with
  | None => terminal_width env fp
  | Some a => match width_argument env a with
              | Some w => w
              | None => 80
              end
  end.

(** The same column as the specification words it: the terminal width
    also when the argument is not a number. *)
Definition pad_target_as_specified (env : Env) (fp : stream)
    (arg : option string) : Z :=
  match arg with
  | None => terminal_width env fp
  | Some a => match width_argument env a with
              | Some w => w
              | None => terminal_width env fp
              end
  end.

(** The sentence of the specification on [%*], read literally. *)
Definition padding_as_specified : Prop :=
  forall env self fp do_write cpn opstr arg len st,
    sane env -> 0 <= len < 2 ^ 64 ->
    let w := pad_target_as_specified env fp arg in
    run_item env self fp do_write cpn opstr (Directive "*" arg) len st =
      Ok (Z.max len w)
         (set_log (log st ++ repeat (EvPutc fp " ") (Z.to_nat (w - len))) st).

(** *** Labels of the totals *)

(** The labels as the specification words them: the words given, then
    the default labels for the slots left. *)
Definition labels_as_specified (words : list string) : list (option string) :=
  map Some words ++ skipn (List.length words) checkpoint_total_format.

Definition partial_labels_as_specified : Prop :=
  forall env a words st,
    wordsplit env a = inr words ->
    (List.length words <= 3)%nat ->
    total_labels env (Some a) st = Ok (labels_as_specified words) st.

(** *** Shutdown *)

(** What blanks the status line: [w] spaces, a carriage return, a flush. *)
Definition clear_line (w : Z) : list event :=
  repeat (EvPutc tty_dev " ") (Z.to_nat w)
  ++ [EvPutc tty_dev CR; EvFlush tty_dev].

(** The trace of [checkpoint_flush_actions]. *)
Definition flush_trace (env : Env) (st : State) : list event :=
  flat_map
    (fun p => match opcode p with
              | cop_ttyout =>
                  if tty st && tty_cleanup st
                  then clear_line (terminal_width env tty_dev)
                  else []
              | _ => []
              end)
    (checkpoint_action st).

(** *** Shapes of templates *)

(** [s] has no character [c]. *)
Fixpoint lacks (c : ascii) (s : string) : bool :=
  match s with
  | EmptyString => true
  | String a s' => negb (Ascii.eqb a c) && lacks c s'
  end.

(** The events of writing the characters of [s] one by one. *)
Definition putc_events (fp : stream) (s : string) : list event :=
  map (EvPutc fp) (list_ascii_of_string s).

(** The letters that the [switch] of the interpreter knows. *)
Definition known_letter (d : ascii) : bool :=
  Ascii.eqb d "c" || Ascii.eqb d "u" || Ascii.eqb d "s" || Ascii.eqb d "d"
  || Ascii.eqb d "T" || Ascii.eqb d "t" || Ascii.eqb d "*".

(** Text that the interpreter passes through character by character: no
    percent sign, no carriage return, no NUL. *)
Definition passes_through (s : string) : bool :=
  lacks "%" s && lacks NUL s && lacks CR s.

(** *** Invariants of the compiled program *)

(** The member of the union that is set is the one its opcode reads. *)
Definition well_shaped (a : checkpoint_action_t) : Prop :=
  match opcode a, v a with
  | cop_dot, v_zero => True
  | cop_bell, v_zero => True
  | cop_totals, v_zero => True
  | cop_echo, v_zero => True
  | cop_echo, v_command _ => True
  | cop_ttyout, v_command _ => True
  | cop_exec, v_command _ => True
  | cop_sleep, v_time _ => True
  | cop_wait, v_signal _ => True
  | _, _ => False
  end.

(** The signals of the wait actions of a program, in order. *)
Definition wait_signals (prog : list checkpoint_action_t) : list Z :=
  flat_map (fun a => match opcode a, v a with
                     | cop_wait, v_signal n => [n]
                     | _, _ => []
                     end) prog.

(** *** The executor *)

(** The template that [format_checkpoint_string] renders for [input]. *)
Definition template_of (env : Env) (input : option string) (do_write : bool)
  : string :=
  match input with
  | Some s => s
  | None => if do_write then gettext env "Write checkpoint %u"
            else gettext env "Read checkpoint %u"
  end.

(** The template of an action that renders one does not dangle. *)
Definition template_ok (env : Env) (do_write : bool)
    (p : checkpoint_action_t) : Prop :=
  match opcode p with
  | cop_echo | cop_ttyout =>
      template_end (template_of env (v_command_of (v p)) do_write)
      = AtTerminator
  | _ => True
  end.

(** What a rendering on [fp] may add to the trace: output on [fp], the
    recomputation of the duration, and reports of [paxerror]. *)
Definition on_stream (fp : stream) (e : event) : Prop :=
  match e with
  | EvPutc f _ => f = fp
  | EvPuts f _ => f = fp
  | EvFlush f => f = fp
  | EvComputeDuration => True
  | EvPaxerror _ _ => True
  | _ => False
  end.

(** [st'] comes from [st] by a rendering on [fp]: nothing changed but the
    dirty flag, which is never cleared, and the trace. *)
Definition renders (fp : stream) (st st' : State) : Prop :=
  checkpoint st' = checkpoint st /\
  checkpoint_option st' = checkpoint_option st /\
  checkpoint_action st' = checkpoint_action st /\
  checkpoint_state st' = checkpoint_state st /\
  sigs st' = sigs st /\
  sigmask st' = sigmask st /\
  tty st' = tty st /\
  (tty_cleanup st = true -> tty_cleanup st' = true) /\
  exists evs, log st' = log st ++ evs /\ Forall (on_stream fp) evs.

Definition confined {A} (fp : stream) (m : M A) : Prop :=
  forall st, renders fp st (final (m st)).

(** An event that does not touch the terminal. *)
Definition off_tty (e : event) : Prop :=
  match e with
  | EvPutc f _ => f <> tty_dev
  | EvPuts f _ => f <> tty_dev
  | EvFlush f => f <> tty_dev
  | EvFclose f => f <> tty_dev
  | EvFopenTty ok => ok = false
  | _ => True
  end.

(** [m] returns normally from every state. *)
Definition returns {A} (m : M A) : Prop :=
  forall st, exists a st', m st = Ok a st'.

(** [st'] comes from [st] while the terminal cannot be opened: it stays
    closed and the trace grew by events that leave it alone. *)
Definition without_tty (st st' : State) : Prop :=
  tty st' = false /\
  exists evs, log st' = log st ++ evs /\ Forall off_tty evs.

(** The reference environment on a machine without controlling terminal. *)
Definition headless_env : Env := {|
  program_name := program_name ref_env;
  archive_name := archive_name ref_env;
  DEFAULT_CHECKPOINT := DEFAULT_CHECKPOINT ref_env;
  gettext := gettext ref_env;
  unquote_string := unquote_string ref_env;
  stoint := stoint ref_env;
  decode_signal := decode_signal ref_env;
  wordsplit := wordsplit ref_env;
  format_total_stats := format_total_stats ref_env;
  ioctl_ws_col := fun _ => None;
  getenv_COLUMNS := getenv_COLUMNS ref_env;
  fopen_tty := false;
  current_timespec := current_timespec ref_env;
  localtime := localtime ref_env;
  fprintftime := fprintftime ref_env;
  duration_text := duration_text ref_env
|}.

(** *** The status line *)

(** The items that set the dirty flag: a raw carriage return and [%c]. *)
Definition dirties (it : item) : bool :=
  match it with
  | Literal c => Ascii.eqb c CR
  | OpenBrace => false
  | Directive d _ => Ascii.eqb d "c"
  end.

Definition draws_status_line (template : string) : bool :=
  existsb dirties (items template).

(** ** Frame lemmas of the executor *)

Lemma steps_refl (st : State) : steps st st.
Proof.
  unfold steps; repeat split; auto.
  exists []; split; [now rewrite app_nil_r | constructor].
Qed.

Lemma steps_trans (st1 st2 st3 : State) :
  steps st1 st2 -> steps st2 st3 -> steps st1 st3.
Proof.
  intros (A1 & A2 & A3 & A4 & A5 & A6 & A7 & A8 & e1 & L1 & F1)
         (B1 & B2 & B3 & B4 & B5 & B6 & B7 & B8 & e2 & L2 & F2).
  unfold steps; repeat split; try congruence; auto.
  exists (e1 ++ e2); split.
  - rewrite L2, L1; now rewrite app_assoc.
  - apply Forall_app; split; auto. now rewrite A5 in F2.
Qed.

Lemma sound_ret {A} (a : A) : sound (ret a).
Proof. intro st; apply steps_refl. Qed.

Lemma sound_get {A} (f : State -> A) : sound (get f).
Proof. intro st; apply steps_refl. Qed.

Lemma sound_stop {A} (why : stop) : sound (@stop_with A why).
Proof. intro st; apply steps_refl. Qed.

Lemma sound_bind {A B} (m : M A) (k : A -> M B) :
  sound m -> (forall a, sound (k a)) -> sound (bind m k).
Proof.
  intros Hm Hk st; unfold bind.
  specialize (Hm st); destruct (m st) as [a st' | why st']; simpl in *; auto.
  eapply steps_trans; [exact Hm | apply Hk].
Qed.

Lemma sound_emit (e : event) :
  (forall set, run_event set e) -> sound (emit e).
Proof.
  intros He st; unfold steps; simpl; repeat split; auto.
  exists [e]; split; auto.
Qed.

Lemma sound_dirty : sound (modify (set_tty_cleanup true)).
Proof.
  intro st; unfold steps; simpl; repeat split; auto.
  exists []; split; [now rewrite app_nil_r | constructor].
Qed.

Lemma sound_deref (s : string) (i : nat) : sound (deref_m s i).
Proof.
  unfold deref_m; destruct (deref s i); [apply sound_ret | apply sound_stop].
Qed.

Lemma sound_fputc (c : ascii) (fp : stream) : sound (fputc c fp).
Proof. apply sound_emit; simpl; auto. Qed.

Lemma sound_fputs (s : string) (fp : stream) : sound (fputs s fp).
Proof. apply sound_emit; simpl; auto. Qed.

Lemma sound_fflush (fp : stream) : sound (fflush fp).
Proof. apply sound_emit; simpl; auto. Qed.

Lemma sound_paxerror (fmt : string) (args : list string) :
  sound (paxerror fmt args).
Proof. apply sound_emit; simpl; auto. Qed.

Create HintDb sound.

#[local] Hint Resolve sound_ret sound_get sound_stop sound_dirty sound_deref
  sound_fputc sound_fputs sound_fflush sound_paxerror : sound.

Ltac sound_step :=
  match goal with
  | |- sound (bind _ _) => apply sound_bind; [| intros]
  | |- sound (if ?b then _ else _) => destruct b
  | |- sound (let '(_, _) := ?p in _) => destruct p
  | |- sound (emit _) => solve [apply sound_emit; simpl; auto]
  | |- sound _ => solve [auto with sound]
  end.

Lemma sound_put_spaces (n : nat) (fp : stream) : sound (put_spaces n fp).
Proof. induction n; simpl; repeat sound_step; auto. Qed.

Lemma sound_getwidth_columns (env : Env) : sound (getwidth_columns env).
Proof.
  unfold getwidth_columns.
  destruct (getenv_COLUMNS env); repeat sound_step.
Qed.

Lemma sound_getwidth (env : Env) (fp : stream) : sound (getwidth env fp).
Proof.
  unfold getwidth.
  destruct (ioctl_ws_col env fp); repeat sound_step;
    apply sound_getwidth_columns.
Qed.

#[local] Hint Resolve sound_put_spaces sound_getwidth : sound.

Section SoundInterpreter.

Variable env : Env.
Variable self : stream -> Z -> option string -> bool -> Z -> M Z.
Hypothesis sound_self : forall fp len input w cpn,
  sound (self fp len input w cpn).

Lemma sound_total_labels (arg : option string) :
  sound (total_labels env arg).
Proof.
  unfold total_labels; destruct arg as [a |]; [| auto with sound].
  destruct (wordsplit env a); repeat sound_step.
Qed.

Lemma sound_pad_width (fp : stream) (arg : option string) :
  sound (pad_width env fp arg).
Proof.
  unfold pad_width; destruct arg; repeat sound_step.
Qed.

Lemma sound_directive fp do_write cpn opstr d arg len :
  sound (directive env self fp do_write cpn opstr d arg len).
Proof.
  unfold directive.
  repeat sound_step; auto using sound_total_labels, sound_pad_width.
Qed.

Lemma sound_format_loop fp input do_write cpn opstr n :
  forall ip len,
    sound (format_loop env self fp input do_write cpn opstr n ip len).
Proof.
  induction n as [| n IH]; intros ip len; simpl.
  - repeat sound_step.
  - sound_step; [auto with sound |].
    sound_step; [auto with sound |].
    sound_step.
    + sound_step; [auto with sound |].
      sound_step.
      * destruct (getarg input (S ip)) as [[arg ip'] |];
          repeat sound_step; auto using sound_directive.
      * repeat sound_step; auto using sound_directive.
    + repeat sound_step; auto.
Qed.

End SoundInterpreter.

Lemma sound_format_checkpoint_string (depth : nat) (env : Env) :
  forall fp len input do_write cpn,
    sound (format_checkpoint_string depth env fp len input do_write cpn).
Proof.
  induction depth as [| d IH]; intros; simpl.
  - auto with sound.
  - repeat sound_step. apply sound_format_loop; auto.
Qed.

Lemma sound_open_tty (env : Env) : sound (open_tty env).
Proof.
  intro st; unfold open_tty, bind, get.
  destruct (tty st) eqn:T; simpl.
  - apply steps_refl.
  - unfold steps; simpl; repeat split; auto; try congruence.
    exists [EvFopenTty (fopen_tty env)]; split; auto.
    constructor; simpl; auto.
Qed.

Lemma sound_run_action depth env do_write p :
  sound (run_action depth env do_write p).
Proof.
  unfold run_action; destruct (opcode p).
  1-7: repeat sound_step;
    auto using sound_open_tty, sound_format_checkpoint_string.
  intro st; unfold bind, get, emit, modify, steps; simpl; repeat split; auto.
  exists [EvSigwait (sigs st)]; split; auto. constructor; simpl; auto.
Qed.

Lemma sound_walk_actions depth env do_write p :
  sound (walk_actions depth env do_write p).
Proof.
  induction p; simpl; repeat sound_step; auto using sound_run_action.
Qed.

Lemma sound_run_checkpoint_actions depth env do_write :
  sound (run_checkpoint_actions depth env do_write).
Proof.
  unfold run_checkpoint_actions; repeat sound_step.
  apply sound_walk_actions.
Qed.

(** ** The tick gate *)

Lemma checkpoint_run_disabled depth env do_write st :
  checkpoint_option st = 0 -> checkpoint_run depth env do_write st = Ok tt st.
Proof.
  intro H; unfold checkpoint_run, bind, get; rewrite H; reflexivity.
Qed.

Lemma checkpoint_run_enabled depth env do_write st :
  checkpoint_option st <> 0 ->
  checkpoint_run depth env do_write st =
    if Z.rem (checkpoint st + 1) (checkpoint_option st) =? 0
    then walk_actions depth env do_write (checkpoint_action st) (bump st)
    else Ok tt (bump st).
Proof.
  intro H; unfold checkpoint_run, run_checkpoint_actions, bind, get, modify.
  apply Z.eqb_neq in H; rewrite H; simpl.
  destruct (Z.rem (checkpoint st + 1) (checkpoint_option st) =? 0);
    reflexivity.
Qed.

(** C1.  With checkpointing disabled [checkpoint_run] does nothing.  With
    an interval [N > 0] every call increments the counter, which is then
    not zero; the call walks the whole action list once when the
    incremented counter is a multiple of [N], and touches nothing but the
    counter when it is not. *)
Theorem checkpoint_run_gate (depth : nat) (env : Env) (do_write : bool)
    (st : State) :
  (checkpoint_option st = 0 ->
   checkpoint_run depth env do_write st = Ok tt st) /\
  (forall N : Z,
     0 < N -> checkpoint_option st = N ->
     0 <= checkpoint st < INTMAX_MAX ->
     let c := checkpoint st + 1 in
     checkpoint (final (checkpoint_run depth env do_write st)) = c /\
     c <> 0 /\
     (c mod N = 0 ->
      checkpoint_run depth env do_write st =
        walk_actions depth env do_write (checkpoint_action st) (bump st)) /\
     (c mod N <> 0 ->
      checkpoint_run depth env do_write st = Ok tt (bump st))).
Proof.
  split; [apply checkpoint_run_disabled |].
  intros N HN HO HC c.
  assert (E : checkpoint_run depth env do_write st =
              if c mod N =? 0
              then walk_actions depth env do_write (checkpoint_action st)
                     (bump st)
              else Ok tt (bump st)).
  { rewrite checkpoint_run_enabled by lia.
    rewrite HO, Z.rem_mod_nonneg by (subst c; lia). reflexivity. }
  repeat split.
  - rewrite E. destruct (c mod N =? 0).
    + destruct (sound_walk_actions depth env do_write (checkpoint_action st)
                  (bump st)) as (H & _).
      rewrite H; reflexivity.
    + reflexivity.
  - subst c; lia.
  - intro H; rewrite E. apply Z.eqb_eq in H; now rewrite H.
  - intro H; rewrite E. apply Z.eqb_neq in H; now rewrite H.
Qed.

Lemma checkpoint_run_gate_witness :
  let st := set_checkpoint 4
              (set_checkpoint_action [mkAction cop_dot v_zero]
                 (initial_state 5 [])) in
  0 < 5 /\ checkpoint_option st = 5 /\ 0 <= checkpoint st < INTMAX_MAX /\
  checkpoint (final (checkpoint_run 2 ref_env true st)) = 5 /\
  log (final (checkpoint_run 2 ref_env true st)) =
    [EvPutc stdlis "."; EvFlush stdlis].
Proof.
  intro st.
  assert (H1 : 0 < 5) by reflexivity.
  assert (H2 : checkpoint_option st = 5) by reflexivity.
  assert (H3 : 0 <= checkpoint st < INTMAX_MAX)
    by (split; [discriminate | reflexivity]).
  destruct (checkpoint_run_gate 2 ref_env true st) as [_ G].
  destruct (G 5 H1 H2 H3) as (C & _ & W & _).
  split; [exact H1 |]. split; [exact H2 |]. split; [exact H3 |].
  split; [exact C |].
  rewrite (W eq_refl); reflexivity.
Defined.

(** Ticks [1 .. N-1] after a start at zero leave the trace alone... *)
Lemma quiet_ticks depth env st (N : Z) (k : nat) (ticks : list bool) :
  0 < N -> checkpoint_option st = N -> checkpoint st = 0 ->
  List.length ticks = k -> Z.of_nat k < N ->
  run_ticks depth env ticks st = Ok tt (set_checkpoint (Z.of_nat k) st).
Proof.
  intros HN HO HC.
  assert (G : forall ticks st' j,
             checkpoint_option st' = N -> checkpoint st' = Z.of_nat j ->
             Z.of_nat (j + List.length ticks) < N ->
             run_ticks depth env ticks st' =
               Ok tt (set_checkpoint
                        (Z.of_nat (j + List.length ticks)) st')).
  { clear. induction ticks as [| w ticks IH]; intros st' j HO HC HK; simpl.
    - rewrite Nat.add_0_r, <- HC. now destruct st'.
    - unfold bind. rewrite checkpoint_run_enabled by (simpl in HK; lia).
      simpl in HK.
      rewrite HO, HC, Z.rem_small by lia.
      replace (Z.of_nat j + 1 =? 0) with false by (symmetry; apply Z.eqb_neq; lia).
      assert (R := IH (bump st') (S j)).
      rewrite R.
      + unfold set_checkpoint, bump; simpl. do 2 f_equal. lia.
      + exact HO.
      + unfold bump; simpl. rewrite HC; lia.
      + lia. }
  intros HL HK.
  specialize (G ticks st 0%nat HO HC). simpl in G. rewrite HL in G. auto.
Qed.

(** ... and tick [N] walks the list. *)
Lemma tick_N_walks depth env do_write st (N : Z) :
  0 < N -> checkpoint_option st = N -> checkpoint st = N - 1 ->
  checkpoint_run depth env do_write st =
    walk_actions depth env do_write (checkpoint_action st)
      (set_checkpoint N st).
Proof.
  intros HN HO HC.
  rewrite checkpoint_run_enabled by lia.
  rewrite HO, HC. replace (N - 1 + 1) with N by lia.
  rewrite Z.rem_same by lia. simpl.
  unfold bump. rewrite HC. now replace (N - 1 + 1) with N by lia.
Qed.

(** ** The compiler *)

Lemma set_last_v_snoc x l op :
  set_last_v x (l ++ [mkAction op v_zero]) = l ++ [mkAction op x].
Proof.
  induction l as [| a l IH]; simpl; auto.
  rewrite IH. destruct (l ++ [mkAction op v_zero]) eqn:E; auto.
  destruct l; discriminate.
Qed.

Lemma enter_compile_eq st : enter_compile st = Ok tt (entered st).
Proof.
  unfold enter_compile, entered, bind, get.
  destruct (checkpoint_state st); reflexivity.
Qed.

Lemma compile_action_eq env str st :
  checkpoint_compile_action env str st = compile_spec env str (entered st).
Proof.
  unfold checkpoint_compile_action, bind. now rewrite enter_compile_eq.
Qed.

Ltac spec_unfold :=
  unfold paxfatal, emit, bind, alloc_action, set_act_v, modify, stop_with, ret;
  simpl; rewrite ?set_last_v_snoc.

Ltac spec_ok a :=
  let H := fresh "H" in
  spec_unfold; intros H; inversion H; subst; clear H;
  exists a; split;
  [reflexivity | intros; simpl; rewrite ?set_last_v_snoc; reflexivity].

Ltac spec_stop :=
  let H := fresh "H" in spec_unfold; intros H; discriminate H.

(** An accepted specification links one record, the same from every
    state. *)
Lemma compile_spec_ok env str st st' :
  compile_spec env str st = Ok tt st' ->
  exists a, st' = push_action a st /\
            forall st2, compile_spec env str st2 = Ok tt (push_action a st2).
Proof.
  unfold compile_spec.
  destruct (String.eqb str "." || String.eqb str "dot");
    [spec_ok (mkAction cop_dot v_zero) |].
  destruct (String.eqb str "bell"); [spec_ok (mkAction cop_bell v_zero) |].
  destruct (String.eqb str "echo"); [spec_ok (mkAction cop_echo v_zero) |].
  destruct (strncmp0 str "echo=");
    [spec_ok (mkAction cop_echo
                (v_command (copy_string_unquote env (str_plus str 5)))) |].
  destruct (strncmp0 str "exec=");
    [spec_ok (mkAction cop_exec
                (v_command (copy_string_unquote env (str_plus str 5)))) |].
  destruct (strncmp0 str "ttyout=");
    [spec_ok (mkAction cop_ttyout
                (v_command (copy_string_unquote env (str_plus str 7)))) |].
  destruct (strncmp0 str "sleep=").
  { destruct (stoint env (str_plus str 6) 0 TIME_T_MAX) as [t p].
    unfold deref_m, bind at 2 3. unfold alloc_action, set_act_v, modify.
    destruct (deref (str_plus str 6) p) as [c |] eqn:D; simpl.
    - destruct (Nat.eqb p 0 || negb (Ascii.eqb c NUL)) eqn:E; [spec_stop |].
      spec_unfold; intros H; inversion H; subst; clear H.
      exists (mkAction cop_sleep (v_time t)); split; [reflexivity |].
      intros st2; unfold bind; simpl. rewrite E, set_last_v_snoc.
      reflexivity.
    - spec_stop. }
  destruct (String.eqb str "totals"); [spec_ok (mkAction cop_totals v_zero) |].
  destruct (strncmp0 str "wait=");
    [spec_ok (mkAction cop_wait
                (v_signal (decode_signal env (str_plus str 5)))) |].
  spec_stop.
Qed.

Lemma push_action_actions a st :
  checkpoint_action (push_action a st) = checkpoint_action st ++ [a].
Proof.
  unfold push_action; destruct (opcode a), (v a); reflexivity.
Qed.

Lemma compile_spec_compiled env str st st' :
  compile_spec env str st = Ok tt st' ->
  exists a, compiled env str = Some a /\ st' = push_action a st.
Proof.
  intros H; destruct (compile_spec_ok _ _ _ _ H) as (a & -> & G).
  exists a; split; auto.
  unfold compiled. rewrite compile_action_eq, G, push_action_actions.
  now rewrite last_last.
Qed.

Lemma push_action_state a st :
  checkpoint_state (push_action a st) = checkpoint_state st.
Proof. unfold push_action; destruct (opcode a), (v a); reflexivity. Qed.

Lemma entered_again a st :
  checkpoint_state (entered (push_action a (entered st)))
  = checkpoint_state (entered st).
Proof.
  unfold entered at 1. rewrite push_action_state.
  unfold entered; destruct (checkpoint_state st) eqn:S; simpl;
    rewrite ?S; rewrite ?push_action_state; simpl; rewrite ?S; reflexivity.
Qed.

(** What [compile_all] leaves when every specification was accepted. *)
Lemma compile_all_ok env specs :
  forall st st',
    compile_all env specs st = Ok tt st' ->
    exists acts,
      Forall2 (fun str a => compiled env str = Some a) specs acts /\
      checkpoint_action st' = checkpoint_action st ++ acts /\
      checkpoint_option st' = checkpoint_option st /\
      checkpoint st' = checkpoint st /\
      sigmask st' = sigmask st /\
      log st' = log st /\
      tty st' = tty st /\
      tty_cleanup st' = tty_cleanup st /\
      match specs with
      | [] => st' = st
      | _ :: _ => checkpoint_state st' = checkpoint_state (entered st)
      end.
Proof.
  induction specs as [| str specs IH]; intros st st' H; simpl in H.
  - inversion H; subst. exists []; simpl; rewrite app_nil_r.
    repeat split; auto.
  - unfold bind in H. rewrite compile_action_eq in H.
    destruct (compile_spec env str (entered st)) as [[] st1 | ] eqn:E;
      [| discriminate].
    destruct (compile_spec_compiled _ _ _ _ E) as (a & Ca & ->).
    destruct (IH _ _ H) as (acts & F & A1 & A2 & A3 & A4 & A5 & A6 & A7 & A8).
    exists (a :: acts).
    assert (P : forall s, checkpoint_option (push_action a s) = checkpoint_option s
                     /\ checkpoint (push_action a s) = checkpoint s
                     /\ sigmask (push_action a s) = sigmask s
                     /\ log (push_action a s) = log s
                     /\ tty (push_action a s) = tty s
                     /\ tty_cleanup (push_action a s) = tty_cleanup s
                     /\ checkpoint_state (push_action a s) = checkpoint_state s)
      by (intro s; unfold push_action; destruct (opcode a), (v a);
          repeat split; reflexivity).
    assert (Q : checkpoint_option (entered st) = checkpoint_option st
                /\ checkpoint (entered st) = checkpoint st
                /\ sigmask (entered st) = sigmask st
                /\ log (entered st) = log st
                /\ tty (entered st) = tty st
                /\ tty_cleanup (entered st) = tty_cleanup st
                /\ checkpoint_action (entered st) = checkpoint_action st
                /\ checkpoint_state (entered (entered st))
                   = checkpoint_state (entered st))
      by (unfold entered; destruct (checkpoint_state st) eqn:S;
          simpl; rewrite ?S; repeat split; reflexivity).
    destruct (P (entered st)) as (P1 & P2 & P3 & P4 & P5 & P6 & P7).
    destruct Q as (Q1 & Q2 & Q3 & Q4 & Q5 & Q6 & Q7 & Q8).
    repeat split; try congruence.
    + constructor; auto.
    + rewrite A1, push_action_actions, Q7, <- app_assoc. reflexivity.
    + destruct specs.
      * subst st'. congruence.
      * rewrite A8. apply entered_again.
Qed.

(** ** The end of compilation *)

Lemma compile_spec_echo env st :
  compile_spec env "echo" st = Ok tt (push_action plain_echo st).
Proof. reflexivity. Qed.

Lemma finish_compile_compiling env st :
  checkpoint_state st = CHKP_COMPILE ->
  checkpoint_finish_compile env st = Ok tt (to_running env st).
Proof.
  intro S. unfold checkpoint_finish_compile, bind, get. rewrite S; simpl.
  rewrite S. unfold sigprocmask_block, bind, get, emit, modify; simpl.
  unfold to_running, blocked; simpl.
  destruct (checkpoint_option st =? 0); reflexivity.
Qed.

Lemma finish_compile_running env st :
  checkpoint_state st = CHKP_RUN ->
  checkpoint_finish_compile env st = Ok tt st.
Proof.
  intro S. unfold checkpoint_finish_compile, bind, get. rewrite S; simpl.
  rewrite S. reflexivity.
Qed.

Lemma finish_compile_default env st :
  checkpoint_state st = CHKP_INIT ->
  checkpoint_option st <> 0 ->
  checkpoint_action st = [] ->
  checkpoint_finish_compile env st =
    Ok tt (to_running env (push_action plain_echo (entered st))).
Proof.
  intros S O A. apply Z.eqb_neq in O.
  unfold checkpoint_finish_compile, bind, get. rewrite S, A, O; simpl.
  rewrite compile_action_eq, compile_spec_echo.
  unfold to_running, blocked, entered. rewrite S; simpl. rewrite O.
  reflexivity.
Qed.

Lemma finish_compile_idle env st :
  checkpoint_state st = CHKP_INIT ->
  checkpoint_option st = 0 ->
  checkpoint_finish_compile env st = Ok tt st.
Proof.
  intros S O. unfold checkpoint_finish_compile, bind, get.
  rewrite S, O; simpl. rewrite S. reflexivity.
Qed.

(** C5.  When every one of the [n] specifications is accepted,
    [checkpoint_finish_compile] leaves a program of exactly the [n] records
    they compile to, in the order of the specifications; with no
    specification and checkpointing enabled the program is the single
    [echo] without text.  A further call changes nothing, as does any call
    in the running state. *)
Theorem compile_then_finish (env : Env) (option : Z) (mask : sigset)
    (specs : list string) (st : State) :
  compile_all env specs (initial_state option mask) = Ok tt st ->
  exists st',
    checkpoint_finish_compile env st = Ok tt st' /\
    (match specs with
     | [] => if option =? 0 then checkpoint_action st' = []
             else checkpoint_action st' = [plain_echo]
     | _ :: _ =>
         Forall2 (fun str a => compiled env str = Some a) specs
           (checkpoint_action st') /\
         List.length (checkpoint_action st') = List.length specs
     end) /\
    checkpoint_finish_compile env st' = Ok tt st' /\
    (forall s, checkpoint_state s = CHKP_RUN ->
               checkpoint_finish_compile env s = Ok tt s).
Proof.
  intro H.
  destruct (compile_all_ok _ _ _ _ H)
    as (acts & F & A1 & A2 & _ & _ & _ & _ & _ & A8).
  destruct specs as [| str specs].
  - subst st. destruct (option =? 0) eqn:O.
    + apply Z.eqb_eq in O. exists (initial_state option mask).
      assert (I : checkpoint_finish_compile env (initial_state option mask)
                  = Ok tt (initial_state option mask))
        by (apply finish_compile_idle; auto).
      repeat split; auto using finish_compile_running.
    + apply Z.eqb_neq in O.
      eexists; split; [apply finish_compile_default; auto |].
      split; [| split; auto using finish_compile_running].
      unfold to_running, blocked, entered; simpl.
      apply Z.eqb_neq in O; rewrite O; reflexivity.
  - assert (S : checkpoint_state st = CHKP_COMPILE) by (rewrite A8; reflexivity).
    exists (to_running env st).
    split; [apply finish_compile_compiling; auto |].
    assert (P : checkpoint_action (to_running env st) = acts).
    { unfold to_running, blocked; simpl.
      destruct (checkpoint_option st =? 0); simpl; rewrite A1; reflexivity. }
    rewrite P. simpl in A1. subst acts.
    split; [split |]; auto.
    + symmetry; eapply Forall2_length; eauto.
    + split; auto using finish_compile_running.
Qed.

Lemma compile_then_finish_witness :
  exists st st',
    compile_all ref_env ["dot"; "echo=%u"; "sleep=3"] (initial_state 5 [])
      = Ok tt st /\
    checkpoint_finish_compile ref_env st = Ok tt st' /\
    List.length (checkpoint_action st') = 3%nat.
Proof.
  eexists.
  assert (H : compile_all ref_env ["dot"; "echo=%u"; "sleep=3"]
                (initial_state 5 []) = Ok tt _) by reflexivity.
  destruct (compile_then_finish ref_env 5 [] _ _ H) as (st' & F & (_ & L) & _).
  exists st'. split; [exact H |]. split; [exact F | exact L].
Defined.

(** ** Unquoting *)

Lemma length_snoc (b : string) (q : ascii) :
  String.length (b ++ String q "") = S (String.length b).
Proof. induction b; simpl; auto. Qed.

Lemma get_snoc (b : string) (q : ascii) :
  String.get (String.length b) (b ++ String q "") = Some q.
Proof. induction b; simpl; auto. Qed.

Lemma substring_0_app (b s : string) :
  substring 0 (String.length b) (b ++ s) = b.
Proof.
  induction b as [| c b IH]; simpl.
  - destruct s; reflexivity.
  - now rewrite IH.
Qed.

Lemma snoc_of_last (rest : string) (c : ascii) :
  rest <> EmptyString ->
  String.get (String.length rest - 1) rest = Some c ->
  exists body, rest = (body ++ String c "")%string.
Proof.
  induction rest as [| a rest IH]; intros N G; [congruence |].
  destruct rest as [| b rest].
  - simpl in G. inversion G; subst. exists EmptyString; reflexivity.
  - destruct IH as (body & E); [discriminate | |].
    + simpl in G. simpl. now rewrite Nat.sub_0_r.
    + exists (String a body). simpl. now rewrite <- E.
Qed.

Lemma strip_wrapped (q : ascii) (body : string) :
  is_quote q = true ->
  strip_quote_pair (String q (body ++ String q "")) = body.
Proof.
  intro Q. unfold strip_quote_pair, is_quote in *.
  cbn [String.get String.length]. rewrite Q, length_snoc.
  cbn [Nat.ltb Nat.leb andb Nat.sub]. rewrite Nat.sub_0_r.
  rewrite get_snoc, Ascii.eqb_refl.
  cbn [substring]. apply substring_0_app.
Qed.

Lemma strip_changes_wrapped (s : string) :
  strip_quote_pair s <> s -> wrapped s.
Proof.
  unfold strip_quote_pair.
  destruct s as [| c0 rest]; [simpl; intros H; now elim H |].
  change (String.get 0 (String c0 rest)) with (Some c0). cbv iota.
  destruct (Ascii.eqb c0 DQUOTE || Ascii.eqb c0 SQUOTE) eqn:Q;
    [| cbn [andb]; intros H; now elim H].
  destruct (Nat.ltb 1 (String.length (String c0 rest))) eqn:L;
    [| cbn [andb]; intros H; now elim H].
  destruct (String.get (String.length (String c0 rest) - 1) (String c0 rest))
    as [c1 |] eqn:G; [| cbn [andb]; intros H; now elim H].
  destruct (Ascii.eqb c1 c0) eqn:E; [| cbn [andb]; intros H; now elim H].
  intros _. apply Ascii.eqb_eq in E; subst c1.
  apply Nat.ltb_lt in L. simpl in L.
  destruct rest as [| b rest]; [simpl in L; lia |].
  destruct (snoc_of_last (String b rest) c0) as (body & B); [discriminate | |].
  - simpl in G. simpl. now rewrite Nat.sub_0_r.
  - exists c0, body. split; [exact Q | now rewrite B].
Qed.

(** C6.  [copy_string_unquote] removes one wrapping pair of equal quote
    characters, whatever lies between them, and only then resolves the
    escape sequences; a text that is not wrapped is left as it is, so the
    removal is idempotent on it; a text of at most one character is never
    touched. *)
Theorem unquote_one_pair (env : Env) (str : string) :
  copy_string_unquote env str = unquote_string env (strip_quote_pair str) /\
  (forall q body,
     is_quote q = true ->
     strip_quote_pair (String q (body ++ String q "")) = body) /\
  (~ wrapped str ->
   strip_quote_pair str = str /\
   strip_quote_pair (strip_quote_pair str) = strip_quote_pair str) /\
  ((String.length str <= 1)%nat -> strip_quote_pair str = str) /\
  strip_quote_pair "'it''s'" = "it''s".
Proof.
  split; [reflexivity |].
  split; [intros; now apply strip_wrapped |].
  assert (U : ~ wrapped str -> strip_quote_pair str = str).
  { intro N. destruct (string_dec (strip_quote_pair str) str) as [E | E]; auto.
    elim N. now apply strip_changes_wrapped. }
  split; [intro N; rewrite !(U N); auto |].
  split; [| reflexivity].
  intro L. apply U. intros (q & body & _ & ->).
  simpl in L. rewrite length_snoc in L. lia.
Qed.

Lemma unquote_one_pair_witness :
  is_quote DQUOTE = true /\
  strip_quote_pair (String DQUOTE ("hello" ++ String DQUOTE "")) = "hello" /\
  strip_quote_pair "hello" = "hello".
Proof.
  destruct (unquote_one_pair ref_env "hello") as (_ & W & N & _).
  split; [reflexivity |].
  split; [exact (W DQUOTE "hello" eq_refl) |].
  apply N. intros (q & body & Q & E).
  inversion E; subst q. discriminate Q.
Defined.

(** ** Fatal errors of the compiler *)

Lemma sleep_prefix (str : string) :
  strncmp0 str "sleep=" = true -> exists rest, str = ("sleep=" ++ rest)%string.
Proof.
  unfold strncmp0. intro H.
  repeat (destruct str as [| ? str]; [discriminate H |];
          simpl in H;
          match type of H with
          | (if ?d then _ else _) = true =>
              destruct d as [<- |]; [| discriminate H]
          end).
  exists str; reflexivity.
Qed.

Lemma compile_spec_unrecognized env str st :
  recognized str = false ->
  compile_spec env str st =
    paxfatal (gettext env "%s: unknown checkpoint action") str st.
Proof.
  unfold recognized, compile_spec. intro R.
  repeat (apply orb_false_elim in R; destruct R as [R ?]).
  repeat match goal with
         | H : _ = false |- _ => rewrite H; clear H
         end.
  reflexivity.
Qed.

Lemma compile_spec_sleep env str st :
  strncmp0 str "sleep=" = true ->
  compile_spec env str st =
    let arg := str_plus str 6 in
    let st' := push_action
                 (mkAction cop_sleep (v_time (fst (stoint env arg 0 TIME_T_MAX))))
                 st in
    match deref arg (snd (stoint env arg 0 TIME_T_MAX)) with
    | Some c =>
        if Nat.eqb (snd (stoint env arg 0 TIME_T_MAX)) 0
           || negb (Ascii.eqb c NUL)
        then paxfatal (gettext env "%s: not a valid timeout") str st'
        else Ok tt st'
    | None => Stop Overrun st'
    end.
Proof.
  intro H. destruct (sleep_prefix _ H) as (rest & ->).
  unfold compile_spec.
  change (String.eqb ("sleep=" ++ rest) "." || String.eqb ("sleep=" ++ rest) "dot")
    with false.
  change (String.eqb ("sleep=" ++ rest) "bell") with false.
  change (String.eqb ("sleep=" ++ rest) "echo") with false.
  change (strncmp0 ("sleep=" ++ rest) "echo=") with false.
  change (strncmp0 ("sleep=" ++ rest) "exec=") with false.
  change (strncmp0 ("sleep=" ++ rest) "ttyout=") with false.
  rewrite H. cbv iota zeta.
  set (arg := str_plus ("sleep=" ++ rest) 6).
  destruct (stoint env arg 0 TIME_T_MAX) as [t p].
  cbn [fst snd].
  unfold bind, alloc_action, set_act_v, modify, deref_m.
  destruct (deref arg p) as [c |];
    cbn [set_checkpoint_action checkpoint_action ret stop_with];
    rewrite set_last_v_snoc;
    [destruct (Nat.eqb p 0 || negb (Ascii.eqb c NUL)) |]; reflexivity.
Qed.

Lemma compile_spec_other env str st :
  recognized str = true -> strncmp0 str "sleep=" = false ->
  exists a, compile_spec env str st = Ok tt (push_action a st).
Proof.
  unfold recognized, compile_spec. intros R S. rewrite S in *.
  destruct (String.eqb str "." || String.eqb str "dot");
    [exists (mkAction cop_dot v_zero); reflexivity |].
  destruct (String.eqb str "bell");
    [exists (mkAction cop_bell v_zero); reflexivity |].
  destruct (String.eqb str "echo");
    [exists (mkAction cop_echo v_zero); reflexivity |].
  destruct (strncmp0 str "echo=").
  { eexists (mkAction cop_echo (v_command _)).
    unfold bind, alloc_action, set_act_v, modify; simpl.
    rewrite set_last_v_snoc; reflexivity. }
  destruct (strncmp0 str "exec=").
  { eexists (mkAction cop_exec (v_command _)).
    unfold bind, alloc_action, set_act_v, modify; simpl.
    rewrite set_last_v_snoc; reflexivity. }
  destruct (strncmp0 str "ttyout=").
  { eexists (mkAction cop_ttyout (v_command _)).
    unfold bind, alloc_action, set_act_v, modify; simpl.
    rewrite set_last_v_snoc; reflexivity. }
  destruct (String.eqb str "totals");
    [exists (mkAction cop_totals v_zero); reflexivity |].
  destruct (strncmp0 str "wait="); [| discriminate R].
  eexists (mkAction cop_wait (v_signal _)).
  unfold bind, alloc_action, set_act_v, modify; simpl.
  rewrite set_last_v_snoc; reflexivity.
Qed.

(** C7, as the code has it.  [checkpoint_compile_action] ends in a fatal
    error, which names the specification, exactly when the specification
    has none of the accepted forms or when it is a sleep of which [stoint]
    converted nothing or left characters unconverted.  The value of the
    duration is not examined: whatever [stoint] returns is stored. *)
Theorem compile_action_fatal (env : Env) (str : string) (st : State) :
  (is_fatal (checkpoint_compile_action env str st) str <->
   recognized str = false \/
   (strncmp0 str "sleep=" = true /\
    payload_refused env (str_plus str 6) = true)) /\
  (forall fmt arg st',
     checkpoint_compile_action env str st = Stop (Fatal fmt arg) st' ->
     arg = str /\
     log st' = log st ++ [EvPaxfatal fmt str] /\
     (fmt = gettext env "%s: unknown checkpoint action" \/
      fmt = gettext env "%s: not a valid timeout")) /\
  (forall st',
     checkpoint_compile_action env str st = Ok tt st' ->
     strncmp0 str "sleep=" = true ->
     exists others,
       checkpoint_action st' =
         others ++ [mkAction cop_sleep
                      (v_time (fst (stoint env (str_plus str 6) 0
                                      TIME_T_MAX)))]).
Proof.
  rewrite compile_action_eq.
  assert (L : log (entered st) = log st)
    by (unfold entered; destruct (checkpoint_state st); reflexivity).
  destruct (recognized str) eqn:R.
  - destruct (strncmp0 str "sleep=") eqn:S.
    + rewrite (compile_spec_sleep _ _ _ S). cbv zeta.
      unfold payload_refused.
      set (arg := str_plus str 6).
      set (t := fst (stoint env arg 0 TIME_T_MAX)).
      set (p := snd (stoint env arg 0 TIME_T_MAX)).
      assert (L2 : log (push_action (mkAction cop_sleep (v_time t))
                          (entered st)) = log st)
        by (unfold push_action; simpl; exact L).
      remember (push_action (mkAction cop_sleep (v_time t)) (entered st))
        as st2 eqn:E2.
      destruct (deref arg p) as [c |].
      * destruct (Nat.eqb p 0 || negb (Ascii.eqb c NUL)).
        -- split; [| split].
           ++ split; [intros _; right; auto |].
              intros _. eexists; eexists; reflexivity.
           ++ intros fmt a st' H. inversion H; subst.
              simpl. rewrite ?L2, ?L. auto.
           ++ intros st' H; discriminate H.
        -- split; [| split].
           ++ split; [intros (f & s & H); discriminate H |].
              intros [H | [_ H]]; discriminate H.
           ++ intros fmt a st' H; discriminate H.
           ++ intros st' H _. inversion H; subst.
              exists (checkpoint_action (entered st)). reflexivity.
      * split; [| split].
        -- split; [intros (f & s & H); discriminate H |].
           intros [H | [_ H]]; discriminate H.
        -- intros fmt a st' H; discriminate H.
        -- intros st' H; discriminate H.
    + destruct (compile_spec_other env str (entered st) R S) as (a & E).
      rewrite E. split; [| split].
      * split; [intros (f & s & H); discriminate H |].
        intros [H | [H _]]; discriminate H.
      * intros fmt a' st' H; discriminate H.
      * intros st' _ H; discriminate H.
  - rewrite (compile_spec_unrecognized _ _ _ R).
    split; [| split].
    + split; [intros _; left; reflexivity |].
      intros _. eexists; eexists; reflexivity.
    + intros fmt a st' H. inversion H; subst. simpl. rewrite L. auto.
    + intros st' H; discriminate H.
Qed.

Lemma compile_action_fatal_witness :
  strncmp0 "sleep=3x" "sleep=" = true /\
  payload_refused ref_env (str_plus "sleep=3x" 6) = true /\
  is_fatal (checkpoint_compile_action ref_env "sleep=3x" (initial_state 0 []))
    "sleep=3x".
Proof.
  destruct (compile_action_fatal ref_env "sleep=3x" (initial_state 0 []))
    as ((_ & F) & _).
  split; [reflexivity |]. split; [reflexivity |].
  apply F. right. split; reflexivity.
Defined.

Lemma digits_prefix_all (s : string) :
  forall acc, all_digits s = true ->
              snd (digits_prefix s acc) = String.length s.
Proof.
  induction s as [| c s IH]; intros acc H; simpl in *; auto.
  apply andb_true_iff in H; destruct H as [D H]. rewrite D.
  specialize (IH (acc * 10 + digit_value c) H).
  destruct (digits_prefix s (acc * 10 + digit_value c)); simpl in *.
  now rewrite IH.
Qed.

Lemma get_length (s : string) : String.get (String.length s) s = None.
Proof. induction s; simpl; auto. Qed.

Lemma deref_end (s : string) : deref s (String.length s) = Some NUL.
Proof. unfold deref. now rewrite get_length, Nat.eqb_refl. Qed.

(** With the [stoint] of the reference environment a sleep whose payload
    is a string of digits is accepted however large the number is. *)
Lemma digits_accepted (payload : string) (st : State) :
  payload <> EmptyString -> all_digits payload = true ->
  exists st',
    checkpoint_compile_action ref_env ("sleep=" ++ payload) st = Ok tt st'.
Proof.
  intros N D. rewrite compile_action_eq.
  rewrite compile_spec_sleep
    by (unfold strncmp0; simpl; destruct payload; reflexivity).
  cbv zeta.
  assert (P : str_plus ("sleep=" ++ payload) 6 = payload).
  { unfold str_plus. simpl. rewrite Nat.sub_0_r.
    pose proof (substring_0_app payload "") as S.
    assert (A : forall s : string, (s ++ "")%string = s)
      by (induction s; simpl; congruence).
    now rewrite A in S. }
  rewrite P. simpl stoint. unfold stoint_digits.
  pose proof (digits_prefix_all payload 0 D) as E.
  destruct (digits_prefix payload 0) as [x n]; simpl in E; subst n.
  cbn [fst snd]. rewrite deref_end.
  destruct payload; [congruence |]. simpl. eexists; reflexivity.
Qed.

(** The literal reading fails for a duration just above the largest
    [time_t]: the specification is accepted. *)
Lemma out_of_range_sleep_accepted : ~ fatal_as_specified ref_env.
Proof.
  intro C.
  destruct (C "sleep=9223372036854775808" (initial_state 0 [])) as [_ B].
  destruct B as (fmt & st' & E); [right; split; reflexivity |].
  vm_compute in E. discriminate E.
Qed.

(** ** Signals are blocked before they are waited for *)

Lemma steps_ticked st st' : steps st st' -> ticked st st'.
Proof.
  intros (_ & A2 & A3 & A4 & A5 & A6 & _ & _ & E).
  unfold ticked; auto 10.
Qed.

Lemma ticked_refl st : ticked st st.
Proof. apply steps_ticked, steps_refl. Qed.

Lemma ticked_trans st1 st2 st3 :
  ticked st1 st2 -> ticked st2 st3 -> ticked st1 st3.
Proof.
  intros (A2 & A3 & A4 & A5 & A6 & e1 & L1 & F1)
         (B2 & B3 & B4 & B5 & B6 & e2 & L2 & F2).
  unfold ticked; repeat split; try congruence.
  exists (e1 ++ e2); split.
  - rewrite L2, L1; now rewrite app_assoc.
  - apply Forall_app; split; auto. now rewrite A5 in F2.
Qed.

Lemma ticked_bump st : ticked st (bump st).
Proof.
  unfold ticked, bump; simpl; repeat split; auto.
  exists []; split; [now rewrite app_nil_r | constructor].
Qed.

Lemma checkpoint_run_ticked depth env do_write st :
  ticked st (final (checkpoint_run depth env do_write st)).
Proof.
  destruct (Z.eq_dec (checkpoint_option st) 0) as [O | O].
  - rewrite checkpoint_run_disabled by auto. apply ticked_refl.
  - rewrite checkpoint_run_enabled by auto.
    destruct (Z.rem (checkpoint st + 1) (checkpoint_option st) =? 0).
    + eapply ticked_trans; [apply ticked_bump |].
      apply steps_ticked, sound_walk_actions.
    + apply ticked_bump.
Qed.

Lemma run_ticks_ticked depth env ticks :
  forall st, ticked st (final (run_ticks depth env ticks st)).
Proof.
  induction ticks as [| w ticks IH]; intro st; simpl.
  - apply ticked_refl.
  - unfold bind.
    pose proof (checkpoint_run_ticked depth env w st) as T.
    destruct (checkpoint_run depth env w st) as [[] st1 | why st1];
      simpl in *; auto.
    eapply ticked_trans; eauto.
Qed.

Lemma run_ticks_disabled depth env ticks :
  forall st, checkpoint_option st = 0 ->
             run_ticks depth env ticks st = Ok tt st.
Proof.
  induction ticks as [| w ticks IH]; intros st O; simpl; auto.
  unfold bind. rewrite checkpoint_run_disabled by auto. auto.
Qed.

Lemma sigismember_add_same s n : sigismember (sigaddset s n) n = true.
Proof.
  unfold sigaddset. destruct (sigismember s n) eqn:E; auto.
  unfold sigismember. rewrite existsb_app; simpl.
  rewrite Z.eqb_refl. now rewrite orb_true_r.
Qed.

Lemma sigismember_add_other s n m :
  sigismember s m = true -> sigismember (sigaddset s n) m = true.
Proof.
  unfold sigaddset. destruct (sigismember s n); auto.
  unfold sigismember. rewrite existsb_app. intros ->. reflexivity.
Qed.

Lemma sigunion_left b : forall a m,
  sigismember a m = true -> sigismember (sigunion a b) m = true.
Proof.
  unfold sigunion.
  induction b as [| n b IH]; intros a m H; simpl; auto.
  apply IH. now apply sigismember_add_other.
Qed.

Lemma sigunion_right b : forall a m,
  In m b -> sigismember (sigunion a b) m = true.
Proof.
  unfold sigunion.
  induction b as [| n b IH]; intros a m H; simpl in *; [contradiction |].
  destruct H as [-> | H]; auto.
  apply (sigunion_left b). apply sigismember_add_same.
Qed.

Lemma count_blocks_run set evs :
  Forall (run_event set) evs -> count_blocks evs = O.
Proof.
  induction 1 as [| e evs He _ IH]; simpl; auto.
  destruct e; simpl in He; auto; contradiction.
Qed.

Lemma waits_after_head set evs :
  Forall (run_event set) evs ->
  waits_follow_block (EvSigprocmaskBlock set :: evs).
Proof.
  intros F before s after E.
  destruct before as [| b before]; [discriminate E |].
  inversion E; subst b. left.
  assert (I : In (EvSigwait s) evs) by (rewrite H1; apply in_elt).
  rewrite Forall_forall in F. specialize (F _ I). simpl in F. now subst.
Qed.

Lemma to_running_fields env st :
  log (to_running env st) = log st ++ [EvSigprocmaskBlock (sigs st)] /\
  sigs (to_running env st) = sigs st /\
  sigmask (to_running env st) = sigunion (sigmask st) (sigs st) /\
  checkpoint_state (to_running env st) = CHKP_RUN.
Proof.
  unfold to_running, blocked; simpl.
  destruct (checkpoint_option st =? 0); simpl; auto.
Qed.

(** The two shapes of a session whose specifications were all accepted. *)
Lemma session_shape depth env option mask specs ticks st :
  compile_all env specs (initial_state option mask) = Ok tt st ->
  let o := session depth env specs ticks (initial_state option mask) in
  (specs = [] /\ option = 0 /\ o = Ok tt (initial_state option mask)) \/
  ((specs <> [] \/ option <> 0) /\
   exists evs,
     log (final o) = EvSigprocmaskBlock (sigs st) :: evs /\
     Forall (run_event (sigs st)) evs /\
     sigs (final o) = sigs st /\
     sigmask (final o) = sigunion mask (sigs st) /\
     checkpoint_state (final o) = CHKP_RUN).
Proof.
  intros H o.
  destruct (compile_all_ok _ _ _ _ H)
    as (acts & _ & _ & A2 & _ & A4 & A5 & _ & _ & A8).
  assert (R : forall st',
             checkpoint_finish_compile env st = Ok tt st' ->
             o = run_ticks depth env ticks st').
  { intros st' F. subst o. unfold session, bind. now rewrite H, F. }
  assert (T : forall st1,
             log st1 = [EvSigprocmaskBlock (sigs st)] ->
             sigs st1 = sigs st ->
             sigmask st1 = sigunion mask (sigs st) ->
             checkpoint_state st1 = CHKP_RUN ->
             o = run_ticks depth env ticks st1 ->
             exists evs,
               log (final o) = EvSigprocmaskBlock (sigs st) :: evs /\
               Forall (run_event (sigs st)) evs /\
               sigs (final o) = sigs st /\
               sigmask (final o) = sigunion mask (sigs st) /\
               checkpoint_state (final o) = CHKP_RUN).
  { intros st1 L S M C ->.
    destruct (run_ticks_ticked depth env ticks st1)
      as (_ & _ & B4 & B5 & B6 & evs & BL & BF).
    exists evs. rewrite BL, L, B5, B6, B4, S in *. auto. }
  destruct specs as [| str specs].
  - subst st. destruct (Z.eq_dec option 0) as [O | O].
    + left. repeat split; auto.
      rewrite (R (initial_state option mask))
        by (apply finish_compile_idle; auto).
      apply run_ticks_disabled; auto.
    + right. split; [right; exact O |].
      apply (T (to_running env (push_action plain_echo
                                  (entered (initial_state option mask)))));
        try (unfold to_running, blocked, entered; simpl;
             destruct (option =? 0); reflexivity).
      apply R. apply finish_compile_default; auto.
  - right. split; [left; discriminate |].
    assert (S : checkpoint_state st = CHKP_COMPILE)
      by (rewrite A8; reflexivity).
    destruct (to_running_fields env st) as (F1 & F2 & F3 & F4).
    apply (T (to_running env st)); auto.
    + rewrite F1, A5. reflexivity.
    + rewrite F3, A4. reflexivity.
    + apply R. apply finish_compile_compiling; auto.
Qed.

(** C2, as the code has it.  In a session whose specifications were all
    accepted the signal set is blocked at most once; it is blocked, by
    [checkpoint_finish_compile] and before anything else is traced, exactly
    when an action was compiled or checkpointing is enabled, and in the
    remaining case nothing is blocked and nothing is run.  Every wait of
    the trace waits for the set that was blocked before it, and at the end
    every signal of the set is in the signal mask of the process. *)
Theorem signals_blocked_before_wait (depth : nat) (env : Env) (option : Z)
    (mask : sigset) (specs : list string) (ticks : list bool) (st : State) :
  compile_all env specs (initial_state option mask) = Ok tt st ->
  let o := session depth env specs ticks (initial_state option mask) in
  let lg := log (final o) in
  (count_blocks lg <= 1)%nat /\
  (count_blocks lg = 1%nat <-> specs <> [] \/ option <> 0) /\
  (specs <> [] \/ option <> 0 ->
   exists evs, lg = EvSigprocmaskBlock (sigs st) :: evs /\
               Forall (run_event (sigs st)) evs) /\
  (specs = [] -> option = 0 -> lg = []) /\
  waits_follow_block lg /\
  (forall n, In n (sigs (final o)) ->
             sigismember (sigmask (final o)) n = true).
Proof.
  intros H o lg.
  destruct (session_shape depth env option mask specs ticks st H)
    as [(S & O & E) | (N & evs & L & F & FS & FM & _)];
    fold o in E || fold o in L, FS, FM.
  - subst lg. rewrite E. simpl.
    repeat split; auto.
    + intro X; discriminate X.
    + intros [X | X]; contradiction.
    + intros [X | X]; contradiction.
    + intros before s after X. destruct before; discriminate X.
  - subst lg. rewrite L. simpl. rewrite (count_blocks_run _ _ F).
    repeat split; auto.
    + exists evs; auto.
    + intros S O. destruct N; contradiction.
    + apply waits_after_head; auto.
    + intros n I. rewrite FM. apply sigunion_right. now rewrite FS in I.
Qed.

Lemma signals_blocked_before_wait_witness :
  exists st,
    compile_all ref_env ["wait=SIGUSR1"; "dot"] (initial_state 2 []) = Ok tt st /\
    log (final (session 2 ref_env ["wait=SIGUSR1"; "dot"] [true; true]
                  (initial_state 2 [])))
    = [EvSigprocmaskBlock [10]; EvSigwait [10]; EvPutc stdlis ".";
       EvFlush stdlis] /\
    waits_follow_block
      (log (final (session 2 ref_env ["wait=SIGUSR1"; "dot"] [true; true]
                     (initial_state 2 [])))).
Proof.
  eexists.
  assert (H : compile_all ref_env ["wait=SIGUSR1"; "dot"] (initial_state 2 [])
              = Ok tt _) by reflexivity.
  destruct (signals_blocked_before_wait 2 ref_env 2 [] _ [true; true] _ H)
    as (_ & _ & _ & _ & W & _).
  split; [exact H |]. split; [reflexivity | exact W].
Defined.

(** The literal reading fails for a run without any checkpoint option:
    nothing is compiled, the state stays uninitialised and nothing is
    blocked. *)
Lemma no_checkpoint_no_block : ~ blocked_once_as_specified.
Proof.
  intro C.
  destruct (C 2%nat ref_env 0 [] [] [true] (initial_state 0 []) eq_refl)
    as [B _].
  discriminate B.
Qed.

(** ** The loop of the interpreter, item by item *)

Lemma bind_assoc {A B C} (m : M A) (k : A -> M B) (h : B -> M C) st :
  bind (bind m k) h st = bind m (fun a => bind (k a) h) st.
Proof. unfold bind. destruct (m st); reflexivity. Qed.

Lemma bind_ext {A B} (m : M A) (k1 k2 : A -> M B) st :
  (forall a st', k1 a st' = k2 a st') -> bind m k1 st = bind m k2 st.
Proof. intro H. unfold bind. destruct (m st); auto. Qed.

Section LoopItems.

Variable env : Env.
Variable self : stream -> Z -> option string -> bool -> Z -> M Z.
Variable fp : stream.
Variable input : string.
Variable do_write : bool.
Variable cpn : Z.
Variable opstr : string.

Let loop := format_loop env self fp input do_write cpn opstr.
Let items_run := run_items env self fp do_write cpn opstr.

(** The loop runs the items that [scan] lists and ends as [scan]
    says. *)
Lemma format_loop_scan (n : nat) :
  forall ip len st,
    loop n ip len st =
      (len' <- items_run (fst (scan input n ip)) len ;;
       run_ending (snd (scan input n ip)) len')%chk st.
Proof.
  subst loop items_run.
  induction n as [| n IH]; intros ip len st.
  - simpl. unfold deref_m.
    destruct (deref input ip) as [c |]; [| reflexivity].
    unfold bind at 1; simpl.
    destruct (Ascii.eqb c NUL); reflexivity.
  - simpl. unfold deref_m at 1.
    destruct (deref input ip) as [c |]; [| reflexivity].
    unfold bind at 1. unfold ret at 1.
    destruct (Ascii.eqb c NUL); [reflexivity |].
    destruct (Ascii.eqb c "%").
    + unfold deref_m at 1.
      destruct (deref input (S ip)) as [c1 |]; [| reflexivity].
      unfold bind at 1. unfold ret at 1.
      destruct (Ascii.eqb c1 "{") eqn:B.
      * destruct (getarg input (S ip)) as [[arg ip'] |].
        -- unfold deref_m at 1.
           destruct (deref input ip') as [d |]; [| reflexivity].
           unfold bind at 1. unfold ret at 1.
           destruct (scan input n (S ip')) as [its e] eqn:E.
           cbn [fst snd run_items run_item].
           rewrite bind_assoc. apply bind_ext. intros len' st'.
           rewrite IH, E. reflexivity.
        -- destruct (scan input n (S (S ip))) as [its e] eqn:E.
           cbn [fst snd run_items run_item].
           apply Ascii.eqb_eq in B; subst c1.
           unfold bind at 1 2 3 4 5, fputc, emit, modify, ret.
           rewrite IH, E. reflexivity.
      * destruct (scan input n (S (S ip))) as [its e] eqn:E.
        cbn [fst snd run_items run_item].
        rewrite bind_assoc. apply bind_ext. intros len' st'.
        rewrite IH, E. reflexivity.
    + destruct (scan input n (S ip)) as [its e] eqn:E.
      cbn [fst snd run_items run_item].
      unfold bind at 1 3, fputc, emit, modify.
      destruct (Ascii.eqb c CR).
      * unfold bind at 1 3. unfold ret at 1. cbv beta iota.
        rewrite IH, E. reflexivity.
      * unfold bind at 2, ret at 1. rewrite IH, E. reflexivity.
Qed.

End LoopItems.

(** One level of [format_checkpoint_string]. *)
Lemma format_checkpoint_string_level d env fp len input do_write cpn :
  format_checkpoint_string (S d) env fp len input do_write cpn =
    (let template := match input with
                     | Some s => s
                     | None => if do_write
                               then gettext env "Write checkpoint %u"
                               else gettext env "Read checkpoint %u"
                     end in
     len' <- format_loop env (format_checkpoint_string d env) fp template
               do_write cpn
               (if do_write then gettext env "write" else gettext env "read")
               (String.length template) 0 len ;;
     fflush fp ;; ret (to_int len'))%chk.
Proof. reflexivity. Qed.

(** The rendering of a given template, item by item. *)
Lemma format_checkpoint_string_items d env fp len input do_write cpn st :
  format_checkpoint_string (S d) env fp len (Some input) do_write cpn st =
    (len' <- (l <- run_items env (format_checkpoint_string d env) fp do_write
                     cpn
                     (if do_write then gettext env "write"
                      else gettext env "read")
                     (items input) len ;;
              run_ending (template_end input) l) ;;
     fflush fp ;; ret (to_int len'))%chk st.
Proof.
  rewrite format_checkpoint_string_level. cbv zeta.
  unfold bind at 1. rewrite format_loop_scan.
  unfold items, template_end. reflexivity.
Qed.

(** ** Rendering terminates *)

Lemma get_some_lt (s : string) :
  forall i c, String.get i s = Some c -> (i < String.length s)%nat.
Proof.
  induction s as [| a s IH]; intros i c H; simpl in *; [discriminate |].
  destruct i; [lia |]. apply IH in H. lia.
Qed.

Lemma deref_some (s : string) (i : nat) (c : ascii) :
  deref s i = Some c ->
  (i < String.length s)%nat \/ (i = String.length s /\ c = NUL).
Proof.
  unfold deref. destruct (String.get i s) eqn:G.
  - intros _. left. eapply get_some_lt; eauto.
  - destruct (Nat.eqb i (String.length s)) eqn:E; [| discriminate].
    intro H; inversion H. right. split; auto. now apply Nat.eqb_eq.
Qed.

Lemma strchr_from_ge (s : string) (c : ascii) :
  forall i p, strchr_from s c i = Some p -> (i <= p)%nat.
Proof.
  induction s as [| a s IH]; intros i p H; simpl in H; [discriminate |].
  destruct (Ascii.eqb a c).
  - inversion H; lia.
  - apply IH in H. lia.
Qed.

Lemma getarg_forward (input : string) (ip : nat) (arg : string) (ip' : nat) :
  getarg input ip = Some (arg, ip') -> (ip < ip')%nat.
Proof.
  unfold getarg. destruct (deref input ip) as [c |]; [| discriminate].
  destruct (Ascii.eqb c "{"); [| discriminate].
  unfold strchr. destruct (strchr_from _ _ _) as [p |] eqn:E; [| discriminate].
  intro H; inversion H; subst. apply strchr_from_ge in E. lia.
Qed.

(** The budget of rounds that [format_checkpoint_string] hands to its
    loop is never exhausted. *)
Lemma scan_rounds (input : string) (n : nat) :
  forall ip, (String.length input <= n + ip)%nat ->
             snd (scan input n ip) <> OutOfRounds.
Proof.
  induction n as [| n IH]; intros ip L; simpl.
  - destruct (deref input ip) as [c |] eqn:D; [| discriminate].
    destruct (Ascii.eqb c NUL) eqn:E; [discriminate |].
    apply deref_some in D. destruct D as [D | [_ D]]; [lia |].
    subst c. discriminate E.
  - destruct (deref input ip) as [c |]; [| discriminate].
    destruct (Ascii.eqb c NUL); [discriminate |].
    destruct (Ascii.eqb c "%").
    + destruct (deref input (S ip)) as [c1 |]; [| discriminate].
      destruct (Ascii.eqb c1 "{").
      * destruct (getarg input (S ip)) as [[arg ip'] |] eqn:G.
        -- destruct (deref input ip'); [| discriminate].
           apply getarg_forward in G.
           specialize (IH (S ip')).
           destruct (scan input n (S ip')); simpl in *. apply IH; lia.
        -- specialize (IH (S (S ip))).
           destruct (scan input n (S (S ip))); simpl in *. apply IH; lia.
      * specialize (IH (S (S ip))).
        destruct (scan input n (S (S ip))); simpl in *. apply IH; lia.
    + specialize (IH (S ip)).
      destruct (scan input n (S ip)); simpl in *. apply IH; lia.
Qed.

Lemma ff_ret {A} (a : A) : fuel_free (ret a).
Proof. intros st st' H; discriminate H. Qed.

Lemma ff_get {A} (f : State -> A) : fuel_free (get f).
Proof. intros st st' H; discriminate H. Qed.

Lemma ff_modify (f : State -> State) : fuel_free (modify f).
Proof. intros st st' H; discriminate H. Qed.

Lemma ff_emit (e : event) : fuel_free (emit e).
Proof. intros st st' H; discriminate H. Qed.

Lemma ff_overrun {A} : fuel_free (@stop_with A Overrun).
Proof. intros st st' H; discriminate H. Qed.

Lemma ff_bind {A B} (m : M A) (k : A -> M B) :
  fuel_free m -> (forall a, fuel_free (k a)) -> fuel_free (bind m k).
Proof.
  intros Hm Hk st st'. unfold bind.
  destruct (m st) as [a st1 | why st1] eqn:E.
  - apply Hk.
  - intro H; inversion H; subst. eapply Hm; eauto.
Qed.

Lemma ff_ext {A} (m1 m2 : M A) :
  (forall st, m1 st = m2 st) -> fuel_free m2 -> fuel_free m1.
Proof. intros E F st st'. rewrite E. apply F. Qed.

Lemma ff_deref (s : string) (i : nat) : fuel_free (deref_m s i).
Proof.
  unfold deref_m; destruct (deref s i); [apply ff_ret | apply ff_overrun].
Qed.

Create HintDb ff.

#[local] Hint Resolve ff_ret ff_get ff_modify ff_emit ff_overrun ff_deref : ff.

Ltac ff_step :=
  match goal with
  | |- fuel_free (bind _ _) => apply ff_bind; [| intros]
  | |- fuel_free (if ?b then _ else _) => destruct b
  | |- fuel_free (let '(_, _) := ?p in _) => destruct p
  | |- fuel_free (fputc _ _) => apply ff_emit
  | |- fuel_free (fputs _ _) => apply ff_emit
  | |- fuel_free (fflush _) => apply ff_emit
  | |- fuel_free (paxerror _ _) => apply ff_emit
  | |- fuel_free _ => solve [auto with ff]
  end.

Lemma ff_put_spaces (n : nat) (fp : stream) : fuel_free (put_spaces n fp).
Proof. induction n; simpl; repeat ff_step; auto. Qed.

Lemma ff_getwidth (env : Env) (fp : stream) : fuel_free (getwidth env fp).
Proof.
  assert (C : fuel_free (getwidth_columns env)).
  { unfold getwidth_columns. destruct (getenv_COLUMNS env); repeat ff_step. }
  unfold getwidth. destruct (ioctl_ws_col env fp); repeat ff_step; auto.
Qed.

#[local] Hint Resolve ff_put_spaces ff_getwidth : ff.

Section FuelFreeInterpreter.

Variable env : Env.
Variable self : stream -> Z -> option string -> bool -> Z -> M Z.
Hypothesis ff_self : forall fp len do_write cpn,
  fuel_free (self fp len (Some def_format) do_write cpn).

Lemma ff_total_labels (arg : option string) :
  fuel_free (total_labels env arg).
Proof.
  unfold total_labels. destruct arg as [text |]; [| auto with ff].
  destruct (wordsplit env text); repeat ff_step.
Qed.

Lemma ff_pad_width (fp : stream) (arg : option string) :
  fuel_free (pad_width env fp arg).
Proof. unfold pad_width. destruct arg; repeat ff_step. Qed.

Lemma ff_directive fp do_write cpn opstr d arg len :
  fuel_free (directive env self fp do_write cpn opstr d arg len).
Proof.
  unfold directive.
  repeat ff_step; auto using ff_total_labels, ff_pad_width.
Qed.

Lemma ff_run_items fp do_write cpn opstr its :
  forall len, fuel_free (run_items env self fp do_write cpn opstr its len).
Proof.
  induction its as [| it its IH]; intro len; simpl; [auto with ff |].
  ff_step; auto.
  destruct it; simpl; repeat ff_step; auto using ff_directive.
Qed.

Lemma ff_format_loop fp input do_write cpn opstr n ip len :
  (String.length input <= n + ip)%nat ->
  fuel_free (format_loop env self fp input do_write cpn opstr n ip len).
Proof.
  intros L st st'. rewrite format_loop_scan.
  revert st st'. apply ff_bind; [apply ff_run_items |].
  intro len'. pose proof (scan_rounds input n ip L) as R.
  destruct (snd (scan input n ip)); simpl; auto with ff. congruence.
Qed.

End FuelFreeInterpreter.

Section SelfAgree.

Variable env : Env.
Variables self1 self2 : stream -> Z -> option string -> bool -> Z -> M Z.

(** Only the rendering of the default template is ever asked of the
    recursive call. *)
Hypothesis agree : forall fp len do_write cpn st,
  self1 fp len (Some def_format) do_write cpn st =
  self2 fp len (Some def_format) do_write cpn st.

Lemma directive_agree fp do_write cpn opstr d arg len st :
  directive env self1 fp do_write cpn opstr d arg len st =
  directive env self2 fp do_write cpn opstr d arg len st.
Proof.
  unfold directive. destruct (Ascii.eqb d "c"); [| reflexivity].
  unfold bind. now rewrite agree.
Qed.

Lemma run_items_agree fp do_write cpn opstr its :
  forall len st,
    run_items env self1 fp do_write cpn opstr its len st =
    run_items env self2 fp do_write cpn opstr its len st.
Proof.
  induction its as [| it its IH]; intros len st; simpl; auto.
  unfold bind.
  assert (E : run_item env self1 fp do_write cpn opstr it len st =
              run_item env self2 fp do_write cpn opstr it len st)
    by (destruct it; simpl; auto using directive_agree).
  rewrite E. destruct (run_item env self2 fp do_write cpn opstr it len st);
    auto.
Qed.

Lemma format_loop_agree fp input do_write cpn opstr n ip len st :
  format_loop env self1 fp input do_write cpn opstr n ip len st =
  format_loop env self2 fp input do_write cpn opstr n ip len st.
Proof.
  rewrite !format_loop_scan. unfold bind. now rewrite run_items_agree.
Qed.

End SelfAgree.

(** Without a [%c] among the items the recursive call is never made. *)
Lemma run_items_no_c env self1 self2 fp do_write cpn opstr its :
  forallb (fun it => negb (is_c_directive it)) its = true ->
  forall len st,
    run_items env self1 fp do_write cpn opstr its len st =
    run_items env self2 fp do_write cpn opstr its len st.
Proof.
  induction its as [| it its IH]; intros N len st; simpl in *; auto.
  apply andb_true_iff in N; destruct N as [N1 N2].
  unfold bind.
  assert (E : run_item env self1 fp do_write cpn opstr it len st =
              run_item env self2 fp do_write cpn opstr it len st).
  { destruct it; simpl; auto. simpl in N1. unfold directive.
    destruct (Ascii.eqb d "c"); [discriminate N1 | reflexivity]. }
  rewrite E. destruct (run_item env self2 fp do_write cpn opstr it len st);
    auto.
Qed.

Lemma def_format_items :
  items def_format =
    [Directive "t" (Some "%Y-%m-%d %H:%M:%S"); Literal ":"; Literal " ";
     Directive "d" None; Literal "s"; Literal ","; Literal " ";
     Directive "T" (Some "read,wrote"); Directive "*" None; Literal CR]
  /\ template_end def_format = AtTerminator.
Proof. split; reflexivity. Qed.

(** The rendering of the default template is the same at every depth. *)
Lemma def_format_any_depth env d1 d2 fp len do_write cpn st :
  format_checkpoint_string (S d1) env fp len (Some def_format) do_write cpn st
  = format_checkpoint_string (S d2) env fp len (Some def_format) do_write cpn
      st.
Proof.
  rewrite !format_checkpoint_string_items. unfold bind at 1 3.
  unfold bind at 1 3.
  rewrite (run_items_no_c env _ (format_checkpoint_string d2 env));
    [reflexivity |].
  rewrite (proj1 def_format_items). reflexivity.
Qed.

Lemma ff_def_format env depth fp len do_write cpn :
  fuel_free
    (format_checkpoint_string (S depth) env fp len (Some def_format) do_write
       cpn).
Proof.
  set (opstr := if do_write then gettext env "write" else gettext env "read").
  set (quiet := fun (_ : stream) (_ : Z) (_ : option string) (_ : bool)
                    (_ : Z) => @ret Z 0).
  assert (E : forall st,
             format_checkpoint_string (S depth) env fp len (Some def_format)
               do_write cpn st =
             (len' <- (l <- run_items env quiet fp do_write cpn opstr
                              (items def_format) len ;;
                       run_ending (template_end def_format) l) ;;
              fflush fp ;; ret (to_int len'))%chk st).
  { intro st. rewrite format_checkpoint_string_items. fold opstr.
    unfold bind at 1 3. unfold bind at 1 3.
    rewrite (run_items_no_c env _ quiet); [reflexivity |].
    rewrite (proj1 def_format_items). reflexivity. }
  apply (ff_ext _ _ E).
  repeat ff_step.
  - apply ff_run_items. intros; apply ff_ret.
  - rewrite (proj2 def_format_items). apply ff_ret.
Qed.

(** C9.  Rendering never exhausts a budget of two levels, whatever the
    template: the only recursive call, made by [%c], renders the built-in
    default template; that template has no [%c] among its items and ends
    at its terminator, so its own rendering needs one level; and a larger
    budget changes nothing. *)
Theorem rendering_terminates (env : Env) :
  (forall depth fp len input do_write cpn,
     (2 <= depth)%nat ->
     fuel_free (format_checkpoint_string depth env fp len input do_write cpn))
  /\
  (forall depth fp len do_write cpn,
     (1 <= depth)%nat ->
     fuel_free
       (format_checkpoint_string depth env fp len (Some def_format) do_write
          cpn)) /\
  (forall self fp do_write cpn opstr arg len,
     directive env self fp do_write cpn opstr "c" arg len =
       (r <- self fp len (Some def_format) do_write cpn ;;
        ret (to_size_t (len + r)))%chk) /\
  forallb (fun it => negb (is_c_directive it)) (items def_format) = true /\
  template_end def_format = AtTerminator /\
  (forall depth fp len input do_write cpn st,
     (2 <= depth)%nat ->
     format_checkpoint_string depth env fp len input do_write cpn st =
     format_checkpoint_string 2 env fp len input do_write cpn st).
Proof.
  split; [| split; [| split; [| split; [| split]]]].
  - intros depth fp len input do_write cpn D.
    destruct depth as [| [| d]]; try lia.
    rewrite format_checkpoint_string_level. cbv zeta.
    repeat ff_step.
    apply ff_format_loop; [| lia].
    intros; apply ff_def_format.
  - intros depth fp len do_write cpn D.
    destruct depth as [| d]; [lia |]. apply ff_def_format.
  - reflexivity.
  - reflexivity.
  - reflexivity.
  - intros depth fp len input do_write cpn st D.
    destruct depth as [| [| d]]; try lia.
    rewrite !format_checkpoint_string_level. cbv zeta.
    unfold bind at 1 3.
    rewrite (format_loop_agree env (format_checkpoint_string (S d) env)
               (format_checkpoint_string 1 env)).
    + reflexivity.
    + intros. apply def_format_any_depth.
Qed.

Lemma rendering_terminates_witness :
  (2 <= 2)%nat /\
  format_checkpoint_string 2 ref_env stderr 0 (Some "%c%c") true 7
    (initial_state 1 []) <>
  Stop NoFuel (initial_state 1 []).
Proof.
  split; [constructor |].
  destruct (rendering_terminates ref_env) as (T & _).
  apply (T 2%nat stderr 0 (Some "%c%c") true 7 (le_n 2)).
Defined.

(** ** Reads past the terminator *)

(** C10, at the failing input.  For a template that is a bare percent
    sign the terminating NUL is taken as the directive letter and echoed;
    the increment of the loop then moves the scan pointer beyond the
    terminator, where the loop test reads. *)
Theorem bare_percent_overruns (depth : nat) (env : Env) (fp : stream)
    (len : Z) (do_write : bool) (cpn : Z) (st : State) :
  template_end "%" = PastTerminator /\
  items "%" = [Directive NUL None] /\
  format_checkpoint_string (S depth) env fp len (Some "%") do_write cpn st =
    Stop Overrun (set_log (log st ++ [EvPutc fp "%"; EvPutc fp NUL]) st).
Proof.
  split; [reflexivity |]. split; [reflexivity |].
  rewrite format_checkpoint_string_items.
  change (items "%") with [Directive NUL None].
  change (template_end "%") with PastTerminator.
  unfold bind, run_items, run_item, directive, run_ending, fputc, emit,
    modify, ret, stop_with; simpl.
  rewrite <- app_assoc. reflexivity.
Qed.

(** A rendering that returns has stopped at the terminator. *)
Lemma returns_at_terminator depth env fp len input do_write cpn st r st' :
  format_checkpoint_string depth env fp len (Some input) do_write cpn st
    = Ok r st' ->
  template_end input = AtTerminator.
Proof.
  destruct depth as [| d]; [discriminate |].
  rewrite format_checkpoint_string_items. unfold bind at 1. unfold bind at 1.
  destruct (run_items _ _ _ _ _ _ _ _ _); [| discriminate].
  destruct (template_end input); simpl; auto; discriminate.
Qed.

Lemma dangling_directives :
  template_end "100%" = PastTerminator /\
  template_end "%{x}" = PastTerminator /\
  template_end "%{x" = AtTerminator /\
  template_end "100%%" = AtTerminator.
Proof. repeat split; reflexivity. Qed.

(** ** Padding *)

Lemma set_log_same st : set_log (log st) st = st.
Proof. destruct st; reflexivity. Qed.

Lemma put_spaces_log (n : nat) (fp : stream) :
  forall st,
    put_spaces n fp st =
      Ok tt (set_log (log st ++ repeat (EvPutc fp " ") n) st).
Proof.
  induction n as [| n IH]; intro st; simpl.
  - rewrite app_nil_r, set_log_same. reflexivity.
  - unfold bind, fputc, emit, modify. rewrite IH. simpl.
    unfold set_log; simpl. rewrite <- app_assoc. reflexivity.
Qed.

Lemma deref_in_range (s : string) (i : nat) :
  (i <= String.length s)%nat -> exists c, deref s i = Some c.
Proof.
  intro L. unfold deref. destruct (String.get i s) eqn:G; eauto.
  destruct (Nat.eqb i (String.length s)) eqn:E; eauto.
  apply Nat.eqb_neq in E.
  assert (N : (i < String.length s)%nat) by lia.
  clear L E. revert i G N.
  induction s as [| a s IH]; intros i G N; simpl in *; [lia |].
  destruct i; [discriminate |]. apply (IH i); auto; lia.
Qed.

Lemma int_max_nonneg : 0 <= INTMAX_MAX.
Proof. unfold INTMAX_MAX; lia. Qed.

Lemma getwidth_columns_value env st :
  stoint_sane env ->
  getwidth_columns env st = Ok (columns_width env) st.
Proof.
  intro S. unfold getwidth_columns, columns_width.
  destruct (getenv_COLUMNS env) as [columns |]; [| reflexivity].
  destruct (S columns INTMAX_MAX int_max_nonneg) as (_ & E).
  destruct (stoint env columns 0 INTMAX_MAX) as [col e]; simpl in E.
  destruct (deref_in_range columns e E) as (c & D).
  unfold deref_m, bind. rewrite D; simpl.
  destruct (Ascii.eqb c NUL), (col =? 0); reflexivity.
Qed.

Lemma getwidth_value env fp st :
  stoint_sane env ->
  getwidth env fp st = Ok (terminal_width env fp) st.
Proof.
  intro S. unfold getwidth, terminal_width.
  destruct (ioctl_ws_col env fp) as [col |];
    [destruct (0 <? col) |]; auto using getwidth_columns_value.
Qed.

Lemma columns_width_range env :
  stoint_sane env -> 0 < columns_width env <= INTMAX_MAX.
Proof.
  intro S. unfold columns_width.
  destruct (getenv_COLUMNS env) as [columns |];
    [| unfold INTMAX_MAX; lia].
  destruct (S columns INTMAX_MAX int_max_nonneg) as (R & _).
  destruct (stoint env columns 0 INTMAX_MAX) as [col e]; simpl in R.
  destruct (deref columns e) as [c |]; [| unfold INTMAX_MAX; lia].
  destruct (Ascii.eqb c NUL); simpl; [| unfold INTMAX_MAX; lia].
  destruct (col =? 0) eqn:Z0; simpl; [unfold INTMAX_MAX; lia |].
  apply Z.eqb_neq in Z0. lia.
Qed.

Lemma terminal_width_range env fp :
  sane env -> 0 < terminal_width env fp <= INTMAX_MAX.
Proof.
  intros [S W]. unfold terminal_width.
  destruct (ioctl_ws_col env fp) as [col |] eqn:I;
    auto using columns_width_range.
  destruct (0 <? col) eqn:P; auto using columns_width_range.
  apply Z.ltb_lt in P. apply W in I. unfold INTMAX_MAX. lia.
Qed.

Lemma pad_width_value env fp arg st :
  stoint_sane env ->
  pad_width env fp arg st = Ok (pad_target env fp arg) st.
Proof.
  intro S. unfold pad_width, pad_target.
  destruct arg as [a |]; [| now apply getwidth_value].
  unfold width_argument.
  destruct (S a INTMAX_MAX int_max_nonneg) as (_ & E).
  destruct (stoint env a 0 INTMAX_MAX) as [w e]; simpl in E.
  destruct (deref_in_range a e E) as (c & D).
  unfold deref_m, bind. rewrite D; simpl.
  destruct (Nat.eqb e 0 || negb (Ascii.eqb c NUL)); reflexivity.
Qed.

Lemma pad_target_range env fp arg :
  sane env -> 0 <= pad_target env fp arg <= INTMAX_MAX.
Proof.
  intros Sn. unfold pad_target.
  destruct arg as [a |];
    [| pose proof (terminal_width_range env fp Sn); lia].
  unfold width_argument.
  destruct Sn as [S _].
  destruct (S a INTMAX_MAX int_max_nonneg) as (R & _).
  destruct (stoint env a 0 INTMAX_MAX) as [w e]; simpl in R.
  destruct (deref a e) as [c |]; [| unfold INTMAX_MAX; lia].
  destruct (Nat.eqb e 0 || negb (Ascii.eqb c NUL));
    [unfold INTMAX_MAX; lia | lia].
Qed.

(** C3, as the code has it.  A [%*] item sends spaces until the column
    count reaches its target and sends none when the count is already
    there; the target is the live terminal width (probe, then [COLUMNS],
    then 80) when there is no argument, the number in the argument when
    [stoint] takes the whole of it, and 80 when it does not. *)
Theorem pad_directive (env : Env)
    (self : stream -> Z -> option string -> bool -> Z -> M Z) (fp : stream)
    (do_write : bool) (cpn : Z) (opstr : string) (arg : option string)
    (len : Z) (st : State) :
  sane env -> 0 <= len < 2 ^ 64 ->
  let w := pad_target env fp arg in
  run_item env self fp do_write cpn opstr (Directive "*" arg) len st =
    Ok (Z.max len w)
       (set_log (log st ++ repeat (EvPutc fp " ") (Z.to_nat (w - len))) st)
  /\ (w <= len -> Z.to_nat (w - len) = O /\ Z.max len w = len)
  /\ (arg = None -> w = terminal_width env fp)
  /\ (forall a x, arg = Some a -> width_argument env a = Some x -> w = x)
  /\ (forall a, arg = Some a -> width_argument env a = None -> w = 80).
Proof.
  intros Sn L w.
  pose proof (pad_target_range env fp arg Sn) as R. fold w in R.
  assert (T : to_size_t w = w).
  { unfold to_size_t. apply Z.mod_small. unfold INTMAX_MAX in R. lia. }
  split; [| split; [| split; [| split]]].
  - simpl. unfold directive. simpl. unfold bind.
    rewrite (pad_width_value env fp arg st (proj1 Sn)). fold w.
    rewrite put_spaces_log, T. simpl. unfold ret. f_equal.
    destruct (w >? len) eqn:G.
    + apply Z.gtb_lt in G. lia.
    + rewrite Z.gtb_ltb in G. apply Z.ltb_ge in G. lia.
  - intro H. split; lia.
  - intros ->. reflexivity.
  - intros a x -> H. subst w. simpl. now rewrite H.
  - intros a -> H. subst w. simpl. now rewrite H.
Qed.

Lemma digits_prefix_range (s : string) :
  forall acc,
    0 <= acc ->
    0 <= fst (digits_prefix s acc) /\
    (snd (digits_prefix s acc) <= String.length s)%nat.
Proof.
  induction s as [| c s IH]; intros acc A; simpl; [split; lia |].
  destruct (is_digit c) eqn:D; simpl; [| split; lia].
  assert (V : 0 <= digit_value c).
  { unfold is_digit in D. apply andb_true_iff in D. destruct D as [D _].
    apply Nat.leb_le in D. unfold digit_value. lia. }
  destruct (IH (acc * 10 + digit_value c)) as (I1 & I2); [lia |].
  destruct (digits_prefix s (acc * 10 + digit_value c)); simpl in *.
  split; lia.
Qed.

Lemma ref_env_sane : sane ref_env.
Proof.
  split.
  - intros arg maxval M. simpl. unfold stoint_digits.
    destruct (digits_prefix_range arg 0) as (R1 & R2); [lia |].
    destruct (digits_prefix arg 0); simpl in *. split; lia.
  - intros fp col H. simpl in H. inversion H. reflexivity.
Qed.

Lemma pad_directive_witness :
  sane ref_env /\ 0 <= 2 < 2 ^ 64 /\
  run_item ref_env (fun _ _ _ _ _ => ret 0) tty_dev true 1 "write"
    (Directive "*" (Some "5")) 2 (initial_state 1 []) =
  Ok 5 (set_log (repeat (EvPutc tty_dev " ") 3) (initial_state 1 [])).
Proof.
  assert (L : 0 <= 2 < 2 ^ 64) by (split; [discriminate | reflexivity]).
  split; [exact ref_env_sane |]. split; [exact L |].
  exact (proj1 (pad_directive ref_env (fun _ _ _ _ _ => ret 0) tty_dev true 1
                  "write" (Some "5") 2 (initial_state 1 []) ref_env_sane L)).
Defined.

(** The literal reading fails for an argument that is not a number: on a
    terminal of 132 columns [%{x}*] pads to column 80. *)
Lemma invalid_width_pads_to_80 : ~ padding_as_specified.
Proof.
  intro C.
  assert (L : 0 <= 0 < 2 ^ 64) by (split; [discriminate | reflexivity]).
  specialize (C ref_env (fun _ _ _ _ _ => ret 0) tty_dev true 1 "write"
                (Some "x") 0 (initial_state 1 []) ref_env_sane L).
  vm_compute in C. discriminate C.
Qed.

(** ** Labels of the totals *)

Lemma fmtbuf_length (words : list string) :
  (List.length words <= 3)%nat -> List.length (fmtbuf words) = 3%nat.
Proof.
  intro L. unfold fmtbuf.
  rewrite length_app, length_map, repeat_length. lia.
Qed.

(** C4, as the code has it.  Without an argument [%T] uses the default
    labels.  With one, the words that [wordsplit] returns, at most three,
    take the first slots and the slots left are null, so no label is
    printed for them; more than three words, or a failure to split, is
    reported by [paxerror], the default labels are used and the item is
    rendered all the same. *)
Theorem totals_labels (env : Env) (arg : option string) (st : State) :
  (arg = None -> total_labels env arg st = Ok checkpoint_total_format st) /\
  (forall a words,
     arg = Some a -> wordsplit env a = inr words ->
     (List.length words <= 3)%nat ->
     total_labels env arg st =
       Ok (map Some words ++ repeat None (3 - List.length words)) st) /\
  (forall a words,
     arg = Some a -> wordsplit env a = inr words ->
     (3 < List.length words)%nat ->
     total_labels env arg st =
       Ok checkpoint_total_format
          (set_log (log st ++ [EvPaxerror
                                 (gettext env "too many words in '%s'") [a]])
             st)) /\
  (forall a err,
     arg = Some a -> wordsplit env a = inl err ->
     total_labels env arg st =
       Ok checkpoint_total_format
          (set_log (log st ++ [EvPaxerror
                                 (gettext env "cannot split string '%s': %s")
                                 [a; err]])
             st)) /\
  (forall self fp do_write cpn opstr len,
   exists labels st1,
     total_labels env arg
       (set_log (log st ++ [EvComputeDuration]) st) = Ok labels st1 /\
     run_item env self fp do_write cpn opstr (Directive "T" arg) len st =
       Ok (to_size_t (len + strlen (format_total_stats env labels)))
          (set_log (log st1 ++ [EvPuts fp (format_total_stats env labels)])
             st1)).
Proof.
  split; [| split; [| split; [| split]]].
  - intros ->. reflexivity.
  - intros a words -> W L. unfold total_labels. rewrite W.
    apply Nat.ltb_ge in L. rewrite L. reflexivity.
  - intros a words -> W L. unfold total_labels. rewrite W.
    apply Nat.ltb_lt in L. rewrite L. reflexivity.
  - intros a err -> W. unfold total_labels. rewrite W. reflexivity.
  - intros self fp do_write cpn opstr len.
    assert (T : forall s, exists labels s1, total_labels env arg s = Ok labels s1).
    { intro s. unfold total_labels. destruct arg as [a |]; [| eauto].
      destruct (wordsplit env a) as [err | words]; [eexists; eexists; reflexivity |].
      destruct (Nat.ltb 3 (List.length words));
        eexists; eexists; reflexivity. }
    destruct (T (set_log (log st ++ [EvComputeDuration]) st))
      as (labels & st1 & E).
    exists labels, st1. split; [exact E |].
    simpl. unfold directive. simpl.
    unfold bind at 1. unfold emit at 1, modify at 1.
    unfold bind at 1. rewrite E. reflexivity.
Qed.

Lemma totals_labels_witness :
  wordsplit ref_env "read,wrote" = inr ["read"; "wrote"] /\
  (List.length ["read"; "wrote"] <= 3)%nat /\
  total_labels ref_env (Some "read,wrote") (initial_state 1 []) =
    Ok [Some "read"; Some "wrote"; None] (initial_state 1 []).
Proof.
  assert (W : wordsplit ref_env "read,wrote" = inr ["read"; "wrote"])
    by reflexivity.
  assert (L : (List.length ["read"; "wrote"] <= 3)%nat)
    by (repeat constructor).
  split; [exact W |]. split; [exact L |].
  destruct (totals_labels ref_env (Some "read,wrote") (initial_state 1 []))
    as (_ & P & _).
  exact (P "read,wrote" ["read"; "wrote"] eq_refl W L).
Defined.

(** The literal reading fails for the argument of the default template
    itself: the third slot is null, not the default label. *)
Lemma partial_labels_are_null : ~ partial_labels_as_specified.
Proof.
  intro C.
  assert (L : (List.length ["read"; "wrote"] <= 3)%nat)
    by (repeat constructor).
  specialize (C ref_env "read,wrote" ["read"; "wrote"] (initial_state 1 [])
                eq_refl L).
  vm_compute in C. discriminate C.
Qed.

(** ** Shutdown *)

Lemma flush_action_value env p st :
  stoint_sane env ->
  flush_action env p st =
    Ok tt (set_log
             (log st ++
              match opcode p with
              | cop_ttyout =>
                  if tty st && tty_cleanup st
                  then clear_line (terminal_width env tty_dev)
                  else []
              | _ => []
              end) st).
Proof.
  intro S. unfold flush_action.
  destruct (opcode p); try (rewrite app_nil_r, set_log_same; reflexivity).
  unfold bind, get.
  destruct (tty st && tty_cleanup st);
    [| rewrite app_nil_r, set_log_same; reflexivity].
  rewrite (getwidth_value env tty_dev st S), put_spaces_log.
  unfold fputc, fflush, emit, modify, clear_line, set_log; simpl.
  rewrite <- !app_assoc. reflexivity.
Qed.

Lemma flush_walk_value env prog :
  stoint_sane env ->
  forall st,
    flush_walk env prog st =
      Ok tt (set_log
               (log st ++
                flat_map
                  (fun p => match opcode p with
                            | cop_ttyout =>
                                if tty st && tty_cleanup st
                                then clear_line (terminal_width env tty_dev)
                                else []
                            | _ => []
                            end) prog) st).
Proof.
  intro S. induction prog as [| p prog IH]; intro st; simpl.
  - rewrite app_nil_r, set_log_same. reflexivity.
  - unfold bind. rewrite flush_action_value by auto. rewrite IH.
    unfold set_log; simpl. rewrite <- app_assoc. reflexivity.
Qed.

Lemma checkpoint_finish_value env st :
  checkpoint_option st <> 0 -> stoint_sane env ->
  checkpoint_finish env st =
    Ok tt (set_log
             (log st ++ flush_trace env st
              ++ (if tty st then [EvFclose tty_dev] else [])) st).
Proof.
  intros O S. unfold checkpoint_finish, checkpoint_flush_actions, bind, get.
  apply Z.eqb_neq in O. rewrite O.
  rewrite flush_walk_value by auto. simpl. unfold flush_trace.
  destruct (tty st).
  - unfold emit, modify, set_log; simpl. rewrite <- app_assoc. reflexivity.
  - rewrite app_nil_r. reflexivity.
Qed.

Lemma literal_keeps_flag env self fp do_write cpn opstr c len st :
  c <> CR ->
  run_item env self fp do_write cpn opstr (Literal c) len st =
    Ok (to_size_t (len + 1)) (set_log (log st ++ [EvPutc fp c]) st).
Proof.
  intro N. simpl. unfold bind, fputc, emit, modify.
  destruct (Ascii.eqb c CR) eqn:E; [| reflexivity].
  apply Ascii.eqb_eq in E. contradiction.
Qed.

Lemma total_labels_flag env arg st :
  tty_cleanup (final (total_labels env arg st)) = tty_cleanup st.
Proof.
  unfold total_labels. destruct arg as [a |]; [| reflexivity].
  destruct (wordsplit env a) as [err | words]; [reflexivity |].
  destruct (Nat.ltb 3 (List.length words)); reflexivity.
Qed.

Lemma getwidth_flag env fp st :
  tty_cleanup (final (getwidth env fp st)) = tty_cleanup st.
Proof.
  assert (C : tty_cleanup (final (getwidth_columns env st)) = tty_cleanup st).
  { unfold getwidth_columns.
    destruct (getenv_COLUMNS env) as [columns |]; [| reflexivity].
    destruct (stoint env columns 0 INTMAX_MAX) as [col e].
    unfold bind, deref_m. destruct (deref columns e) as [c |]; [| reflexivity].
    simpl. destruct (negb (negb (Ascii.eqb c NUL) || (col =? 0)));
      reflexivity. }
  unfold getwidth. destruct (ioctl_ws_col env fp) as [col |]; auto.
  destruct (0 <? col); auto.
Qed.

Lemma pad_width_flag env fp arg st :
  tty_cleanup (final (pad_width env fp arg st)) = tty_cleanup st.
Proof.
  unfold pad_width. destruct arg as [a |]; [| apply getwidth_flag].
  destruct (stoint env a 0 INTMAX_MAX) as [w e].
  unfold bind, deref_m. destruct (deref a e) as [c |]; [| reflexivity].
  simpl. destruct (Nat.eqb e 0 || negb (Ascii.eqb c NUL)); reflexivity.
Qed.

(** Apart from [%c], no directive touches the dirty flag. *)
Lemma directive_keeps_flag env self fp do_write cpn opstr d arg len st :
  Ascii.eqb d "c" = false ->
  tty_cleanup (final (directive env self fp do_write cpn opstr d arg len st))
  = tty_cleanup st.
Proof.
  intro N. unfold directive. rewrite N.
  destruct (Ascii.eqb d "u"); [reflexivity |].
  destruct (Ascii.eqb d "s"); [reflexivity |].
  destruct (Ascii.eqb d "d"); [reflexivity |].
  destruct (Ascii.eqb d "T").
  { unfold bind at 1. unfold emit at 1, modify at 1. unfold bind at 1.
    pose proof (total_labels_flag env arg
                  (set_log (log st ++ [EvComputeDuration]) st)) as T.
    destruct (total_labels env arg _) as [fmt st1 | why st1]; simpl in *;
      exact T. }
  destruct (Ascii.eqb d "t").
  { destruct (current_timespec env) as [sec nsec]. reflexivity. }
  destruct (Ascii.eqb d "*"); [| reflexivity].
  unfold bind at 1.
  pose proof (pad_width_flag env fp arg st) as P.
  destruct (pad_width env fp arg st) as [w st1 | why st1]; simpl in *;
    [| exact P].
  unfold bind. rewrite put_spaces_log. simpl. exact P.
Qed.

(** C8.  With checkpointing disabled [checkpoint_finish] does nothing.
    With it enabled the action list is walked and every [ttyout] action,
    when the terminal is open and the dirty flag is set, sends as many
    spaces as the terminal is wide, a carriage return and a flush; then the
    terminal is closed if it is open.  The flag is set by the item of a raw
    carriage return, which also brings the column count to zero, and no
    other item sets it but [%c], whose template ends in such a carriage
    return. *)
Theorem finish_clears_status_line (env : Env) (st : State) :
  (checkpoint_option st = 0 -> checkpoint_finish env st = Ok tt st) /\
  (checkpoint_option st <> 0 -> sane env ->
   checkpoint_finish env st =
     Ok tt (set_log
              (log st ++ flush_trace env st
               ++ (if tty st then [EvFclose tty_dev] else [])) st) /\
   0 < terminal_width env tty_dev) /\
  (forall self fp do_write cpn opstr len s,
     run_item env self fp do_write cpn opstr (Literal CR) len s =
       Ok 0 (set_tty_cleanup true (set_log (log s ++ [EvPutc fp CR]) s))) /\
  (forall self fp do_write cpn opstr it len s,
     it <> Literal CR -> is_c_directive it = false ->
     tty_cleanup (final (run_item env self fp do_write cpn opstr it len s))
     = tty_cleanup s).
Proof.
  split; [| split; [| split]].
  - intro O. unfold checkpoint_finish, bind, get. rewrite O. reflexivity.
  - intros O Sn. split.
    + apply checkpoint_finish_value; [exact O | exact (proj1 Sn)].
    + apply terminal_width_range. exact Sn.
  - reflexivity.
  - intros self fp do_write cpn opstr it len s N C.
    destruct it as [c | | d arg].
    + rewrite literal_keeps_flag by congruence. reflexivity.
    + reflexivity.
    + simpl in *. now apply directive_keeps_flag.
Qed.

Lemma finish_clears_status_line_witness :
  let st := set_tty_cleanup true
              (set_tty true
                 (set_checkpoint_action
                    [mkAction cop_ttyout (v_command "%u"); mkAction cop_dot v_zero]
                    (initial_state 1 []))) in
  checkpoint_option st <> 0 /\ sane ref_env /\
  checkpoint_finish ref_env st =
    Ok tt (set_log (repeat (EvPutc tty_dev " ") 132
                    ++ [EvPutc tty_dev CR; EvFlush tty_dev; EvFclose tty_dev])
             st).
Proof.
  intro st.
  assert (O : checkpoint_option st <> 0) by discriminate.
  split; [exact O |]. split; [exact ref_env_sane |].
  destruct (finish_clears_status_line ref_env st) as (_ & F & _).
  exact (proj1 (F O ref_env_sane)).
Defined.
Lemma deref_cons (a : ascii) (s : string) (i : nat) :
  deref (String a s) (S i) = deref s i.
Proof. reflexivity. Qed.

Lemma str_plus_cons (a : ascii) (s : string) (k : nat) :
  str_plus (String a s) (S k) = str_plus s k.
Proof. reflexivity. Qed.

Lemma strchr_from_shift (s : string) (c : ascii) :
  forall i, strchr_from s c (S i) = option_map S (strchr_from s c i).
Proof.
  induction s as [| a s IH]; intro i; simpl; auto.
  destruct (Ascii.eqb a c); auto.
Qed.

Lemma getarg_cons (a : ascii) (s : string) (ip : nat) :
  getarg (String a s) (S ip) =
    option_map (fun r => (fst r, S (snd r))) (getarg s ip).
Proof.
  unfold getarg. rewrite deref_cons.
  destruct (deref s ip) as [c |]; [| reflexivity].
  destruct (Ascii.eqb c "{"); [| reflexivity].
  unfold strchr. rewrite str_plus_cons, strchr_from_shift.
  destruct (strchr_from (str_plus s (S ip)) "}" (S ip)) as [p |];
    reflexivity.
Qed.

Lemma scan_cons (a : ascii) (s : string) (n : nat) :
  forall ip, scan (String a s) n (S ip) = scan s n ip.
Proof.
  induction n as [| n IH]; intro ip; cbn [scan]; rewrite deref_cons.
  - reflexivity.
  - destruct (deref s ip) as [c |]; [| reflexivity].
    destruct (Ascii.eqb c NUL); [reflexivity |].
    destruct (Ascii.eqb c "%").
    + rewrite deref_cons.
      destruct (deref s (S ip)) as [c1 |]; [| reflexivity].
      destruct (Ascii.eqb c1 "{").
      * rewrite getarg_cons.
        destruct (getarg s (S ip)) as [[arg ip'] |]; cbn [option_map fst snd].
        -- rewrite deref_cons. destruct (deref s ip'); [| reflexivity].
           now rewrite IH.
        -- now rewrite IH.
      * now rewrite IH.
    + now rewrite IH.
Qed.

(** More rounds than characters left change nothing. *)
Lemma scan_rounds_enough (s : string) (n : nat) :
  forall m ip, (String.length s <= n + ip)%nat -> (n <= m)%nat ->
               scan s m ip = scan s n ip.
Proof.
  induction n as [| n IH]; intros m ip L M.
  - destruct m as [| m]; [reflexivity |]. cbn [scan].
    destruct (deref s ip) as [c |] eqn:D; [| reflexivity].
    destruct (Ascii.eqb c NUL) eqn:E; [reflexivity |].
    apply deref_some in D. destruct D as [D | [_ D]]; [lia |].
    subst c. discriminate E.
  - destruct m as [| m]; [lia |]. cbn [scan].
    destruct (deref s ip) as [c |]; [| reflexivity].
    destruct (Ascii.eqb c NUL); [reflexivity |].
    destruct (Ascii.eqb c "%").
    + destruct (deref s (S ip)) as [c1 |]; [| reflexivity].
      destruct (Ascii.eqb c1 "{").
      * destruct (getarg s (S ip)) as [[arg ip'] |] eqn:G.
        -- destruct (deref s ip'); [| reflexivity].
           apply getarg_forward in G. rewrite (IH m) by lia. reflexivity.
        -- rewrite (IH m) by lia. reflexivity.
      * rewrite (IH m) by lia. reflexivity.
    + rewrite (IH m) by lia. reflexivity.
Qed.

Lemma scan_app (pre s : string) (n : nat) :
  forall ip, scan (pre ++ s) n (String.length pre + ip) = scan s n ip.
Proof.
  induction pre as [| a pre IH]; intro ip; [reflexivity |].
  cbn [append String.length Nat.add]. rewrite scan_cons. apply IH.
Qed.

Lemma substring_all (s : string) : substring 0 (String.length s) s = s.
Proof. induction s as [| a s IH]; simpl; [reflexivity | now rewrite IH]. Qed.

Lemma str_plus_0 (s : string) : str_plus s 0 = s.
Proof. unfold str_plus. rewrite Nat.sub_0_r. apply substring_all. Qed.

Lemma strchr_from_lacks (s : string) (c : ascii) :
  forall i, lacks c s = true -> strchr_from s c i = None.
Proof.
  induction s as [| a s IH]; intros i L; simpl in *; [reflexivity |].
  apply andb_true_iff in L. destruct L as [L1 L2].
  apply negb_true_iff in L1. rewrite L1. auto.
Qed.

Lemma strchr_from_first (arg rest : string) (c : ascii) :
  forall i, lacks c arg = true ->
            strchr_from (arg ++ String c rest) c i
            = Some (i + String.length arg)%nat.
Proof.
  induction arg as [| a arg IH]; intros i L; simpl in *.
  - rewrite Ascii.eqb_refl. f_equal. lia.
  - apply andb_true_iff in L. destruct L as [L1 L2].
    apply negb_true_iff in L1. rewrite L1, IH by auto. f_equal. lia.
Qed.

Lemma append_assoc_cons (a b : string) (c : ascii) :
  (String c a ++ b)%string = String c (a ++ b).
Proof. reflexivity. Qed.

(** The argument of a directive is the text up to the first closing
    brace; the scan goes on just after that brace. *)
Lemma getarg_braced (arg rest : string) :
  lacks "}" arg = true ->
  getarg (String "{" (arg ++ String "}" rest)) 0
  = Some (arg, (String.length arg + 2)%nat).
Proof.
  intro L. unfold getarg.
  change (deref (String "{" (arg ++ String "}" rest)) 0) with (Some "{"%char).
  cbv iota. change (Ascii.eqb "{" "{") with true. cbv iota.
  unfold strchr. rewrite str_plus_cons, str_plus_0.
  rewrite strchr_from_first by auto.
  cbn [Nat.add]. rewrite Nat.sub_0_r.
  cbn [substring Nat.sub]. rewrite Nat.sub_0_r, substring_0_app.
  f_equal. f_equal. lia.
Qed.

(** Without a closing brace there is no argument. *)
Lemma getarg_unclosed (text : string) :
  lacks "}" text = true -> getarg (String "{" text) 0 = None.
Proof.
  intro L. unfold getarg.
  change (deref (String "{" text) 0) with (Some "{"%char).
  cbv iota. change (Ascii.eqb "{" "{") with true. cbv iota.
  unfold strchr. rewrite str_plus_cons, str_plus_0.
  now rewrite strchr_from_lacks.
Qed.

Lemma scan_pair (s : string) (n : nat) (ip : nat) :
  scan s n ip = (fst (scan s n ip), snd (scan s n ip)).
Proof. destruct (scan s n ip); reflexivity. Qed.

(** One round of [scan]. *)
Lemma scan_S (input : string) (n : nat) (ip : nat) :
  scan input (S n) ip =
    match deref input ip with
    | None => ([], PastTerminator)
    | Some c =>
        if Ascii.eqb c NUL then ([], AtTerminator)
        else if Ascii.eqb c "%" then
          match deref input (S ip) with
          | None => ([], PastTerminator)
          | Some c1 =>
              if Ascii.eqb c1 "{" then
                match getarg input (S ip) with
                | None =>
                    (OpenBrace :: fst (scan input n (S (S ip))),
                     snd (scan input n (S (S ip))))
                | Some (arg, ip') =>
                    match deref input ip' with
                    | None => ([], PastTerminator)
                    | Some d =>
                        (Directive d (Some arg) :: fst (scan input n (S ip')),
                         snd (scan input n (S ip')))
                    end
                end
              else
                (Directive c1 None :: fst (scan input n (S (S ip))),
                 snd (scan input n (S (S ip))))
          end
        else
          (Literal c :: fst (scan input n (S ip)),
           snd (scan input n (S ip)))
    end.
Proof.
  cbn [scan].
  destruct (deref input ip) as [c |]; [| reflexivity].
  destruct (Ascii.eqb c NUL); [reflexivity |].
  destruct (Ascii.eqb c "%").
  - destruct (deref input (S ip)) as [c1 |]; [| reflexivity].
    destruct (Ascii.eqb c1 "{").
    + destruct (getarg input (S ip)) as [[arg ip'] |].
      * destruct (deref input ip'); [| reflexivity].
        destruct (scan input n (S ip')); reflexivity.
      * destruct (scan input n (S (S ip))); reflexivity.
    + destruct (scan input n (S (S ip))); reflexivity.
  - destruct (scan input n (S ip)); reflexivity.
Qed.

(** A literal character is one item. *)
Lemma items_literal (c : ascii) (s : string) :
  Ascii.eqb c NUL = false -> Ascii.eqb c "%" = false ->
  items (String c s) = Literal c :: items s /\
  template_end (String c s) = template_end s.
Proof.
  intros N P. unfold items, template_end. cbn [String.length].
  rewrite scan_S.
  change (deref (String c s) 0) with (Some c). cbv iota.
  rewrite N, P, scan_cons. split; reflexivity.
Qed.

(** A percent sign and a letter are one item. *)
Lemma items_directive (d : ascii) (s : string) :
  Ascii.eqb d "{" = false ->
  items (String "%" (String d s)) = Directive d None :: items s /\
  template_end (String "%" (String d s)) = template_end s.
Proof.
  intros B. unfold items, template_end. cbn [String.length].
  rewrite scan_S.
  change (deref (String "%" (String d s)) 0) with (Some "%"%char).
  cbv iota. change (Ascii.eqb "%" NUL) with false.
  change (Ascii.eqb "%" "%") with true. cbv iota.
  change (deref (String "%" (String d s)) 1) with (Some d). cbv iota.
  rewrite B, !scan_cons.
  rewrite (scan_rounds_enough s (String.length s) (S (String.length s)) 0)
    by lia.
  split; reflexivity.
Qed.

Lemma deref_app (pre s : string) :
  forall i, deref (pre ++ s) (String.length pre + i) = deref s i.
Proof.
  induction pre as [| a pre IH]; intro i; [reflexivity |].
  cbn [append String.length Nat.add]. rewrite deref_cons. apply IH.
Qed.

Lemma length_append_string (a b : string) :
  String.length (a ++ b) = (String.length a + String.length b)%nat.
Proof. induction a as [| c a IH]; simpl; [reflexivity | now rewrite IH]. Qed.

(** A percent sign, a braced argument and a letter are one item. *)
Lemma items_braced (arg : string) (d : ascii) (s : string) :
  lacks "}" arg = true ->
  let template := String "%" (String "{" (arg ++ String "}" (String d s))) in
  items template = Directive d (Some arg) :: items s /\
  template_end template = template_end s.
Proof.
  intros L template. unfold items, template_end.
  assert (N : String.length template
              = S (String.length arg + 3 + String.length s)).
  { subst template. cbn [String.length]. rewrite length_append_string.
    cbn [String.length]. lia. }
  rewrite N, scan_S.
  change (deref template 0) with (Some "%"%char). cbv iota.
  change (Ascii.eqb "%" NUL) with false.
  change (Ascii.eqb "%" "%") with true. cbv iota.
  change (deref template 1) with (Some "{"%char). cbv iota.
  change (Ascii.eqb "{" "{") with true. cbv iota.
  subst template. rewrite getarg_cons, getarg_braced by auto.
  cbn [option_map fst snd].
  assert (D : deref (String "%" (String "{" (arg ++ String "}" (String d s))))
                (S (String.length arg + 2)) = Some d).
  { rewrite deref_cons.
    replace (String.length arg + 2)%nat with (S (String.length arg + 1))
      by lia.
    rewrite deref_cons, deref_app. reflexivity. }
  rewrite D.
  assert (R : forall n,
             scan (String "%" (String "{" (arg ++ String "}" (String d s))))
               n (S (S (String.length arg + 2))) = scan s n 0).
  { intro n. rewrite scan_cons.
    replace (S (String.length arg + 2)) with (S (String.length arg + 2))
      by lia.
    rewrite scan_cons, scan_app.
    change 2%nat with (S (S 0)). rewrite !scan_cons. reflexivity. }
  rewrite R.
  rewrite (scan_rounds_enough s (String.length s)
             (String.length arg + 3 + String.length s) 0) by lia.
  split; reflexivity.
Qed.

(** A percent sign and an opening brace that is never closed are one
    item; the text after the brace is scanned as a template of its own. *)
Lemma items_unclosed (text : string) :
  lacks "}" text = true ->
  items (String "%" (String "{" text)) = OpenBrace :: items text /\
  template_end (String "%" (String "{" text)) = template_end text.
Proof.
  intro L. unfold items, template_end. cbn [String.length].
  rewrite scan_S.
  change (deref (String "%" (String "{" text)) 0) with (Some "%"%char).
  cbv iota. change (Ascii.eqb "%" NUL) with false.
  change (Ascii.eqb "%" "%") with true. cbv iota.
  change (deref (String "%" (String "{" text)) 1) with (Some "{"%char).
  cbv iota. change (Ascii.eqb "{" "{") with true. cbv iota.
  rewrite getarg_cons, getarg_unclosed by auto. cbn [option_map].
  rewrite !scan_cons.
  rewrite (scan_rounds_enough text (String.length text)
             (S (String.length text)) 0) by lia.
  split; reflexivity.
Qed.

Lemma items_plain (s : string) :
  lacks "%" s = true -> lacks NUL s = true ->
  items s = map Literal (list_ascii_of_string s) /\
  template_end s = AtTerminator.
Proof.
  induction s as [| c s IH]; intros P N; [split; reflexivity |].
  simpl in P, N.
  apply andb_true_iff in P. destruct P as [P1 P2].
  apply andb_true_iff in N. destruct N as [N1 N2].
  apply negb_true_iff in P1. apply negb_true_iff in N1.
  destruct (items_literal c s N1 P1) as (I & E).
  destruct (IH P2 N2) as (I2 & E2).
  rewrite I, E, I2, E2. split; reflexivity.
Qed.

(** ** Rendering by shape *)

Lemma to_size_t_small (z : Z) : 0 <= z < 2 ^ 64 -> to_size_t z = z.
Proof. intro R. unfold to_size_t. now apply Z.mod_small. Qed.

Lemma to_size_t_range (z : Z) : 0 <= to_size_t z < 2 ^ 64.
Proof. unfold to_size_t. apply Z.mod_pos_bound. reflexivity. Qed.

Lemma to_size_t_add (a b : Z) : to_size_t (to_size_t a + b) = to_size_t (a + b).
Proof. unfold to_size_t. apply Zplus_mod_idemp_l. Qed.

Lemma set_log_twice (st : State) (a b : list event) :
  set_log (log (set_log (log st ++ a) st) ++ b) (set_log (log st ++ a) st)
  = set_log (log st ++ a ++ b) st.
Proof. unfold set_log; simpl. now rewrite app_assoc. Qed.

Lemma passes_through_cons (c : ascii) (s : string) :
  passes_through (String c s) = true ->
  Ascii.eqb c "%" = false /\ Ascii.eqb c NUL = false /\
  Ascii.eqb c CR = false /\ passes_through s = true.
Proof.
  unfold passes_through. simpl. intro H.
  repeat (apply andb_true_iff in H; destruct H as [H ?]).
  repeat match goal with
         | X : _ && _ = true |- _ => apply andb_true_iff in X; destruct X
         | X : negb _ = true |- _ => apply negb_true_iff in X
         end.
  repeat split; auto.
  repeat (apply andb_true_iff; split); auto.
Qed.

Lemma passes_through_plain (s : string) :
  passes_through s = true ->
  lacks "%" s = true /\ lacks NUL s = true /\ lacks CR s = true.
Proof.
  unfold passes_through. intro H.
  apply andb_true_iff in H. destruct H as [H H3].
  apply andb_true_iff in H. destruct H as [H1 H2]. auto.
Qed.

(** Literal items send their characters and count one column each. *)
Lemma run_literals env self fp do_write cpn opstr (s : string) :
  lacks CR s = true ->
  forall len st,
    0 <= len < 2 ^ 64 ->
    run_items env self fp do_write cpn opstr
      (map Literal (list_ascii_of_string s)) len st =
    Ok (to_size_t (len + strlen s))
       (set_log (log st ++ putc_events fp s) st).
Proof.
  induction s as [| c s IH]; intros L len st R.
  - simpl. unfold strlen, putc_events. simpl.
    rewrite Z.add_0_r, to_size_t_small, app_nil_r, set_log_same by auto.
    reflexivity.
  - simpl in L. apply andb_true_iff in L. destruct L as [L1 L2].
    apply negb_true_iff in L1.
    cbn [list_ascii_of_string map run_items]. unfold bind.
    rewrite literal_keeps_flag
      by (intro E; subst c; discriminate L1).
    rewrite IH by (auto using to_size_t_range).
    rewrite to_size_t_add, set_log_twice. f_equal.
    unfold strlen. cbn [String.length]. f_equal. lia.
Qed.

(** A rendering whose items all succeed on a template that ends at its
    terminator flushes the stream and returns the column count as an
    [int]. *)
Lemma render_ok d env fp len template do_write cpn st l st1 :
  run_items env (format_checkpoint_string d env) fp do_write cpn
    (if do_write then gettext env "write" else gettext env "read")
    (items template) len st = Ok l st1 ->
  template_end template = AtTerminator ->
  format_checkpoint_string (S d) env fp len (Some template) do_write cpn st =
    Ok (to_int l) (set_log (log st1 ++ [EvFlush fp]) st1).
Proof.
  intros I E. rewrite format_checkpoint_string_items.
  unfold bind at 1. unfold bind at 1. rewrite I, E. reflexivity.
Qed.

(** X1.  A template without percent sign, carriage return or NUL is sent
    as it is, character by character, followed by one flush; the column
    count grows by its length. *)
Theorem literal_template (d : nat) (env : Env) (fp : stream) (len : Z)
    (template : string) (do_write : bool) (cpn : Z) (st : State) :
  passes_through template = true ->
  0 <= len < 2 ^ 64 ->
  format_checkpoint_string (S d) env fp len (Some template) do_write cpn st =
    Ok (to_int (to_size_t (len + strlen template)))
       (set_log (log st ++ putc_events fp template ++ [EvFlush fp]) st).
Proof.
  intros P R. destruct (passes_through_plain _ P) as (P1 & P2 & P3).
  destruct (items_plain template P1 P2) as (I & E).
  erewrite render_ok; [| rewrite I; apply run_literals; auto | exact E].
  now rewrite set_log_twice.
Qed.

Lemma literal_template_witness :
  passes_through "abc" = true /\ 0 <= 0 < 2 ^ 64 /\
  format_checkpoint_string 1 ref_env stderr 0 (Some "abc") false 7
    (initial_state 0 []) =
  Ok 3 (set_log [EvPutc stderr "a"; EvPutc stderr "b"; EvPutc stderr "c";
                 EvFlush stderr] (initial_state 0 [])).
Proof.
  assert (R : 0 <= 0 < 2 ^ 64) by (split; [discriminate | reflexivity]).
  split; [reflexivity |]. split; [exact R |].
  exact (literal_template 0 ref_env stderr 0 "abc" false 7
           (initial_state 0 []) eq_refl R).
Defined.

Lemma unknown_letter_item env self fp do_write cpn opstr d arg len st :
  known_letter d = false ->
  run_item env self fp do_write cpn opstr (Directive d arg) len st =
    Ok (to_size_t (len + 2))
       (set_log (log st ++ [EvPutc fp "%"; EvPutc fp d]) st).
Proof.
  unfold known_letter. intro K.
  repeat (apply orb_false_elim in K; destruct K as [K ?]).
  cbn [run_item]. unfold directive.
  repeat match goal with
         | H : Ascii.eqb d _ = false |- _ => rewrite H; clear H
         end.
  unfold bind, fputc, emit, modify, ret, set_log; simpl.
  now rewrite <- app_assoc.
Qed.

(** X2.  A letter that the interpreter does not know is sent back with
    its percent sign, two columns wide, and the text after it follows:
    the template comes out unchanged.  This includes a doubled percent
    sign, which is not an escape for a single one. *)
Theorem unknown_directive_verbatim (k : nat) (env : Env) (fp : stream)
    (len : Z) (d : ascii) (text : string) (do_write : bool) (cpn : Z)
    (st : State) :
  known_letter d = false -> Ascii.eqb d "{" = false ->
  passes_through text = true ->
  0 <= len < 2 ^ 64 ->
  let template := String "%" (String d text) in
  format_checkpoint_string (S k) env fp len (Some template) do_write cpn st =
    Ok (to_int (to_size_t (len + strlen template)))
       (set_log (log st ++ putc_events fp template ++ [EvFlush fp]) st).
Proof.
  intros K B P R template.
  destruct (passes_through_plain _ P) as (P1 & P2 & P3).
  destruct (items_plain text P1 P2) as (I & E).
  destruct (items_directive d text B) as (I2 & E2).
  erewrite render_ok; [| | subst template; rewrite E2; exact E].
  2:{ subst template. rewrite I2, I. cbn [run_items]. unfold bind.
      rewrite unknown_letter_item by auto.
      apply run_literals; auto using to_size_t_range. }
  rewrite to_size_t_add, set_log_twice. f_equal.
  - do 2 f_equal. subst template. unfold strlen. cbn [String.length]. lia.
  - subst template. unfold set_log, putc_events; simpl.
    rewrite <- !app_assoc. reflexivity.
Qed.

Lemma unknown_directive_verbatim_witness :
  known_letter "%" = false /\ Ascii.eqb "%" "{" = false /\
  passes_through " done" = true /\ 0 <= 0 < 2 ^ 64 /\
  format_checkpoint_string 1 ref_env stderr 0 (Some "%% done") false 7
    (initial_state 0 []) =
  Ok 7 (set_log (putc_events stderr "%% done" ++ [EvFlush stderr])
          (initial_state 0 [])).
Proof.
  assert (R : 0 <= 0 < 2 ^ 64) by (split; [discriminate | reflexivity]).
  repeat (split; [reflexivity |]). split; [exact R |].
  exact (unknown_directive_verbatim 0 ref_env stderr 0 "%" " done" false 7
           (initial_state 0 []) eq_refl eq_refl eq_refl R).
Defined.

(** X3.  When an unknown letter carries a braced argument, the argument
    and its braces are lost: only the percent sign and the letter are
    sent, and two columns are counted. *)
Theorem unknown_directive_drops_argument (k : nat) (env : Env) (fp : stream)
    (len : Z) (arg : string) (d : ascii) (text : string) (do_write : bool)
    (cpn : Z) (st : State) :
  known_letter d = false -> lacks "}" arg = true ->
  passes_through text = true ->
  0 <= len < 2 ^ 64 ->
  format_checkpoint_string (S k) env fp len
    (Some (String "%" (String "{" (arg ++ String "}" (String d text)))))
    do_write cpn st =
    Ok (to_int (to_size_t (len + 2 + strlen text)))
       (set_log (log st ++ putc_events fp (String "%" (String d text))
                 ++ [EvFlush fp]) st).
Proof.
  intros K L P R.
  destruct (passes_through_plain _ P) as (P1 & P2 & P3).
  destruct (items_plain text P1 P2) as (I & E).
  destruct (items_braced arg d text L) as (I2 & E2).
  erewrite render_ok; [| | rewrite E2; exact E].
  2:{ rewrite I2, I. cbn [run_items]. unfold bind.
      rewrite unknown_letter_item by auto.
      apply run_literals; auto using to_size_t_range. }
  rewrite to_size_t_add, set_log_twice. f_equal.
  unfold set_log, putc_events; simpl.
  rewrite <- !app_assoc. reflexivity.
Qed.

Lemma unknown_directive_drops_argument_witness :
  known_letter "x" = false /\ lacks "}" "lost" = true /\
  passes_through "!" = true /\ 0 <= 0 < 2 ^ 64 /\
  format_checkpoint_string 1 ref_env stderr 0 (Some "%{lost}x!") false 7
    (initial_state 0 []) =
  Ok 3 (set_log (putc_events stderr "%x!" ++ [EvFlush stderr])
          (initial_state 0 [])).
Proof.
  assert (R : 0 <= 0 < 2 ^ 64) by (split; [discriminate | reflexivity]).
  repeat (split; [reflexivity |]). split; [exact R |].
  exact (unknown_directive_drops_argument 0 ref_env stderr 0 "lost" "x" "!"
           false 7 (initial_state 0 []) eq_refl eq_refl eq_refl R).
Defined.

(** X4.  A percent sign and an opening brace without any closing brace
    after them are sent as they are, two columns wide, and the text after
    the brace is read as ordinary template text. *)
Theorem unclosed_brace_verbatim (k : nat) (env : Env) (fp : stream)
    (len : Z) (text : string) (do_write : bool) (cpn : Z) (st : State) :
  lacks "}" text = true -> passes_through text = true ->
  0 <= len < 2 ^ 64 ->
  let template := String "%" (String "{" text) in
  format_checkpoint_string (S k) env fp len (Some template) do_write cpn st =
    Ok (to_int (to_size_t (len + strlen template)))
       (set_log (log st ++ putc_events fp template ++ [EvFlush fp]) st).
Proof.
  intros L P R template.
  destruct (passes_through_plain _ P) as (P1 & P2 & P3).
  destruct (items_plain text P1 P2) as (I & E).
  destruct (items_unclosed text L) as (I2 & E2).
  erewrite render_ok; [| | subst template; rewrite E2; exact E].
  2:{ subst template. rewrite I2, I. cbn [run_items run_item]. unfold bind.
      unfold fputc, emit, modify, ret. cbn beta iota.
      apply run_literals; auto using to_size_t_range. }
  rewrite to_size_t_add, set_log_twice. f_equal.
  - do 2 f_equal. subst template. unfold strlen. cbn [String.length]. lia.
  - subst template. unfold set_log, putc_events; simpl.
    rewrite <- !app_assoc. reflexivity.
Qed.

Lemma unclosed_brace_verbatim_witness :
  lacks "}" "5*" = true /\ passes_through "5*" = true /\ 0 <= 0 < 2 ^ 64 /\
  format_checkpoint_string 1 ref_env stderr 0 (Some "%{5*") false 7
    (initial_state 0 []) =
  Ok 4 (set_log (putc_events stderr "%{5*" ++ [EvFlush stderr])
          (initial_state 0 [])).
Proof.
  assert (R : 0 <= 0 < 2 ^ 64) by (split; [discriminate | reflexivity]).
  repeat (split; [reflexivity |]). split; [exact R |].
  exact (unclosed_brace_verbatim 0 ref_env stderr 0 "5*" false 7
           (initial_state 0 []) eq_refl eq_refl R).
Defined.

(** ** Rendering returns unless the template dangles *)

Lemma total_labels_ok env arg st :
  exists labels st', total_labels env arg st = Ok labels st'.
Proof.
  unfold total_labels. destruct arg as [a |]; [| eauto].
  destruct (wordsplit env a) as [err | words];
    [eexists; eexists; reflexivity |].
  destruct (Nat.ltb 3 (List.length words)); eexists; eexists; reflexivity.
Qed.

Section ItemsReturn.

Variable env : Env.
Variable self : stream -> Z -> option string -> bool -> Z -> M Z.
Hypothesis env_sane : sane env.
Hypothesis self_ok : forall fp len do_write cpn st,
  exists r st', self fp len (Some def_format) do_write cpn st = Ok r st'.

Lemma directive_ok fp do_write cpn opstr d arg len st :
  exists l st',
    directive env self fp do_write cpn opstr d arg len st = Ok l st'.
Proof.
  unfold directive.
  destruct (Ascii.eqb d "c").
  { destruct (self_ok fp len do_write cpn st) as (r & st' & E).
    unfold bind. rewrite E. eexists; eexists; reflexivity. }
  destruct (Ascii.eqb d "u"); [eexists; eexists; reflexivity |].
  destruct (Ascii.eqb d "s"); [eexists; eexists; reflexivity |].
  destruct (Ascii.eqb d "d"); [eexists; eexists; reflexivity |].
  destruct (Ascii.eqb d "T").
  { unfold bind at 1. unfold emit at 1, modify at 1. unfold bind at 1.
    destruct (total_labels_ok env arg
                (set_log (log st ++ [EvComputeDuration]) st))
      as (labels & st' & E).
    rewrite E. eexists; eexists; reflexivity. }
  destruct (Ascii.eqb d "t").
  { destruct (current_timespec env). eexists; eexists; reflexivity. }
  destruct (Ascii.eqb d "*"); [| eexists; eexists; reflexivity].
  unfold bind. rewrite (pad_width_value env fp arg st (proj1 env_sane)).
  rewrite put_spaces_log. eexists; eexists; reflexivity.
Qed.

Lemma run_item_ok fp do_write cpn opstr it len st :
  exists l st', run_item env self fp do_write cpn opstr it len st = Ok l st'.
Proof.
  destruct it as [c | | d arg].
  - cbn [run_item]. unfold bind, fputc, emit, modify.
    destruct (Ascii.eqb c CR); eexists; eexists; reflexivity.
  - eexists; eexists; reflexivity.
  - apply directive_ok.
Qed.

Lemma run_items_ok fp do_write cpn opstr its :
  forall len st,
    exists l st',
      run_items env self fp do_write cpn opstr its len st = Ok l st'.
Proof.
  induction its as [| it its IH]; intros len st.
  - eexists; eexists; reflexivity.
  - cbn [run_items]. unfold bind.
    destruct (run_item_ok fp do_write cpn opstr it len st) as (l & st1 & E).
    rewrite E. apply IH.
Qed.

End ItemsReturn.

Lemma run_items_app env self fp do_write cpn opstr a b :
  forall len st,
    run_items env self fp do_write cpn opstr (a ++ b) len st =
    bind (run_items env self fp do_write cpn opstr a len)
      (run_items env self fp do_write cpn opstr b) st.
Proof.
  induction a as [| it a IH]; intros len st; [reflexivity |].
  cbn [app run_items]. rewrite bind_assoc. apply bind_ext. intros; apply IH.
Qed.

Lemma def_format_split :
  items def_format =
    [Directive "t" (Some "%Y-%m-%d %H:%M:%S"); Literal ":"; Literal " ";
     Directive "d" None; Literal "s"; Literal ","; Literal " ";
     Directive "T" (Some "read,wrote"); Directive "*" None]
    ++ [Literal CR].
Proof. reflexivity. Qed.

Lemma default_template_returns_zero_aux (env : Env) (k : nat) (fp : stream)
    (len : Z) (do_write : bool) (cpn : Z) (st : State) :
  sane env ->
  exists st',
    format_checkpoint_string (S k) env fp len (Some def_format) do_write
      cpn st = Ok 0 st' /\ tty_cleanup st' = true.
Proof.
  intro Sn.
  set (opstr := if do_write then gettext env "write"
                else gettext env "read").
  set (quiet := fun (_ : stream) (_ : Z) (_ : option string) (_ : bool)
                    (_ : Z) => @ret Z 0).
  destruct (run_items_ok env quiet Sn
              (fun _ _ _ _ s1 => ex_intro _ 0 (ex_intro _ s1 eq_refl))
              fp do_write cpn opstr
              [Directive "t" (Some "%Y-%m-%d %H:%M:%S"); Literal ":";
               Literal " "; Directive "d" None; Literal "s"; Literal ",";
               Literal " "; Directive "T" (Some "read,wrote");
               Directive "*" None] len st) as (l & st1 & E).
  exists (set_log
            (log (set_tty_cleanup true
                    (set_log (log st1 ++ [EvPutc fp CR]) st1))
             ++ [EvFlush fp])
            (set_tty_cleanup true
               (set_log (log st1 ++ [EvPutc fp CR]) st1))).
  split; [| reflexivity].
  apply (render_ok k env fp len def_format do_write cpn st 0);
    [| reflexivity].
  fold opstr.
  rewrite (run_items_no_c env _ quiet) by reflexivity.
  rewrite def_format_split, run_items_app. unfold bind. rewrite E.
  reflexivity.
Qed.

(** X5.  When the external functions keep their contracts the
    rendering of the default template always returns, with the column
    count zero and the dirty flag set, because the template ends in a
    carriage return.  So a [%c] directive leaves the column count of the
    outer template as it was. *)
Theorem default_template_returns_zero (env : Env) (k : nat) (fp : stream)
    (len : Z) (do_write : bool) (cpn : Z) (st : State) :
  sane env ->
  (exists st',
     format_checkpoint_string (S k) env fp len (Some def_format) do_write
       cpn st = Ok 0 st' /\ tty_cleanup st' = true) /\
  (forall opstr arg outer,
   exists st',
     run_item env (format_checkpoint_string (S k) env) fp do_write cpn opstr
       (Directive "c" arg) outer st = Ok (to_size_t outer) st').
Proof.
  intro Sn.
  split; [now apply default_template_returns_zero_aux |].
  intros opstr arg outer.
  destruct (default_template_returns_zero_aux env k fp outer do_write cpn st
              Sn) as (st' & E & _).
  exists st'. cbn [run_item]. unfold directive.
  change (Ascii.eqb "c" "c") with true. cbv iota.
  unfold bind. rewrite E. unfold ret. now rewrite Z.add_0_r.
Qed.

Lemma default_template_returns_zero_witness :
  sane ref_env /\
  exists st',
    format_checkpoint_string 1 ref_env stderr 17 (Some def_format) true 5
      (initial_state 1 []) = Ok 0 st' /\ tty_cleanup st' = true.
Proof.
  split; [exact ref_env_sane |].
  exact (proj1 (default_template_returns_zero ref_env 0 stderr 17 true 5
                  (initial_state 1 []) ref_env_sane)).
Defined.

(** X6.  When the external functions keep their contracts, and with a
    budget of two levels, how a rendering ends depends on the template
    alone: it returns when the scan stops at the terminator and it reads
    past the terminator otherwise; no directive makes it fail. *)
Theorem rendering_returns (env : Env) (k : nat) (fp : stream) (len : Z)
    (template : string) (do_write : bool) (cpn : Z) (st : State) :
  sane env ->
  match template_end template with
  | AtTerminator =>
      exists r st',
        format_checkpoint_string (S (S k)) env fp len (Some template)
          do_write cpn st = Ok r st'
  | PastTerminator =>
      exists st',
        format_checkpoint_string (S (S k)) env fp len (Some template)
          do_write cpn st = Stop Overrun st'
  | OutOfRounds => False
  end.
Proof.
  intro Sn.
  assert (Self : forall fp0 len0 w0 cpn0 s0,
             exists r st',
               format_checkpoint_string (S k) env fp0 len0 (Some def_format)
                 w0 cpn0 s0 = Ok r st').
  { intros fp0 len0 w0 cpn0 s0.
    destruct (default_template_returns_zero_aux env k fp0 len0 w0 cpn0 s0 Sn)
      as (st' & E & _). eauto. }
  destruct (run_items_ok env (format_checkpoint_string (S k) env) Sn Self fp
              do_write cpn
              (if do_write then gettext env "write" else gettext env "read")
              (items template) len st) as (l & st1 & E).
  pose proof (scan_rounds template (String.length template) 0) as R.
  fold (template_end template) in R.
  destruct (template_end template) eqn:T.
  - eexists; eexists. apply (render_ok _ _ _ _ _ _ _ _ _ _ E T).
  - exists st1. rewrite format_checkpoint_string_items.
    unfold bind at 1. unfold bind at 1. rewrite E, T. reflexivity.
  - apply R; [lia | reflexivity].
Qed.

Lemma rendering_returns_witness :
  sane ref_env /\
  exists r st',
    format_checkpoint_string 2 ref_env stderr 0 (Some "%u: %s") true 5
      (initial_state 1 []) = Ok r st'.
Proof.
  split; [exact ref_env_sane |].
  exact (rendering_returns ref_env 0 stderr 0 "%u: %s" true 5
           (initial_state 1 []) ref_env_sane).
Defined.

Lemma deref_beyond (s : string) (i : nat) :
  (String.length s < i)%nat -> deref s i = None.
Proof.
  intro L. destruct (deref s i) as [c |] eqn:D; [| reflexivity].
  apply deref_some in D. lia.
Qed.

Lemma deref_at_end (s : string) (i : nat) (c : ascii) :
  deref s i = Some c -> i = String.length s -> c = NUL.
Proof.
  intros D ->. rewrite deref_end in D. now inversion D.
Qed.

Lemma scan_beyond (s : string) (n i : nat) :
  (String.length s < i)%nat -> scan s n i = ([], PastTerminator).
Proof.
  intro L. destruct n; [cbn [scan] | rewrite scan_S];
    now rewrite deref_beyond.
Qed.

Lemma substring_length_le (s : string) :
  forall n m, (String.length (substring n m s) <= String.length s - n)%nat.
Proof.
  induction s as [| a s IH]; intros n m.
  - destruct n, m; simpl; lia.
  - destruct n as [| n].
    + destruct m as [| m]; simpl; [lia |]. specialize (IH 0%nat m). lia.
    + simpl. apply IH.
Qed.

Lemma strchr_from_bound (s : string) (c : ascii) :
  forall i p, strchr_from s c i = Some p -> (p < i + String.length s)%nat.
Proof.
  induction s as [| a s IH]; intros i p H; simpl in H; [discriminate |].
  destruct (Ascii.eqb a c).
  - inversion H; subst. simpl. lia.
  - apply IH in H. simpl. lia.
Qed.

Lemma getarg_bound (input : string) (ip : nat) (arg : string) (ip' : nat) :
  getarg input ip = Some (arg, ip') -> (ip' <= String.length input)%nat.
Proof.
  unfold getarg. destruct (deref input ip) as [c |] eqn:D; [| discriminate].
  destruct (Ascii.eqb c "{") eqn:C; [| discriminate].
  assert (L : (ip < String.length input)%nat).
  { destruct (deref_some _ _ _ D) as [H | [_ H]]; [exact H |].
    subst c. discriminate C. }
  unfold strchr.
  destruct (strchr_from (str_plus input (S ip)) "}" (S ip)) as [p |] eqn:E;
    [| discriminate].
  intro H; inversion H; subst.
  apply strchr_from_bound in E.
  pose proof (substring_length_le input (S ip)
                (String.length input - S ip)) as B.
  unfold str_plus in E. lia.
Qed.

Lemma scan_past (input : string) (n : nat) :
  forall ip,
    (ip <= String.length input)%nat ->
    snd (scan input n ip) = PastTerminator ->
    exists pre arg, fst (scan input n ip) = pre ++ [Directive NUL arg].
Proof.
  induction n as [| n IH]; intros ip L P.
  - cbn [scan] in P.
    destruct (deref_in_range input ip L) as (c & D). rewrite D in P.
    destruct (Ascii.eqb c NUL); discriminate P.
  - rewrite scan_S in *.
    destruct (deref_in_range input ip L) as (c & D). rewrite D in *.
    destruct (Ascii.eqb c NUL) eqn:C0; [discriminate P |].
    assert (L1 : (ip < String.length input)%nat).
    { destruct (deref_some _ _ _ D) as [H | [_ H]]; [exact H |].
      subst c. discriminate C0. }
    assert (Step : forall it q,
               (q <= String.length input)%nat ->
               (q = String.length input ->
                exists arg, it = Directive NUL arg) ->
               snd (scan input n (S q)) = PastTerminator ->
               exists pre arg,
                 it :: fst (scan input n (S q)) = pre ++ [Directive NUL arg]).
    { intros it q Lq Hq Pq.
      destruct (Nat.eq_dec q (String.length input)) as [Q | Q].
      - destruct (Hq Q) as (arg & ->).
        rewrite scan_beyond by lia. exists [], arg. reflexivity.
      - destruct (IH (S q)) as (pre & arg & E); [lia | exact Pq |].
        exists (it :: pre), arg. rewrite E. reflexivity. }
    destruct (Ascii.eqb c "%").
    + destruct (deref_in_range input (S ip)) as (c1 & D1); [lia |].
      rewrite D1 in *.
      destruct (Ascii.eqb c1 "{") eqn:B.
      * destruct (getarg input (S ip)) as [[arg ip'] |] eqn:G.
        -- pose proof (getarg_bound _ _ _ _ G) as Lp.
           destruct (deref_in_range input ip' Lp) as (d & Dd).
           rewrite Dd in *. cbn [fst snd] in *.
           apply Step; auto.
           intro Q. exists (Some arg).
           now rewrite (deref_at_end _ _ _ Dd Q).
        -- cbn [fst snd] in *.
           apply (Step OpenBrace (S ip)); auto.
           intro Q. apply (deref_at_end _ _ _ D1) in Q. subst c1.
           discriminate B.
      * cbn [fst snd] in *.
        apply (Step (Directive c1 None) (S ip)); auto.
        intro Q. exists None. now rewrite (deref_at_end _ _ _ D1 Q).
    + cbn [fst snd] in *.
      apply (Step (Literal c) ip); auto; lia.
Qed.

(** X7.  The scan leaves the string only in one way: the last item is a
    directive whose letter is the terminating NUL itself, that is, the
    template ends in a percent sign or in a braced argument with no
    letter after it. *)
Theorem overrun_comes_from_dangling_directive (template : string) :
  template_end template = PastTerminator ->
  exists pre arg, items template = pre ++ [Directive NUL arg].
Proof.
  intro P. apply scan_past; [lia | exact P].
Qed.

Lemma overrun_comes_from_dangling_directive_witness :
  template_end "abc%{x}" = PastTerminator /\
  exists pre arg, items "abc%{x}" = pre ++ [Directive NUL arg].
Proof.
  split; [reflexivity |].
  exact (overrun_comes_from_dangling_directive "abc%{x}" eq_refl).
Defined.

(** ** Invariants of the compiler *)

Ltac shape_ok a :=
  let H := fresh "H" in
  spec_unfold; intros H; inversion H; subst; clear H;
  exists a; split; [reflexivity | exact I].

Lemma compile_spec_shape env str st st' :
  compile_spec env str st = Ok tt st' ->
  exists a, st' = push_action a st /\ well_shaped a.
Proof.
  unfold compile_spec.
  destruct (String.eqb str "." || String.eqb str "dot");
    [shape_ok (mkAction cop_dot v_zero) |].
  destruct (String.eqb str "bell"); [shape_ok (mkAction cop_bell v_zero) |].
  destruct (String.eqb str "echo"); [shape_ok (mkAction cop_echo v_zero) |].
  destruct (strncmp0 str "echo=");
    [shape_ok (mkAction cop_echo
                 (v_command (copy_string_unquote env (str_plus str 5)))) |].
  destruct (strncmp0 str "exec=");
    [shape_ok (mkAction cop_exec
                 (v_command (copy_string_unquote env (str_plus str 5)))) |].
  destruct (strncmp0 str "ttyout=");
    [shape_ok (mkAction cop_ttyout
                 (v_command (copy_string_unquote env (str_plus str 7)))) |].
  destruct (strncmp0 str "sleep=").
  { destruct (stoint env (str_plus str 6) 0 TIME_T_MAX) as [t p].
    unfold deref_m, bind at 2 3. unfold alloc_action, set_act_v, modify.
    destruct (deref (str_plus str 6) p) as [c |] eqn:D; simpl.
    - destruct (Nat.eqb p 0 || negb (Ascii.eqb c NUL)) eqn:E; [spec_stop |].
      shape_ok (mkAction cop_sleep (v_time t)).
    - spec_stop. }
  destruct (String.eqb str "totals"); [shape_ok (mkAction cop_totals v_zero) |].
  destruct (strncmp0 str "wait=");
    [shape_ok (mkAction cop_wait
                 (v_signal (decode_signal env (str_plus str 5)))) |].
  spec_stop.
Qed.

Lemma sigismember_in (s : sigset) (n : Z) :
  sigismember s n = true <-> In n s.
Proof.
  unfold sigismember. rewrite existsb_exists. split.
  - intros (x & I & E). apply Z.eqb_eq in E. now subst.
  - intro I. exists n. split; [exact I | apply Z.eqb_refl].
Qed.

Lemma sigaddset_in (s : sigset) (n m : Z) :
  In m (sigaddset s n) <-> In m s \/ m = n.
Proof.
  unfold sigaddset. destruct (sigismember s n) eqn:E.
  - apply sigismember_in in E. split; [auto |].
    intros [H | ->]; auto.
  - rewrite in_app_iff. simpl. split; intros [H | H]; auto.
    + destruct H as [H | []]; auto.
Qed.

Lemma sigaddset_nodup (s : sigset) (n : Z) :
  NoDup s -> NoDup (sigaddset s n).
Proof.
  intro N. unfold sigaddset. destruct (sigismember s n) eqn:E; [exact N |].
  apply NoDup_app; [exact N | repeat constructor; auto |].
  intros x I [<- | []].
  apply sigismember_in in I. congruence.
Qed.

Lemma wait_signals_snoc prog a :
  wait_signals (prog ++ [a]) =
  wait_signals prog ++ match opcode a, v a with
                       | cop_wait, v_signal n => [n]
                       | _, _ => []
                       end.
Proof.
  unfold wait_signals. rewrite flat_map_app. simpl. now rewrite app_nil_r.
Qed.

(** What every accepted specification keeps. *)
Lemma compile_action_invariant env str st st' :
  checkpoint_compile_action env str st = Ok tt st' ->
  (checkpoint_state st = CHKP_INIT -> checkpoint_action st = []) ->
  Forall well_shaped (checkpoint_action st) ->
  NoDup (sigs st) ->
  (forall n, In n (sigs st) <-> In n (wait_signals (checkpoint_action st))) ->
  checkpoint_state st' <> CHKP_INIT /\
  Forall well_shaped (checkpoint_action st') /\
  NoDup (sigs st') /\
  (forall n, In n (sigs st') <-> In n (wait_signals (checkpoint_action st'))).
Proof.
  intros H I0 W N S. rewrite compile_action_eq in H.
  destruct (compile_spec_shape _ _ _ _ H) as (a & -> & Wa).
  assert (E : checkpoint_state (entered st) <> CHKP_INIT
              /\ checkpoint_action (entered st) = checkpoint_action st
              /\ NoDup (sigs (entered st))
              /\ (forall n, In n (sigs (entered st)) <->
                            In n (wait_signals (checkpoint_action st)))).
  { unfold entered. destruct (checkpoint_state st) eqn:C; simpl.
    - rewrite (I0 eq_refl).
      split; [discriminate |]. split; [reflexivity |].
      split; [constructor |]. intro n; split; intros [].
    - split; [rewrite C; discriminate |]. auto.
    - split; [rewrite C; discriminate |]. auto. }
  destruct E as (E1 & E2 & E3 & E4).
  split; [now rewrite push_action_state |].
  rewrite push_action_actions, E2.
  split; [apply Forall_app; split; auto |].
  unfold well_shaped in Wa. unfold push_action.
  rewrite wait_signals_snoc.
  destruct (opcode a), (v a); try contradiction; simpl;
    rewrite ?app_nil_r; try (split; assumption).
  split; [now apply sigaddset_nodup |].
  intro m. rewrite sigaddset_in, in_app_iff, E4. simpl. intuition.
Qed.

Lemma compile_all_invariant env specs :
  forall st st',
    compile_all env specs st = Ok tt st' ->
    (checkpoint_state st = CHKP_INIT -> checkpoint_action st = []) ->
    Forall well_shaped (checkpoint_action st) ->
    NoDup (sigs st) ->
    (forall n, In n (sigs st) <-> In n (wait_signals (checkpoint_action st))) ->
    Forall well_shaped (checkpoint_action st') /\
    NoDup (sigs st') /\
    (forall n, In n (sigs st') <->
               In n (wait_signals (checkpoint_action st'))).
Proof.
  induction specs as [| str specs IH]; intros st st' H I0 W N S.
  - inversion H; subst. auto.
  - cbn [compile_all] in H. unfold bind in H.
    destruct (checkpoint_compile_action env str st) as [[] st1 | ] eqn:E;
      [| discriminate].
    destruct (compile_action_invariant _ _ _ _ E I0 W N S)
      as (C1 & W1 & N1 & S1).
    apply (IH st1 st' H); auto. intro X; contradiction.
Qed.

(** X8.  When all specifications are accepted, every record of the
    program carries the member of the union that its opcode reads, and the
    signal set holds, without repetition, exactly the signals of the wait
    actions. *)
Theorem compiled_program_invariant (env : Env) (option : Z) (mask : sigset)
    (specs : list string) (st : State) :
  compile_all env specs (initial_state option mask) = Ok tt st ->
  Forall well_shaped (checkpoint_action st) /\
  NoDup (sigs st) /\
  (forall n, sigismember (sigs st) n = true <->
             In n (wait_signals (checkpoint_action st))).
Proof.
  intro H.
  destruct (compile_all_invariant env specs _ _ H (fun _ => eq_refl)
              (Forall_nil _) (NoDup_nil _)
              (fun n => conj (fun x => x) (fun x => x))) as (W & N & S).
  split; [exact W |]. split; [exact N |].
  intro n. rewrite sigismember_in. apply S.
Qed.

Lemma compiled_program_invariant_witness :
  exists st,
    compile_all ref_env ["wait=SIGUSR1"; "dot"; "wait=SIGUSR1"; "sleep=2"]
      (initial_state 0 []) = Ok tt st /\
    NoDup (sigs st) /\
    Forall well_shaped (checkpoint_action st).
Proof.
  eexists.
  assert (H : compile_all ref_env
                ["wait=SIGUSR1"; "dot"; "wait=SIGUSR1"; "sleep=2"]
                (initial_state 0 []) = Ok tt _)
    by (vm_compute; reflexivity).
  destruct (compiled_program_invariant ref_env 0 [] _ _ H) as (W & N & _).
  split; [exact H |]. split; [exact N | exact W].
Defined.

(** X9.  [checkpoint_finish_compile] cannot fail.  After it the engine is
    either off, nothing having been compiled and no interval given, and
    the state is the one of the start; or it is armed: the state is
    running, the program is not empty and the interval is the one given
    or, when none was given, the default one. *)
Theorem armed_or_off (env : Env) (option : Z) (mask : sigset)
    (specs : list string) (st : State) :
  compile_all env specs (initial_state option mask) = Ok tt st ->
  exists st',
    checkpoint_finish_compile env st = Ok tt st' /\
    ((specs = [] /\ option = 0 /\ st' = initial_state option mask) \/
     (checkpoint_state st' = CHKP_RUN /\
      checkpoint_action st' <> [] /\
      checkpoint_option st' =
        if option =? 0 then DEFAULT_CHECKPOINT env else option)).
Proof.
  intro H.
  destruct (compile_all_ok _ _ _ _ H)
    as (acts & F & A1 & A2 & _ & _ & _ & _ & _ & A8).
  destruct specs as [| str specs].
  - subst st. destruct (Z.eq_dec option 0) as [O | O].
    + exists (initial_state option mask).
      split; [apply finish_compile_idle; auto |]. left; auto.
    + eexists. split; [apply finish_compile_default; auto |].
      right. unfold to_running, blocked, entered; simpl.
      apply Z.eqb_neq in O. rewrite O. simpl.
      repeat split; auto. discriminate.
  - assert (S : checkpoint_state st = CHKP_COMPILE)
      by (rewrite A8; reflexivity).
    exists (to_running env st).
    split; [apply finish_compile_compiling; auto |].
    right. inversion F; subst. simpl in A1, A2.
    unfold to_running, blocked; simpl. rewrite A2.
    destruct (option =? 0); simpl; rewrite A1;
      repeat split; auto; discriminate.
Qed.

Lemma armed_or_off_witness :
  exists st st',
    compile_all ref_env ["dot"] (initial_state 0 []) = Ok tt st /\
    checkpoint_finish_compile ref_env st = Ok tt st' /\
    checkpoint_option st' = 10.
Proof.
  eexists.
  assert (H : compile_all ref_env ["dot"] (initial_state 0 []) = Ok tt _)
    by reflexivity.
  destruct (armed_or_off ref_env 0 [] _ _ H) as (st' & F & [A | A]).
  - destruct A as (A & _). discriminate A.
  - exists st'. split; [exact H |]. split; [exact F |].
    destruct A as (_ & _ & O). exact O.
Defined.

(** ** Rendering is confined to its stream *)

Lemma renders_refl fp st : renders fp st st.
Proof.
  unfold renders; repeat split; auto.
  exists []; split; [now rewrite app_nil_r | constructor].
Qed.

Lemma renders_trans fp st1 st2 st3 :
  renders fp st1 st2 -> renders fp st2 st3 -> renders fp st1 st3.
Proof.
  intros (A1 & A2 & A3 & A4 & A5 & A6 & A7 & A8 & e1 & L1 & F1)
         (B1 & B2 & B3 & B4 & B5 & B6 & B7 & B8 & e2 & L2 & F2).
  unfold renders; repeat split; try congruence; auto.
  exists (e1 ++ e2); split.
  - rewrite L2, L1; now rewrite app_assoc.
  - apply Forall_app; split; auto.
Qed.

Lemma confined_ret {A} fp (a : A) : confined fp (ret a).
Proof. intro st; apply renders_refl. Qed.

Lemma confined_stop {A} fp (why : stop) : confined fp (@stop_with A why).
Proof. intro st; apply renders_refl. Qed.

Lemma confined_bind {A B} fp (m : M A) (k : A -> M B) :
  confined fp m -> (forall a, confined fp (k a)) -> confined fp (bind m k).
Proof.
  intros Hm Hk st; unfold bind.
  specialize (Hm st); destruct (m st) as [a st' | why st']; simpl in *; auto.
  eapply renders_trans; [exact Hm | apply Hk].
Qed.

Lemma confined_emit fp (e : event) : on_stream fp e -> confined fp (emit e).
Proof.
  intros He st; unfold renders; simpl; repeat split; auto.
  exists [e]; split; auto.
Qed.

Lemma confined_dirty fp : confined fp (modify (set_tty_cleanup true)).
Proof.
  intro st; unfold renders; simpl; repeat split; auto.
  exists []; split; [now rewrite app_nil_r | constructor].
Qed.

Lemma confined_deref fp (s : string) (i : nat) : confined fp (deref_m s i).
Proof.
  unfold deref_m; destruct (deref s i);
    [apply confined_ret | apply confined_stop].
Qed.

Create HintDb confined.

#[local] Hint Resolve confined_ret confined_stop confined_dirty
  confined_deref : confined.

Ltac confined_step :=
  match goal with
  | |- confined _ (bind _ _) => apply confined_bind; [| intros]
  | |- confined _ (if ?b then _ else _) => destruct b
  | |- confined _ (let '(_, _) := ?p in _) => destruct p
  | |- confined _ (emit _) => solve [apply confined_emit; simpl; auto]
  | |- confined _ (fputc _ _) => solve [apply confined_emit; simpl; auto]
  | |- confined _ (fputs _ _) => solve [apply confined_emit; simpl; auto]
  | |- confined _ (fflush _) => solve [apply confined_emit; simpl; auto]
  | |- confined _ (paxerror _ _) => solve [apply confined_emit; simpl; auto]
  | |- confined _ _ => solve [auto with confined]
  end.

Lemma confined_put_spaces fp (n : nat) : confined fp (put_spaces n fp).
Proof. induction n; simpl; repeat confined_step; auto. Qed.

Lemma confined_getwidth env fp fp' : confined fp (getwidth env fp').
Proof.
  assert (C : confined fp (getwidth_columns env)).
  { unfold getwidth_columns.
    destruct (getenv_COLUMNS env); repeat confined_step. }
  unfold getwidth. destruct (ioctl_ws_col env fp');
    repeat confined_step; auto.
Qed.

Lemma confined_total_labels env fp arg : confined fp (total_labels env arg).
Proof.
  unfold total_labels. destruct arg as [text |]; [| auto with confined].
  destruct (wordsplit env text); repeat confined_step.
Qed.

Lemma confined_pad_width env fp arg : confined fp (pad_width env fp arg).
Proof.
  unfold pad_width. destruct arg;
    repeat confined_step; auto using confined_getwidth.
Qed.

Section ConfinedInterpreter.

Variable env : Env.
Variable self : stream -> Z -> option string -> bool -> Z -> M Z.
Hypothesis confined_self : forall fp len input w cpn,
  confined fp (self fp len input w cpn).

Lemma confined_directive fp do_write cpn opstr d arg len :
  confined fp (directive env self fp do_write cpn opstr d arg len).
Proof.
  unfold directive.
  repeat confined_step;
    auto using confined_total_labels, confined_pad_width,
      confined_put_spaces.
Qed.

Lemma confined_format_loop fp input do_write cpn opstr n :
  forall ip len,
    confined fp (format_loop env self fp input do_write cpn opstr n ip len).
Proof.
  induction n as [| n IH]; intros ip len; cbn [format_loop].
  - repeat confined_step.
  - confined_step; [auto with confined |].
    confined_step; [auto with confined |].
    confined_step.
    + confined_step; [auto with confined |].
      confined_step.
      * destruct (getarg input (S ip)) as [[arg ip'] |];
          repeat confined_step; auto using confined_directive.
      * repeat confined_step; auto using confined_directive.
    + repeat confined_step; auto.
Qed.

End ConfinedInterpreter.

Lemma confined_format_checkpoint_string (depth : nat) (env : Env) :
  forall fp len input do_write cpn,
    confined fp (format_checkpoint_string depth env fp len input do_write cpn).
Proof.
  induction depth as [| d IH]; intros.
  - apply confined_stop.
  - rewrite format_checkpoint_string_level. cbv zeta.
    repeat confined_step. apply confined_format_loop; auto.
Qed.

(** X10.  A rendering changes nothing of the state but the dirty flag,
    which it never clears, and the trace; what it adds to the trace is
    output on the stream it was given, recomputations of the duration and
    reports of [paxerror], and nothing else: it never opens, closes or
    writes another stream, never sleeps, runs a command or touches
    signals. *)
Theorem rendering_is_confined (depth : nat) (env : Env) (fp : stream)
    (len : Z) (input : option string) (do_write : bool) (cpn : Z)
    (st : State) :
  let st' := final (format_checkpoint_string depth env fp len input do_write
                      cpn st) in
  checkpoint st' = checkpoint st /\
  checkpoint_option st' = checkpoint_option st /\
  checkpoint_action st' = checkpoint_action st /\
  checkpoint_state st' = checkpoint_state st /\
  sigs st' = sigs st /\
  sigmask st' = sigmask st /\
  tty st' = tty st /\
  (tty_cleanup st = true -> tty_cleanup st' = true) /\
  exists evs, log st' = log st ++ evs /\ Forall (on_stream fp) evs.
Proof. apply confined_format_checkpoint_string. Qed.

(** ** A tick returns *)

Lemma returns_ret {A} (a : A) : returns (ret a).
Proof. intro st; eexists; eexists; reflexivity. Qed.

Lemma returns_bind {A B} (m : M A) (k : A -> M B) :
  returns m -> (forall a, returns (k a)) -> returns (bind m k).
Proof.
  intros Hm Hk st. destruct (Hm st) as (a & st1 & E).
  unfold bind. rewrite E. apply Hk.
Qed.

Lemma returns_emit (e : event) : returns (emit e).
Proof. intro st; eexists; eexists; reflexivity. Qed.

Lemma returns_get {A} (f : State -> A) : returns (get f).
Proof. intro st; eexists; eexists; reflexivity. Qed.

Lemma returns_modify (f : State -> State) : returns (modify f).
Proof. intro st; eexists; eexists; reflexivity. Qed.

Lemma returns_open_tty env : returns (open_tty env).
Proof.
  unfold open_tty. apply returns_bind; [apply returns_get |].
  intros [|]; [apply returns_ret |].
  apply returns_bind; [apply returns_emit | intro; apply returns_modify].
Qed.

Lemma format_checkpoint_string_template d env fp len input do_write cpn :
  format_checkpoint_string (S d) env fp len input do_write cpn =
  format_checkpoint_string (S d) env fp len
    (Some (template_of env input do_write)) do_write cpn.
Proof.
  rewrite !format_checkpoint_string_level. destruct input; reflexivity.
Qed.

Lemma returns_format_checkpoint_string env k fp len input do_write cpn :
  sane env ->
  template_end (template_of env input do_write) = AtTerminator ->
  returns (format_checkpoint_string (S (S k)) env fp len input do_write cpn).
Proof.
  intros Sn T st. rewrite format_checkpoint_string_template.
  assert (Self : forall fp0 len0 w0 cpn0 s0,
             exists r st',
               format_checkpoint_string (S k) env fp0 len0 (Some def_format)
                 w0 cpn0 s0 = Ok r st').
  { intros fp0 len0 w0 cpn0 s0.
    destruct (default_template_returns_zero_aux env k fp0 len0 w0 cpn0 s0 Sn)
      as (st' & E & _). eauto. }
  destruct (run_items_ok env (format_checkpoint_string (S k) env) Sn Self fp
              do_write cpn
              (if do_write then gettext env "write" else gettext env "read")
              (items (template_of env input do_write)) len st)
    as (l & st1 & E).
  eexists; eexists. apply (render_ok _ _ _ _ _ _ _ _ _ _ E T).
Qed.

Lemma returns_run_action env k do_write p :
  sane env -> template_ok env do_write p ->
  returns (run_action (S (S k)) env do_write p).
Proof.
  intros Sn T. unfold run_action. unfold template_ok in T.
  destruct (opcode p).
  - apply returns_bind; [apply returns_emit | intro; apply returns_emit].
  - apply returns_bind; [apply returns_open_tty | intro].
    apply returns_bind; [apply returns_get |].
    intros [|]; [| apply returns_ret].
    apply returns_bind; [apply returns_emit | intro; apply returns_emit].
  - cbv zeta.
    apply returns_bind; [apply returns_emit | intro].
    apply returns_bind; [apply returns_get | intro cpn].
    apply returns_bind; [| intro; apply returns_emit].
    now apply returns_format_checkpoint_string.
  - apply returns_bind; [apply returns_open_tty | intro].
    apply returns_bind; [apply returns_get |].
    intros [|]; [| apply returns_ret].
    apply returns_bind; [apply returns_get | intro cpn].
    apply returns_bind; [| intro; apply returns_ret].
    now apply returns_format_checkpoint_string.
  - apply returns_emit.
  - apply returns_bind; [apply returns_get | intro; apply returns_emit].
  - apply returns_bind; [apply returns_emit | intro; apply returns_emit].
  - apply returns_bind; [apply returns_get | intro; apply returns_emit].
Qed.

Lemma returns_walk_actions env k do_write prog :
  sane env -> Forall (template_ok env do_write) prog ->
  returns (walk_actions (S (S k)) env do_write prog).
Proof.
  intros Sn F. induction F as [| p prog T F IH]; cbn [walk_actions].
  - apply returns_ret.
  - apply returns_bind; [now apply returns_run_action | intro; exact IH].
Qed.

(** X11.  When the external functions keep their contracts and no echo or
    ttyout template of the program dangles, a run of the actions returns,
    whatever the state: neither a terminal that cannot be opened, nor a
    word list that cannot be split, nor an invalid width stops it. *)
Theorem run_checkpoint_actions_returns (env : Env) (k : nat)
    (do_write : bool) (st : State) :
  sane env ->
  Forall (template_ok env do_write) (checkpoint_action st) ->
  exists st', run_checkpoint_actions (S (S k)) env do_write st = Ok tt st'.
Proof.
  intros Sn F. unfold run_checkpoint_actions, bind, get.
  destruct (returns_walk_actions env k do_write (checkpoint_action st) Sn F st)
    as ([] & st' & E).
  eauto.
Qed.

Lemma run_checkpoint_actions_returns_witness :
  let st := set_checkpoint_action
              [mkAction cop_echo v_zero; mkAction cop_ttyout (v_command "%u%*");
               mkAction cop_sleep (v_time 1)]
              (initial_state 1 []) in
  sane ref_env /\
  Forall (template_ok ref_env true) (checkpoint_action st) /\
  exists st', run_checkpoint_actions 2 ref_env true st = Ok tt st'.
Proof.
  intro st.
  assert (F : Forall (template_ok ref_env true) (checkpoint_action st)).
  { repeat constructor. }
  split; [exact ref_env_sane |]. split; [exact F |].
  exact (run_checkpoint_actions_returns ref_env 0 true st ref_env_sane F).
Defined.

(** ** A terminal that cannot be opened *)

Lemma without_tty_refl st : tty st = false -> without_tty st st.
Proof.
  intro T; split; [exact T |].
  exists []; split; [now rewrite app_nil_r | constructor].
Qed.

Lemma without_tty_trans st1 st2 st3 :
  without_tty st1 st2 -> without_tty st2 st3 -> without_tty st1 st3.
Proof.
  intros (T1 & e1 & L1 & F1) (T2 & e2 & L2 & F2).
  split; [exact T2 |].
  exists (e1 ++ e2); split.
  - rewrite L2, L1; now rewrite app_assoc.
  - apply Forall_app; split; auto.
Qed.

Lemma without_tty_emit (e : event) st :
  off_tty e -> tty st = false -> without_tty st (final (emit e st)).
Proof.
  intros He T; split; [exact T |].
  exists [e]; split; [reflexivity | now constructor].
Qed.

Lemma on_stderr_off_tty (e : event) : on_stream stderr e -> off_tty e.
Proof.
  destruct e; simpl; try tauto; intros ->; discriminate.
Qed.

Lemma without_tty_rendering depth env len input do_write cpn st :
  tty st = false ->
  without_tty st
    (final (format_checkpoint_string depth env stderr len input do_write cpn
              st)).
Proof.
  intro T.
  destruct (confined_format_checkpoint_string depth env stderr len input
              do_write cpn st)
    as (_ & _ & _ & _ & _ & _ & T' & _ & evs & L & F).
  split; [congruence |].
  exists evs; split; [exact L |].
  eapply Forall_impl; [| exact F]. apply on_stderr_off_tty.
Qed.

Lemma without_tty_open env st :
  fopen_tty env = false -> tty st = false ->
  open_tty env st =
    Ok tt (set_tty false (set_log (log st ++ [EvFopenTty false]) st)).
Proof.
  intros O T. unfold open_tty, bind, get. rewrite T.
  unfold emit, modify. now rewrite O.
Qed.

Lemma without_tty_run_action depth env do_write p st :
  fopen_tty env = false -> tty st = false ->
  without_tty st (final (run_action depth env do_write p st)).
Proof.
  intros O T.
  assert (Open : without_tty st
            (set_tty false (set_log (log st ++ [EvFopenTty false]) st))).
  { split; [reflexivity |].
    exists [EvFopenTty false]; split; [reflexivity |].
    now repeat constructor. }
  unfold run_action. destruct (opcode p).
  - split; [exact T |].
    exists [EvPutc stdlis "."; EvFlush stdlis]; split.
    + simpl. now rewrite <- app_assoc.
    + repeat constructor; discriminate.
  - unfold bind at 1. rewrite (without_tty_open env st O T).
    exact Open.
  - cbv zeta. unfold bind at 1. unfold fputs at 1, emit at 1, modify at 1.
    unfold bind at 1. unfold get at 1. unfold bind at 1.
    set (st1 := set_log _ st).
    assert (S1 : without_tty st st1).
    { split; [exact T |].
      eexists; split; [reflexivity |]. repeat constructor; discriminate. }
    pose proof (without_tty_rendering depth env
                  (to_size_t (strlen (program_name env ++ ": ")))
                  (v_command_of (v p)) do_write (checkpoint st1) st1 T) as R.
    destruct (format_checkpoint_string depth env stderr
                (to_size_t (strlen (program_name env ++ ": ")))
                (v_command_of (v p)) do_write (checkpoint st1) st1)
      as [r st2 | why st2]; simpl in R |- *.
    + eapply without_tty_trans; [exact S1 |].
      eapply without_tty_trans; [exact R |].
      apply without_tty_emit; [discriminate | apply R].
    + eapply without_tty_trans; [exact S1 | exact R].
  - unfold bind at 1. rewrite (without_tty_open env st O T).
    exact Open.
  - apply without_tty_emit; [exact I | exact T].
  - apply without_tty_emit; [exact I | exact T].
  - split; [exact T |].
    exists [EvComputeDuration; EvPrintTotalStats]; split.
    + simpl. now rewrite <- app_assoc.
    + repeat constructor.
  - apply without_tty_emit; [exact I | exact T].
Qed.

Lemma without_tty_walk_actions depth env do_write prog :
  fopen_tty env = false ->
  forall st, tty st = false ->
    without_tty st (final (walk_actions depth env do_write prog st)).
Proof.
  intro O. induction prog as [| p prog IH]; intros st T; cbn [walk_actions].
  - now apply without_tty_refl.
  - unfold bind.
    pose proof (without_tty_run_action depth env do_write p st O T) as R.
    destruct (run_action depth env do_write p st) as [[] st1 | why st1];
      simpl in R |- *; [| exact R].
    eapply without_tty_trans; [exact R | apply IH, R].
Qed.

(** X12.  While [/dev/tty] cannot be opened, a run of the actions leaves
    the terminal closed and sends nothing to it: all that the trace shows
    of the terminal are failed attempts to open it. *)
Theorem terminal_unavailable (depth : nat) (env : Env) (do_write : bool)
    (st : State) :
  fopen_tty env = false -> tty st = false ->
  let st' := final (run_checkpoint_actions depth env do_write st) in
  tty st' = false /\
  exists evs, log st' = log st ++ evs /\ Forall off_tty evs.
Proof.
  intros O T. unfold run_checkpoint_actions, bind, get.
  apply (without_tty_walk_actions depth env do_write _ O st T).
Qed.

Lemma terminal_unavailable_witness :
  let st := set_checkpoint_action
              [mkAction cop_bell v_zero; mkAction cop_ttyout (v_command "%u");
               mkAction cop_echo v_zero]
              (initial_state 1 []) in
  fopen_tty headless_env = false /\ tty st = false /\
  tty (final (run_checkpoint_actions 2 headless_env true st)) = false /\
  exists evs,
    log (final (run_checkpoint_actions 2 headless_env true st)) =
      log st ++ evs /\ Forall off_tty evs.
Proof.
  intro st. split; [reflexivity |]. split; [reflexivity |].
  exact (terminal_unavailable 2 headless_env true st eq_refl eq_refl).
Defined.

(** ** The counter *)




(** ** The width of the terminal *)

(** X14.  [getwidth] changes nothing and, when the external functions
    keep their contracts, always gives a positive width: the column count
    of the window when the probe gives a positive one, else the value of
    [COLUMNS], and 80 when there is neither. *)
Theorem getwidth_positive (env : Env) (fp : stream) (st : State) :
  sane env ->
  exists w,
    getwidth env fp st = Ok w st /\
    0 < w <= INTMAX_MAX /\
    (forall col, ioctl_ws_col env fp = Some col -> 0 < col -> w = col) /\
    (getenv_COLUMNS env = None ->
     ioctl_ws_col env fp = None \/ ioctl_ws_col env fp = Some 0 ->
     w = 80).
Proof.
  intro Sn. exists (terminal_width env fp).
  split; [apply getwidth_value, Sn |].
  split; [now apply terminal_width_range |].
  unfold terminal_width, columns_width. split.
  - intros col -> P. apply Z.ltb_lt in P. now rewrite P.
  - intros -> [-> | ->]; reflexivity.
Qed.

Lemma getwidth_positive_witness :
  sane ref_env /\
  exists w,
    getwidth ref_env tty_dev (initial_state 1 []) =
      Ok w (initial_state 1 []) /\
    0 < w <= INTMAX_MAX /\
    (forall col, ioctl_ws_col ref_env tty_dev = Some col -> 0 < col ->
                 w = col) /\
    (getenv_COLUMNS ref_env = None ->
     ioctl_ws_col ref_env tty_dev = None \/
     ioctl_ws_col ref_env tty_dev = Some 0 ->
     w = 80).
Proof.
  split; [exact ref_env_sane |].
  exact (getwidth_positive ref_env tty_dev (initial_state 1 []) ref_env_sane).
Defined.

(** ** The default message *)

Lemma counter_message env self fp do_write cpn opstr (text : string) :
  lacks CR text = true ->
  forall len st,
    0 <= len < 2 ^ 64 ->
    exists l,
      run_items env self fp do_write cpn opstr
        (map Literal (list_ascii_of_string text) ++ [Directive "u" None])
        len st =
      Ok l (set_log (log st ++ putc_events fp text
                     ++ [EvPuts fp (decimal cpn)]) st).
Proof.
  intros L len st R. eexists.
  rewrite run_items_app. unfold bind at 1.
  rewrite run_literals by auto.
  cbn [run_items run_item]. unfold directive.
  change (Ascii.eqb "u" "c") with false.
  change (Ascii.eqb "u" "u") with true. cbv iota.
  unfold bind, fputs, emit, modify, ret.
  rewrite set_log_twice. reflexivity.
Qed.

Lemma echo_default_message d env do_write p st :
  opcode p = cop_echo -> v_command_of (v p) = None ->
  gettext env "Write checkpoint %u" = "Write checkpoint %u" ->
  gettext env "Read checkpoint %u" = "Read checkpoint %u" ->
  run_action (S d) env do_write p st =
    Ok tt
      (set_log
         (log st
          ++ EvPuts stderr (program_name env ++ ": ")
             :: putc_events stderr
                  (if do_write then "Write checkpoint "
                   else "Read checkpoint ")
          ++ [EvPuts stderr (decimal (checkpoint st)); EvFlush stderr;
              EvPutc stderr LF])
         st).
Proof.
  intros Op V GW GR. unfold run_action. rewrite Op, V. cbv zeta.
  unfold bind at 1. unfold fputs at 1, emit at 1, modify at 1.
  unfold bind at 1. unfold get at 1. unfold bind at 1.
  set (st1 := set_log _ st).
  set (len := to_size_t _).
  assert (R : 0 <= len < 2 ^ 64) by apply to_size_t_range.
  rewrite format_checkpoint_string_template.
  assert (T : exists text,
             template_of env None do_write = (text ++ "%u")%string /\
             text = (if do_write then "Write checkpoint "
                     else "Read checkpoint ") /\
             lacks CR text = true /\
             items (text ++ "%u")
             = map Literal (list_ascii_of_string text)
               ++ [Directive "u" None] /\
             template_end (text ++ "%u") = AtTerminator).
  { unfold template_of.
    destruct do_write; [rewrite GW | rewrite GR].
    - exists "Write checkpoint ". repeat split; reflexivity.
    - exists "Read checkpoint ". repeat split; reflexivity. }
  destruct T as (text & -> & Tx & L & I & E).
  destruct (counter_message env (format_checkpoint_string d env) stderr
              do_write (checkpoint st1)
              (if do_write then gettext env "write" else gettext env "read")
              text L len st1 R) as (l & Run).
  rewrite <- I in Run.
  rewrite (render_ok _ _ _ _ _ _ _ _ _ _ Run E).
  unfold fputc, emit, modify, st1, set_log; simpl.
  rewrite Tx. rewrite <- !app_assoc. reflexivity.
Qed.

(** X15.  Where the two default messages are not translated, an echo
    action without text writes the line
    [program: Write checkpoint N] or [program: Read checkpoint N] to the
    standard error, [N] being the counter, and nothing else. *)
Theorem default_echo_line (d : nat) (env : Env) (do_write : bool)
    (p : checkpoint_action_t) (st : State) :
  opcode p = cop_echo -> v_command_of (v p) = None ->
  gettext env "Write checkpoint %u" = "Write checkpoint %u" ->
  gettext env "Read checkpoint %u" = "Read checkpoint %u" ->
  run_action (S d) env do_write p st =
    Ok tt
      (set_log
         (log st
          ++ EvPuts stderr (program_name env ++ ": ")
             :: putc_events stderr
                  (if do_write then "Write checkpoint "
                   else "Read checkpoint ")
          ++ [EvPuts stderr (decimal (checkpoint st)); EvFlush stderr;
              EvPutc stderr LF])
         st).
Proof. apply echo_default_message. Qed.

Lemma default_echo_line_witness :
  let p := mkAction cop_echo v_zero in
  let st := set_checkpoint 1000 (initial_state 1000 []) in
  opcode p = cop_echo /\ v_command_of (v p) = None /\
  gettext ref_env "Write checkpoint %u" = "Write checkpoint %u" /\
  gettext ref_env "Read checkpoint %u" = "Read checkpoint %u" /\
  run_action 1 ref_env true p st =
    Ok tt
      (set_log
         (EvPuts stderr "tar: "
          :: putc_events stderr "Write checkpoint "
          ++ [EvPuts stderr "1000"; EvFlush stderr; EvPutc stderr LF])
         st).
Proof.
  intros p st. repeat (split; [reflexivity |]).
  exact (default_echo_line 0 ref_env true p st eq_refl eq_refl eq_refl
           eq_refl).
Defined.

(** ** The historical default, end to end *)

Lemma run_ticks_app depth env a b st :
  run_ticks depth env (a ++ b) st =
  bind (run_ticks depth env a) (fun _ => run_ticks depth env b) st.
Proof.
  revert st. induction a as [| w a IH]; intro st; [reflexivity |].
  cbn [app run_ticks]. rewrite bind_assoc. apply bind_ext.
  intros; apply IH.
Qed.

(** X16.  With an interval [N > 0] and no action given, the program is the
    single echo without text and the whole session up to call [N] does
    three things: it blocks the empty signal set once, counts to [N], and
    at call [N] writes the one line [program: Write checkpoint N] (or
    [Read]) to the standard error. *)
Theorem historical_default (d : nat) (env : Env) (N : Z) (mask : sigset)
    (quiet : list bool) (w : bool) :
  0 < N -> Z.of_nat (List.length quiet) = N - 1 ->
  gettext env "Write checkpoint %u" = "Write checkpoint %u" ->
  gettext env "Read checkpoint %u" = "Read checkpoint %u" ->
  session (S d) env [] (quiet ++ [w]) (initial_state N mask) =
    Ok tt
      (mkState N N [plain_echo] CHKP_RUN [] false false mask
         (EvSigprocmaskBlock []
          :: EvPuts stderr (program_name env ++ ": ")
          :: putc_events stderr
               (if w then "Write checkpoint " else "Read checkpoint ")
          ++ [EvPuts stderr (decimal N); EvFlush stderr; EvPutc stderr LF])).
Proof.
  intros HN HL GW GR.
  assert (N0 : (N =? 0) = false) by (apply Z.eqb_neq; lia).
  unfold session. cbn [compile_all]. unfold bind at 1. unfold ret at 1.
  unfold bind at 1.
  rewrite finish_compile_default by (simpl; auto; lia).
  set (st0 := to_running env _).
  assert (F : st0 = mkState 0 N [plain_echo] CHKP_RUN [] false false mask
                      [EvSigprocmaskBlock []]).
  { unfold st0, to_running, blocked, push_action, entered; simpl.
    rewrite N0. reflexivity. }
  rewrite run_ticks_app. unfold bind at 1.
  rewrite (quiet_ticks (S d) env st0 N (List.length quiet) quiet HN)
    by (rewrite ?F; simpl; auto; lia).
  cbn [run_ticks]. unfold bind at 1.
  rewrite (tick_N_walks (S d) env w _ N HN)
    by (rewrite F; simpl; auto; lia).
  cbn [walk_actions]. rewrite F. simpl checkpoint_action.
  cbn [walk_actions]. unfold bind at 1.
  rewrite echo_default_message by auto.
  reflexivity.
Qed.

Lemma historical_default_witness :
  0 < 3 /\ Z.of_nat (List.length [true; true]) = 3 - 1 /\
  gettext ref_env "Write checkpoint %u" = "Write checkpoint %u" /\
  gettext ref_env "Read checkpoint %u" = "Read checkpoint %u" /\
  session 1 ref_env [] ([true; true] ++ [true]) (initial_state 3 []) =
    Ok tt
      (mkState 3 3 [plain_echo] CHKP_RUN [] false false []
         (EvSigprocmaskBlock []
          :: EvPuts stderr "tar: "
          :: putc_events stderr "Write checkpoint "
          ++ [EvPuts stderr "3"; EvFlush stderr; EvPutc stderr LF])).
Proof.
  repeat (split; [reflexivity |]).
  exact (historical_default 0 ref_env 3 [] [true; true] true eq_refl eq_refl
           eq_refl eq_refl).
Defined.

(** ** The status line is blanked at the end *)

Lemma confined_run_items env self fp do_write cpn opstr its :
  (forall fp' len input w c, confined fp' (self fp' len input w c)) ->
  forall len, confined fp (run_items env self fp do_write cpn opstr its len).
Proof.
  intro Self. induction its as [| it its IH]; intro len; cbn [run_items].
  - apply confined_ret.
  - apply confined_bind; [| intro; apply IH].
    destruct it as [c | | d arg]; cbn [run_item].
    + repeat confined_step; auto using confined_dirty, confined_ret.
    + repeat confined_step; auto using confined_ret.
    + now apply confined_directive.
Qed.

Lemma run_items_dirty env self fp do_write cpn opstr its :
  (forall fp' len input w c, confined fp' (self fp' len input w c)) ->
  (forall fp' len w c st r st',
     self fp' len (Some def_format) w c st = Ok r st' ->
     tty_cleanup st' = true) ->
  existsb dirties its = true ->
  forall len st l st',
    run_items env self fp do_write cpn opstr its len st = Ok l st' ->
    tty_cleanup st' = true.
Proof.
  intros Conf Self. induction its as [| it its IH]; intros D len st l st' R;
    [discriminate |].
  cbn [run_items] in R. unfold bind in R.
  destruct (run_item env self fp do_write cpn opstr it len st)
    as [l1 s1 | why s1] eqn:I; [| discriminate].
  cbn [existsb] in D. destruct (dirties it) eqn:Dit.
  - assert (F : tty_cleanup s1 = true).
    { destruct it as [c | | d arg]; simpl in Dit; [| discriminate |].
      - cbn [run_item] in I. unfold bind, fputc, emit, modify in I.
        rewrite Dit in I. injection I as _ <-. reflexivity.
      - cbn [run_item] in I. unfold directive in I. rewrite Dit in I.
        unfold bind in I.
        destruct (self fp len (Some def_format) do_write cpn st)
          as [r s' | why s'] eqn:E; [| discriminate].
        injection I as _ <-. exact (Self _ _ _ _ _ _ _ E). }
    pose proof (confined_run_items env self fp do_write cpn opstr its Conf
                  l1 s1) as C.
    rewrite R in C. simpl in C. now apply C.
  - simpl in D. exact (IH D l1 s1 l st' R).
Qed.

Lemma walk_reaches depth env do_write p prog :
  In p prog ->
  forall st st1,
    walk_actions depth env do_write prog st = Ok tt st1 ->
    exists sa sb,
      run_action depth env do_write p sa = Ok tt sb /\ steps sb st1.
Proof.
  induction prog as [| q prog IH]; intros H st st1 W; [destruct H |].
  cbn [walk_actions] in W. unfold bind in W.
  destruct (run_action depth env do_write q st) as [[] s1 | why s1] eqn:R;
    [| discriminate].
  destruct H as [-> | H].
  - exists st, s1. split; [exact R |].
    pose proof (sound_walk_actions depth env do_write prog s1) as S.
    now rewrite W in S.
  - exact (IH H s1 st1 W).
Qed.

Lemma ttyout_dirty env k do_write p template sa sb :
  sane env -> fopen_tty env = true ->
  opcode p = cop_ttyout -> v_command_of (v p) = Some template ->
  draws_status_line template = true ->
  run_action (S (S k)) env do_write p sa = Ok tt sb ->
  tty sb = true /\ tty_cleanup sb = true.
Proof.
  intros Sn O Op V D R. unfold run_action in R. rewrite Op, V in R.
  assert (T : exists s0, open_tty env sa = Ok tt s0 /\ tty s0 = true).
  { unfold open_tty, bind, get, emit, modify.
    destruct (tty sa) eqn:T; [eexists; split; [reflexivity | exact T] |].
    rewrite O. eexists; split; reflexivity. }
  destruct T as (s0 & E & T).
  unfold bind at 1 in R. rewrite E in R.
  unfold bind at 1 in R. unfold get at 1 in R. rewrite T in R.
  unfold bind at 1 in R. unfold get at 1 in R.
  unfold bind at 1 in R.
  destruct (format_checkpoint_string (S (S k)) env tty_dev 0 (Some template)
              do_write (checkpoint s0) s0) as [r s1 | why s1] eqn:F;
    [| discriminate].
  injection R as <-.
  rewrite format_checkpoint_string_items in F.
  unfold bind at 1 in F. unfold bind at 1 in F.
  destruct (run_items env (format_checkpoint_string (S k) env) tty_dev
              do_write (checkpoint s0)
              (if do_write then gettext env "write" else gettext env "read")
              (items template) 0 s0) as [l s2 | why s2] eqn:I;
    [| discriminate].
  pose proof (confined_run_items env (format_checkpoint_string (S k) env)
                tty_dev do_write (checkpoint s0)
                (if do_write then gettext env "write" else gettext env "read")
                (items template)
                (confined_format_checkpoint_string (S k) env) 0 s0) as C.
  rewrite I in C. destruct C as (_ & _ & _ & _ & _ & _ & T2 & _).
  simpl in T2.
  assert (F2 : tty_cleanup s2 = true).
  { refine (run_items_dirty env (format_checkpoint_string (S k) env) tty_dev
              do_write (checkpoint s0) _ (items template)
              (confined_format_checkpoint_string (S k) env) _ D 0 s0 l s2 I).
    intros fp' len w c s3 r' s4 E3.
    destruct (default_template_returns_zero_aux env k fp' len w c s3 Sn)
      as (s' & E' & F').
    congruence. }
  destruct (template_end template); simpl in F; try discriminate.
  injection F as _ <-. simpl. split; congruence.
Qed.

(** X17.  When a ttyout action of the program has a template with a raw
    carriage return or [%c], and the terminal can be opened, then after
    any run of the actions that returns, [checkpoint_finish] blanks the
    line: it sends as many spaces as the terminal is wide, a carriage
    return and a flush, and it ends by closing the terminal. *)
Theorem status_line_is_blanked (env : Env) (k : nat) (do_write : bool)
    (p : checkpoint_action_t) (template : string) (st st1 : State) :
  sane env -> fopen_tty env = true -> checkpoint_option st <> 0 ->
  In p (checkpoint_action st) ->
  opcode p = cop_ttyout -> v_command_of (v p) = Some template ->
  draws_status_line template = true ->
  run_checkpoint_actions (S (S k)) env do_write st = Ok tt st1 ->
  exists st2 pre post,
    checkpoint_finish env st1 = Ok tt st2 /\
    log st2 = log st1 ++ pre ++ clear_line (terminal_width env tty_dev)
              ++ post ++ [EvFclose tty_dev].
Proof.
  intros Sn O N H Op V D R.
  unfold run_checkpoint_actions, bind, get in R.
  destruct (walk_reaches _ _ _ _ _ H st st1 R) as (sa & sb & A & S).
  destruct (ttyout_dirty env k do_write p template sa sb Sn O Op V D A)
    as (T & F).
  destruct S as (_ & _ & _ & _ & _ & _ & T1 & F1 & _).
  specialize (T1 T). specialize (F1 F).
  pose proof (sound_walk_actions (S (S k)) env do_write (checkpoint_action st)
                st) as S0.
  rewrite R in S0. destruct S0 as (_ & N1 & P1 & _). simpl in N1, P1.
  destruct (in_split _ _ H) as (a & b & Sp).
  eexists.
  exists (flat_map
            (fun q => match opcode q with
                      | cop_ttyout => clear_line (terminal_width env tty_dev)
                      | _ => []
                      end) a).
  exists (flat_map
            (fun q => match opcode q with
                      | cop_ttyout => clear_line (terminal_width env tty_dev)
                      | _ => []
                      end) b).
  split.
  - apply checkpoint_finish_value; [congruence | exact (proj1 Sn)].
  - simpl. f_equal. unfold flush_trace. rewrite T1, F1, P1, Sp. simpl.
    rewrite flat_map_app. cbn [flat_map]. rewrite Op.
    rewrite <- !app_assoc. reflexivity.
Qed.

Lemma status_line_is_blanked_witness :
  let p := mkAction cop_ttyout (v_command "%c") in
  let st := set_checkpoint_action [p] (initial_state 1 []) in
  sane ref_env /\ fopen_tty ref_env = true /\ checkpoint_option st <> 0 /\
  In p (checkpoint_action st) /\ opcode p = cop_ttyout /\
  v_command_of (v p) = Some "%c" /\ draws_status_line "%c" = true /\
  exists st1,
    run_checkpoint_actions 2 ref_env true st = Ok tt st1 /\
    exists st2 pre post,
      checkpoint_finish ref_env st1 = Ok tt st2 /\
      log st2 = log st1 ++ pre ++ clear_line (terminal_width ref_env tty_dev)
                ++ post ++ [EvFclose tty_dev].
Proof.
  intros p st.
  assert (N : checkpoint_option st <> 0) by discriminate.
  assert (H : In p (checkpoint_action st)) by (left; reflexivity).
  split; [exact ref_env_sane |]. split; [reflexivity |].
  split; [exact N |]. split; [exact H |].
  split; [reflexivity |]. split; [reflexivity |]. split; [reflexivity |].
  assert (T : Forall (template_ok ref_env true) (checkpoint_action st)).
  { repeat constructor. }
  destruct (returns_walk_actions ref_env 0 true (checkpoint_action st)
              ref_env_sane T st) as ([] & st1 & R).
  exists st1. split; [exact R |].
  exact (status_line_is_blanked ref_env 0 true p "%c" st st1 ref_env_sane
           eq_refl N H eq_refl eq_refl eq_refl R).
Defined.
